(** * beamconv.detector: the [Beam] class

    A shallow embedding of [src/beamconv/detector.py].  A [Beam] is a
    mutable Python object; primaries own a list of ghost beams and two
    beams may hold the same coefficient triplet after [reuse_blm].  The
    embedding therefore keeps an explicit store of objects and runs every
    method in a state-and-exception monad over that store.

    Layout of the file:
    - [Py]: the fragment of the Python/numpy runtime the class relies on
      (exceptions, [int()], [float()], [np.abs], [np.radians], ...);
    - the [Beam] object record and the keyword records of [__init__] and
      [create_ghost];
    - [Section Detector]: the store, the monad, the properties and the
      methods of the class, parameterised by the external collaborators
      (numpy arrays, healpy file access, [beamconv.tools]);
    - the properties proved about them. *)

From Stdlib Require Import ZArith String Floats Lia Bool.
From Stdlib Require Uint63.
From stdpp Require Import base option list.

Open Scope Z_scope.

(** ** The Python runtime *)

Module Py.

(** Exception classes that occur in the module or in the library calls
    it makes. [IOError] stands for the whole [OSError] family. *)
Inductive exc_class :=
| AttributeError | TypeError | ValueError | RuntimeError | IOError
| OverflowError | IndexError | RecursionError | SystemError.

(** [Raised c msg] is a [raise c(msg)] statement of the source file;
    [Foreign c] is an exception of class [c] coming from the interpreter
    or from library code, whose message is not modelled. *)
Inductive exn :=
| Raised (c : exc_class) (msg : string)
| Foreign (c : exc_class).

Definition class_of (e : exn) : exc_class :=
  match e with Raised c _ => c | Foreign c => c end.

Definition class_eqb (c d : exc_class) : bool :=
  match c, d with
  | AttributeError, AttributeError | TypeError, TypeError
  | ValueError, ValueError | RuntimeError, RuntimeError
  | IOError, IOError | OverflowError, OverflowError
  | IndexError, IndexError | RecursionError, RecursionError
  | SystemError, SystemError => true
  | _, _ => false
  end.

(** [except c:] catches [e]. *)
Definition caught_by (c : exc_class) (e : exn) : bool :=
  class_eqb c (class_of e).

(** The result of a call that may raise. *)
Definition result (A : Type) : Type := exn + A.

(** [np.pi], the binary64 number nearest to pi. *)
Definition np_pi : float := 0x1.921fb54442d18p+1%float.

(** [np.radians] and [np.degrees]: numpy multiplies by the constants
    [pi/180] and [180/pi]. *)
Definition np_radians (x : float) : float := (x * (np_pi / 180))%float.
Definition np_degrees (x : float) : float := (x * (180 / np_pi))%float.

(** [np.abs] on a float. *)
Definition np_abs (x : float) : float := PrimFloat.abs x.

(** [int(x)] on a float: truncation towards zero; infinities and NaN
    raise. *)
Definition int_of_float (x : float) : result Z :=
  match Prim2SF x with
  | S754_nan => inl (Foreign ValueError)
  | S754_infinity _ => inl (Foreign OverflowError)
  | S754_zero _ => inr 0
  | S754_finite s m e =>
      let a := Z.shiftl (Z.pos m) e in
      inr (if s then - a else a)
  end.

(** [float(n)] on an int: the nearest binary64 number, [OverflowError]
    when [n] is out of range. *)
Definition float_of_int (n : Z) : result float :=
  match binary_normalize prec emax n 0 false with
  | S754_infinity _ | S754_nan => inl (Foreign OverflowError)
  | sf => inr (SF2Prim sf)
  end.

(** Truth value of an int, of a string and of [None]-or-string. *)
Definition truthy_int (n : Z) : bool := negb (n =? 0).
Definition truthy_str (s : string) : bool :=
  match s with EmptyString => false | _ => true end.
Definition truthy_optstr (s : option string) : bool :=
  match s with None => false | Some s => truthy_str s end.

(** The literal [1.4]. *)
Definition f1_4 : float := 0x1.6666666666666p+0%float.

End Py.
Import Py.

(** ** Objects *)

(** References into the store are positions. *)
Abbreviation loc := nat (only parsing).

(** A [Beam] instance.  The attributes that [__init__] stores verbatim are
    plain fields.  The name-mangled attributes written by the property
    setters are optional: [None] means the attribute does not exist on the
    instance, so that reading it raises [AttributeError] ([__fwhm] while
    [__init__] runs, [__ghosts] and [__ghost_count] on a ghost,
    [__ghost_idx] on a primary, [__blm] before the first access).
    [__ghosts] holds references to the ghost objects and [__blm] a
    reference to a coefficient triplet. *)
Set Primitive Projections.
Record Beam := mkBeam {
  az : float;
  el : float;
  polang : float;
  name : option string;
  pol : string;
  btype : string;
  amplitude : float;
  po_file : option string;
  eg_file : option string;
  cross_pol : bool;
  sensitive_freq : list float;
  deconv_q : bool;
  normalize : bool;
  polang_error : float;
  _idx : option Z;
  symmetric : bool;
  __ghost : bool;
  __dead : option bool;
  __lmax : option Z;
  __mmax : option Z;
  __fwhm : option float;
  __ghosts : option (list loc);
  __ghost_count : option Z;
  __ghost_idx : option Z;
  __blm : option loc
}.
Unset Primitive Projections.

(** Attribute stores, one per attribute that is written after
    allocation. *)
Definition store_btype (v : string) (o : Beam) : Beam :=
  let 'mkBeam a1 a2 a3 a4 a5 _ a7 a8 a9 a10 a11 a12 a13 a14 a15 a16
              p1 p2 p3 p4 p5 p6 p7 p8 p9 := o in
  mkBeam a1 a2 a3 a4 a5 v a7 a8 a9 a10 a11 a12 a13 a14 a15 a16
         p1 p2 p3 p4 p5 p6 p7 p8 p9.
Definition store_amplitude (v : float) (o : Beam) : Beam :=
  let 'mkBeam a1 a2 a3 a4 a5 a6 _ a8 a9 a10 a11 a12 a13 a14 a15 a16
              p1 p2 p3 p4 p5 p6 p7 p8 p9 := o in
  mkBeam a1 a2 a3 a4 a5 a6 v a8 a9 a10 a11 a12 a13 a14 a15 a16
         p1 p2 p3 p4 p5 p6 p7 p8 p9.
Definition store___dead (v : option bool) (o : Beam) : Beam :=
  let 'mkBeam a1 a2 a3 a4 a5 a6 a7 a8 a9 a10 a11 a12 a13 a14 a15 a16
              p1 _ p3 p4 p5 p6 p7 p8 p9 := o in
  mkBeam a1 a2 a3 a4 a5 a6 a7 a8 a9 a10 a11 a12 a13 a14 a15 a16
         p1 v p3 p4 p5 p6 p7 p8 p9.
Definition store___lmax (v : option Z) (o : Beam) : Beam :=
  let 'mkBeam a1 a2 a3 a4 a5 a6 a7 a8 a9 a10 a11 a12 a13 a14 a15 a16
              p1 p2 _ p4 p5 p6 p7 p8 p9 := o in
  mkBeam a1 a2 a3 a4 a5 a6 a7 a8 a9 a10 a11 a12 a13 a14 a15 a16
         p1 p2 v p4 p5 p6 p7 p8 p9.
Definition store___mmax (v : option Z) (o : Beam) : Beam :=
  let 'mkBeam a1 a2 a3 a4 a5 a6 a7 a8 a9 a10 a11 a12 a13 a14 a15 a16
              p1 p2 p3 _ p5 p6 p7 p8 p9 := o in
  mkBeam a1 a2 a3 a4 a5 a6 a7 a8 a9 a10 a11 a12 a13 a14 a15 a16
         p1 p2 p3 v p5 p6 p7 p8 p9.
Definition store___fwhm (v : option float) (o : Beam) : Beam :=
  let 'mkBeam a1 a2 a3 a4 a5 a6 a7 a8 a9 a10 a11 a12 a13 a14 a15 a16
              p1 p2 p3 p4 _ p6 p7 p8 p9 := o in
  mkBeam a1 a2 a3 a4 a5 a6 a7 a8 a9 a10 a11 a12 a13 a14 a15 a16
         p1 p2 p3 p4 v p6 p7 p8 p9.
Definition store___ghosts (v : option (list loc)) (o : Beam) : Beam :=
  let 'mkBeam a1 a2 a3 a4 a5 a6 a7 a8 a9 a10 a11 a12 a13 a14 a15 a16
              p1 p2 p3 p4 p5 _ p7 p8 p9 := o in
  mkBeam a1 a2 a3 a4 a5 a6 a7 a8 a9 a10 a11 a12 a13 a14 a15 a16
         p1 p2 p3 p4 p5 v p7 p8 p9.
Definition store___ghost_count (v : option Z) (o : Beam) : Beam :=
  let 'mkBeam a1 a2 a3 a4 a5 a6 a7 a8 a9 a10 a11 a12 a13 a14 a15 a16
              p1 p2 p3 p4 p5 p6 _ p8 p9 := o in
  mkBeam a1 a2 a3 a4 a5 a6 a7 a8 a9 a10 a11 a12 a13 a14 a15 a16
         p1 p2 p3 p4 p5 p6 v p8 p9.
Definition store___ghost_idx (v : option Z) (o : Beam) : Beam :=
  let 'mkBeam a1 a2 a3 a4 a5 a6 a7 a8 a9 a10 a11 a12 a13 a14 a15 a16
              p1 p2 p3 p4 p5 p6 p7 _ p9 := o in
  mkBeam a1 a2 a3 a4 a5 a6 a7 a8 a9 a10 a11 a12 a13 a14 a15 a16
         p1 p2 p3 p4 p5 p6 p7 v p9.
Definition store___blm (v : option loc) (o : Beam) : Beam :=
  let 'mkBeam a1 a2 a3 a4 a5 a6 a7 a8 a9 a10 a11 a12 a13 a14 a15 a16
              p1 p2 p3 p4 p5 p6 p7 p8 _ := o in
  mkBeam a1 a2 a3 a4 a5 a6 a7 a8 a9 a10 a11 a12 a13 a14 a15 a16
         p1 p2 p3 p4 p5 p6 p7 p8 v.

(** The keyword arguments of [Beam.__init__]. *)
Module Kw.
Set Primitive Projections.
Record t := mk {
  az : float;
  el : float;
  polang : float;
  name : option string;
  pol : string;
  btype : string;
  fwhm : option float;
  lmax : option Z;
  mmax : option Z;
  sensitive_freq : list float;
  dead : bool;
  ghost : bool;
  amplitude : float;
  po_file : option string;
  eg_file : option string;
  cross_pol : bool;
  deconv_q : bool;
  normalize : bool;
  polang_error : float;
  idx : option Z;
  symmetric : bool
}.
Unset Primitive Projections.

(** The same call with another [fwhm], [lmax] or [mmax]. *)
Definition with_fwhm (v : option float) (kw : t) : t :=
  let 'mk a1 a2 a3 a4 a5 a6 _ a8 a9 a10 a11 a12 a13 a14 a15 a16 a17 a18
          a19 a20 a21 := kw in
  mk a1 a2 a3 a4 a5 a6 v a8 a9 a10 a11 a12 a13 a14 a15 a16 a17 a18
     a19 a20 a21.
Definition with_lmax (v : option Z) (kw : t) : t :=
  let 'mk a1 a2 a3 a4 a5 a6 a7 _ a9 a10 a11 a12 a13 a14 a15 a16 a17 a18
          a19 a20 a21 := kw in
  mk a1 a2 a3 a4 a5 a6 a7 v a9 a10 a11 a12 a13 a14 a15 a16 a17 a18
     a19 a20 a21.
Definition with_mmax (v : option Z) (kw : t) : t :=
  let 'mk a1 a2 a3 a4 a5 a6 a7 a8 _ a10 a11 a12 a13 a14 a15 a16 a17 a18
          a19 a20 a21 := kw in
  mk a1 a2 a3 a4 a5 a6 a7 a8 v a10 a11 a12 a13 a14 a15 a16 a17 a18
     a19 a20 a21.

(** The defaults of the signature. *)
Definition default : t :=
  {| az := 0; el := 0; polang := 0; name := None; pol := "A";
     btype := "Gaussian"; fwhm := None; lmax := Some 700; mmax := None;
     sensitive_freq := [1.5e9%float]; dead := false; ghost := false;
     amplitude := 1; po_file := None; eg_file := None;
     cross_pol := true; deconv_q := true; normalize := true;
     polang_error := 0; idx := None; symmetric := false |}.
End Kw.

(** The [**kwargs] of [create_ghost]: for each keyword of [__init__],
    [None] when the caller did not pass it and [Some v] when it was passed
    with value [v]. *)
Module Ov.
Set Primitive Projections.
Record t := mk {
  az : option float;
  el : option float;
  polang : option float;
  name : option (option string);
  pol : option string;
  btype : option string;
  fwhm : option (option float);
  lmax : option (option Z);
  mmax : option (option Z);
  sensitive_freq : option (list float);
  dead : option bool;
  ghost : option bool;
  amplitude : option float;
  po_file : option (option string);
  eg_file : option (option string);
  cross_pol : option bool;
  deconv_q : option bool;
  normalize : option bool;
  polang_error : option float;
  idx : option (option Z);
  symmetric : option bool
}.
Unset Primitive Projections.

(** No keyword passed. *)
Definition none : t :=
  mk None None None None None None None None None None None None None
     None None None None None None None None.
End Ov.

(** The keyword arguments that [load_blm] forwards to [beamconv.tools]. *)
Record blm_opts := mkOpts {
  opt_deconv_q : option bool;
  opt_normalize : option bool;
  opt_c2_fwhm : option float
}.

(** ** The class *)

Section Detector.

(** *** External collaborators

    Everything the module imports is a parameter: numpy arrays and the
    operations applied to them, [os.path.splitext], the files as numpy
    and healpy read them, and the routines of [beamconv.tools].  A
    library call yields a value or an exception class. *)

Definition outcome (A : Type) : Type := exc_class + A.

Variable ndarray : Type.

(** What [np.load] can return: a rank-1 array or a sequence of rows. *)
Inductive loaded :=
| Rank1 (a : ndarray)
| Rank2 (rows : list ndarray).

(** [a.size], [np.zeros(n, dtype=complex128)], [np.zeros_like(a)],
    [a[:n] = r] and [a *= x]. *)
Variable np_size : ndarray -> Z.
Variable np_zeros : Z -> outcome ndarray.
Variable np_zeros_like : ndarray -> ndarray.
Variable np_set_prefix : ndarray -> Z -> ndarray -> outcome ndarray.
Variable np_imul : ndarray -> float -> ndarray.

(** [np.load(path, allow_pickle=True)] and [os.path.splitext]. *)
Variable np_load : string -> outcome loaded.
Variable splitext : string -> string * string.

(** healpy: [len(hp.fitsfunc.pf.open(path))], [hp.read_alm(path, hdu=k,
    return_mmax=True)], [hp.Alm.getlmax(size, mmax=m)] and
    [hp.Alm.getsize(lmax)]. *)
Variable fits_len : string -> outcome Z.
Variable read_alm : string -> Z -> outcome (ndarray * option Z).
Variable Alm_getlmax : Z -> option Z -> Z.
Variable Alm_getsize : Z -> Z.

(** [beamconv.tools]: [gauss_blm(fwhm, lmax, pol=False)],
    [get_copol_blm(blm, **opts)] and [scale_blm(blm, **opts)]. *)
Variable gauss_blm : float -> Z -> outcome ndarray.
Variable get_copol_blm :
  ndarray -> blm_opts -> outcome (ndarray * ndarray * ndarray).
Variable scale_blm : list ndarray -> blm_opts -> outcome (list ndarray).

(** *** The store and the monad *)

(** A coefficient triplet [(blm, blmm2, blmp2)]. *)
Definition triplet : Type := ndarray * ndarray * ndarray.

(** The store: the [Beam] objects and the triplet objects, each
    addressed by its position. Objects are never freed. *)
Record heap := mkHeap {
  beams : list Beam;
  blms : list triplet
}.

(** A computation runs on the store and ends with a value or an
    exception; the store survives an exception. *)
Definition M (A : Type) : Type := heap -> result A * heap.

Definition ret {A} (a : A) : M A := fun h => (inr a, h).
Definition raise {A} (e : exn) : M A := fun h => (inl e, h).
Definition bind {A B} (m : M A) (k : A -> M B) : M B :=
  fun h =>
    match m h with
    | (inr a, h') => k a h'
    | (inl e, h') => (inl e, h')
    end.

Notation "x <- c ;; k" := (bind c (fun x => k))
  (at level 100, c at next level, right associativity).
Notation "c ;; k" := (bind c (fun _ => k))
  (at level 100, right associativity).

(** [try: body  except c: handler]. *)
Definition try_except {A} (body : M A) (c : exc_class) (handler : M A)
  : M A :=
  fun h =>
    match body h with
    | (inl e, h') => if caught_by c e then handler h' else (inl e, h')
    | r => r
    end.

(** A library call, and a runtime conversion. *)
Definition call {A} (r : outcome A) : M A :=
  match r with inr a => ret a | inl c => raise (Foreign c) end.
Definition lift {A} (r : result A) : M A := fun h => (r, h).

(** Reading an attribute that may not exist. *)
Definition attr {A} (x : option A) : M A :=
  match x with Some v => ret v | None => raise (Foreign AttributeError) end.

(** Dereferencing and updating an object. *)
Definition deref (l : loc) : M Beam :=
  fun h =>
    match beams h !! l with
    | Some o => (inr o, h)
    | None => (inl (Foreign SystemError), h)
    end.
Definition update (l : loc) (f : Beam -> Beam) : M unit :=
  _ <- deref l ;;
  fun h => (inr tt, mkHeap (alter f l (beams h)) (blms h)).

(** Allocating a triplet object. *)
Definition new_triplet (t : triplet) : M loc :=
  fun h => (inr (length (blms h)), mkHeap (beams h) (blms h ++ [t])).

(** [for x in l: body]. *)
Fixpoint for_each {A} (l : list A) (body : A -> M unit) : M unit :=
  match l with
  | [] => ret tt
  | x :: l' => body x ;; for_each l' body
  end.

(** *** Properties *)

Definition get_idx (self : loc) : M (option Z) :=
  o <- deref self ;; ret (_idx o).

Definition get_ghost (self : loc) : M bool :=
  o <- deref self ;; ret (__ghost o).

Definition get_ghosts (self : loc) : M (list loc) :=
  o <- deref self ;; attr (__ghosts o).

Definition get_ghost_count (self : loc) : M Z :=
  o <- deref self ;; attr (__ghost_count o).

Definition set_ghost_count (self : loc) (count : Z) : M unit :=
  g <- get_ghost self ;;
  if negb g then update self (store___ghost_count (Some count))
  else raise (Raised ValueError "ghost cannot have ghost_count").

Definition get_ghost_idx (self : loc) : M Z :=
  o <- deref self ;; attr (__ghost_idx o).

Definition set_ghost_idx (self : loc) (val : Z) : M unit :=
  g <- get_ghost self ;;
  if g then update self (store___ghost_idx (Some val))
  else raise (Raised ValueError "main beam cannot have ghost_idx").

Definition get_dead (self : loc) : M bool :=
  o <- deref self ;; attr (__dead o).

(** The [dead] setter stores the flag and then assigns [dead] on every
    ghost, which runs this setter again on the ghost; an instance
    without [__ghosts] ends in the [except AttributeError] branch.
    [depth] bounds the nesting of these calls, as the interpreter's
    recursion limit does. *)
Fixpoint set_dead_rec (depth : nat) (self : loc) (val : bool) : M unit :=
  match depth with
  | O => raise (Foreign RecursionError)
  | S d =>
      update self (store___dead (Some val)) ;;
      try_except
        (gs <- get_ghosts self ;;
         for_each gs (fun ghost => set_dead_rec d ghost val))
        AttributeError
        (ret tt)
  end.

Definition recursion_limit : nat := 1000.

Definition set_dead (self : loc) (val : bool) : M unit :=
  set_dead_rec recursion_limit self val.

Definition get_lmax (self : loc) : M Z :=
  o <- deref self ;; attr (__lmax o).

Definition get_fwhm (self : loc) : M float :=
  o <- deref self ;; attr (__fwhm o).

(** The [lmax] setter. [self.fwhm] is read only when [val] is [None];
    the read raises [AttributeError] while the attribute does not exist.
    A stored [__fwhm] is never [None] (the [fwhm] setter stores a float
    or raises), so [self.fwhm is not None] holds whenever the read
    succeeds. *)
Definition set_lmax (self : loc) (val : option Z) : M unit :=
  match val with
  | None =>
      f <- get_fwhm self ;;
      n <- lift (int_of_float (2 * np_pi / np_radians (f / 60) * f1_4)) ;;
      update self (store___lmax (Some n))
  | Some v => update self (store___lmax (Some (Z.max v 0)))
  end.

(** The [fwhm] setter. With [val = None] and a zero [lmax] the source
    evaluates [np.abs(None)], a [TypeError]. *)
Definition set_fwhm (self : loc) (val : option float) : M unit :=
  match val with
  | None =>
      l <- get_lmax self ;;
      if truthy_int l then
        fl <- lift (float_of_int l) ;;
        let val := (f1_4 * 2 * np_pi / fl)%float in
        update self (store___fwhm (Some (np_degrees val * 60)%float))
      else raise (Foreign TypeError)
  | Some v => update self (store___fwhm (Some (np_abs v)))
  end.

Definition get_mmax (self : loc) : M Z :=
  o <- deref self ;; attr (__mmax o).

(** The [mmax] setter: the minimum of the entries of [[mmax, self.lmax]]
    that are not [None]. *)
Definition set_mmax (self : loc) (mmax : option Z) : M unit :=
  l <- get_lmax self ;;
  update self
    (store___mmax (Some (match mmax with Some m => Z.min m l | None => l end))).

Definition set_blm (self : loc) (val : loc) : M unit :=
  update self (store___blm (Some val)).

Definition del_blm (self : loc) : M unit :=
  o <- deref self ;;
  _ <- attr (__blm o) ;;
  update self (store___blm None).

Definition get_polang_truth (self : loc) : M float :=
  o <- deref self ;; ret (polang o + polang_error o)%float.

(** *** Construction *)

(** The instance as [__init__] finds it after its plain assignments:
    the name-mangled attributes do not exist yet.  The plain stores
    (lines 83-88, 90-93, 96, 98-102 and 104) neither read nor write what
    the property setters use, so doing them first changes nothing. *)
Definition blank (kw : Kw.t) : Beam :=
  mkBeam (Kw.az kw) (Kw.el kw) (Kw.polang kw) (Kw.name kw) (Kw.pol kw)
         (Kw.btype kw) (Kw.amplitude kw) (Kw.po_file kw) (Kw.eg_file kw)
         (Kw.cross_pol kw) (Kw.sensitive_freq kw) (Kw.deconv_q kw)
         (Kw.normalize kw) (Kw.polang_error kw) (Kw.idx kw)
         (Kw.symmetric kw) (Kw.ghost kw)
         None None None None None None None None.

(** The property assignments of [__init__], in source order. *)
Definition Beam_init (self : loc) (kw : Kw.t) : M unit :=
  set_dead self (Kw.dead kw) ;;
  set_lmax self (Kw.lmax kw) ;;
  set_mmax self (Kw.mmax kw) ;;
  set_fwhm self (Kw.fwhm kw) ;;
  g <- get_ghost self ;;
  if negb g then
    update self (store___ghosts (Some [])) ;;
    set_ghost_count self 0
  else ret tt.

(** The call [Beam(...)] with keywords [kw]: allocate, run [__init__],
    return the reference.  When
    [__init__] raises, the half-built instance is referenced by nobody
    and the store is as before the call. *)
Definition Beam_new (kw : Kw.t) : M loc :=
  fun h =>
    let self := length (beams h) in
    match Beam_init self kw (mkHeap (beams h ++ [blank kw]) (blms h)) with
    | (inr _, h') => (inr self, h')
    | (inl e, _) => (inl e, h)
    end.

(** *** Coefficients *)

(** [if self.amplitude != 1: blm *= self.amplitude]. *)
Definition scale_amplitude (amp : float) (blm : ndarray) : ndarray :=
  if (amp =? 1)%float then blm else np_imul blm amp.

Definition gen_gaussian_blm (self : loc) : M unit :=
  fwhm <- get_fwhm self ;;
  lmax <- get_lmax self ;;
  blm <- call (gauss_blm fwhm lmax) ;;
  o <- deref self ;;
  let blm := scale_amplitude (amplitude o) blm in
  fwhm' <- get_fwhm self ;;
  t <- call (get_copol_blm blm (mkOpts None None (Some fwhm'))) ;;
  update self (store_btype "Gaussian") ;;
  r <- new_triplet t ;;
  set_blm self r.

(** [np.atleast_2d(blm)]. *)
Definition atleast_2d (blm : loaded) : list ndarray :=
  match blm with Rank1 a => [a] | Rank2 rows => rows end.

(** [blm[i]]. *)
Definition row (blm : list ndarray) (i : nat) : M ndarray :=
  match blm !! i with
  | Some a => ret a
  | None => raise (Foreign IndexError)
  end.

(** Lines 321-346, in the [except IOError] branch of [load_blm]: read the
    healpy file [blm_file] and expand its channels. The result is the
    array, or the three arrays, and the azimuthal limit of the first
    channel. *)
Definition read_fits (blm_file : string) : M (loaded * option Z) :=
  n <- call (fits_len blm_file) ;;
  let npol := n - 1 in
  r1 <- call (read_alm blm_file 1) ;;
  let '(blm_read, mmax) := r1 in
  let lmax := Alm_getlmax (np_size blm_read) mmax in
  z <- call (np_zeros (Alm_getsize lmax)) ;;
  blm <- call (np_set_prefix z (np_size blm_read) blm_read) ;;
  if npol =? 3 then
    r2 <- call (read_alm blm_file 2) ;;
    let '(blmm2_read, mmaxm2) := r2 in
    r3 <- call (read_alm blm_file 3) ;;
    let '(blmp2_read, mmaxp2) := r3 in
    if negb (bool_decide (mmax = mmaxm2) && bool_decide (mmaxm2 = mmaxp2))
    then raise (Raised ValueError "mmax does not match between s=0,-2,2")
    else
      let blmm2 := np_zeros_like blm in
      let blmp2 := np_zeros_like blm in
      blmm2 <- call (np_set_prefix blmm2 (np_size blmm2_read) blmm2_read) ;;
      blmp2 <- call (np_set_prefix blmp2 (np_size blmp2_read) blmp2_read) ;;
      ret (Rank2 [blm; blmm2; blmp2], mmax)
  else ret (Rank1 blm, mmax).

(** Lines 348-353: update [mmax] if needed. *)
Definition update_mmax (self : loc) (mmax : option Z) : M unit :=
  match mmax with
  | None => set_mmax self None
  | Some m =>
      cur <- get_mmax self ;;
      if m <? cur then set_mmax self (Some m) else ret tt
  end.

(** The [except IOError] branch of [load_blm]. *)
Definition load_fits (self : loc) (blm_file : string) : M loaded :=
  r <- read_fits blm_file ;;
  update_mmax self (snd r) ;;
  ret (fst r).

(** Lines 355-383 of [load_blm]: turn what was loaded into a triplet and
    cache it. *)
Definition store_loaded (self : loc) (blm : loaded) (kwargs : blm_opts)
  : M unit :=
  let blm := atleast_2d blm in
  o <- deref self ;;
  if (Z.of_nat (length blm) =? 3) && cross_pol o then
    let kwargs := mkOpts (opt_deconv_q kwargs) (opt_normalize kwargs) None in
    blm <- call (scale_blm blm kwargs) ;;
    o <- deref self ;;
    let blm := map (scale_amplitude (amplitude o)) blm in
    b0 <- row blm 0 ;;
    b1 <- row blm 1 ;;
    b2 <- row blm 2 ;;
    r <- new_triplet (b0, b1, b2) ;;
    set_blm self r
  else
    blm <- row blm 0 ;;
    o <- deref self ;;
    let blm := scale_amplitude (amplitude o) blm in
    t <- call (get_copol_blm blm kwargs) ;;
    r <- new_triplet t ;;
    set_blm self r.

(** The path [load_blm] reads. Inside [try], an empty extension becomes
    [.npy] before [np.load] runs; the [except] branch tests the same
    variable again, which by then is never empty. *)
Definition blm_path (filename : string) : string :=
  let '(pname, ext) := splitext filename in
  let ext := if truthy_str ext then ext else ".npy"%string in
  (pname ++ ext)%string.
Definition blm_path_fits (filename : string) : string :=
  let '(pname, ext) := splitext filename in
  let ext := if truthy_str ext then ext else ".npy"%string in
  let ext := if truthy_str ext then ext else ".fits"%string in
  (pname ++ ext)%string.

Definition load_blm (self : loc) (filename : option string)
    (kwargs : blm_opts) : M unit :=
  filename <- match filename with
              | Some f => ret f
              | None => raise (Foreign TypeError)
              end ;;
  blm <-
    try_except
      (call (np_load (blm_path filename)))
      IOError
      (load_fits self (blm_path_fits filename)) ;;
  store_loaded self blm kwargs.

(** The [blm] property: return the cached triplet, or build it
    according to [btype], cache it and return it. *)
Definition get_blm (self : loc) : M loc :=
  o <- deref self ;;
  match __blm o with
  | Some r => ret r
  | None =>
      if String.eqb (btype o) "Gaussian" then
        gen_gaussian_blm self ;;
        o <- deref self ;; attr (__blm o)
      else if String.eqb (btype o) "PO" then
        load_blm self (po_file o)
                 (mkOpts (Some (deconv_q o)) (Some (normalize o)) None) ;;
        o <- deref self ;; attr (__blm o)
      else if String.eqb (btype o) "EG" then
        load_blm self (eg_file o)
                 (mkOpts (Some (deconv_q o)) (Some (normalize o)) None) ;;
        o <- deref self ;; attr (__blm o)
      else
        raise (Raised ValueError
                 ("btype = " ++ btype o ++ " not recognized"))
  end.

(** *** Ghosts *)

(** The options [create_ghost] passes to the constructor: the parent's
    attributes, updated with the caller's keywords, then [ghost=True].
    The keyword [name] of the caller is dropped. *)
Definition ghost_opts (o : Beam) (name : option string)
    (fwhm : float) (dead : bool) (lmax mmax : Z) (kwargs : Ov.t) : Kw.t :=
  {| Kw.az := default (az o) (Ov.az kwargs);
     Kw.el := default (el o) (Ov.el kwargs);
     Kw.polang := default (polang o) (Ov.polang kwargs);
     Kw.name := name;
     Kw.pol := default (pol o) (Ov.pol kwargs);
     Kw.btype := default (btype o) (Ov.btype kwargs);
     Kw.fwhm := default (Some fwhm) (Ov.fwhm kwargs);
     Kw.lmax := default (Some lmax) (Ov.lmax kwargs);
     Kw.mmax := default (Some mmax) (Ov.mmax kwargs);
     Kw.sensitive_freq :=
       default (Kw.sensitive_freq Kw.default) (Ov.sensitive_freq kwargs);
     Kw.dead := default dead (Ov.dead kwargs);
     Kw.ghost := true;
     Kw.amplitude := default (amplitude o) (Ov.amplitude kwargs);
     Kw.po_file := default (po_file o) (Ov.po_file kwargs);
     Kw.eg_file := default (eg_file o) (Ov.eg_file kwargs);
     Kw.cross_pol := default (cross_pol o) (Ov.cross_pol kwargs);
     Kw.deconv_q := default (deconv_q o) (Ov.deconv_q kwargs);
     Kw.normalize := default (normalize o) (Ov.normalize kwargs);
     Kw.polang_error := default (polang_error o) (Ov.polang_error kwargs);
     Kw.idx := default (Kw.idx Kw.default) (Ov.idx kwargs);
     Kw.symmetric := default (Kw.symmetric Kw.default) (Ov.symmetric kwargs)
  |}.

Definition create_ghost (self : loc) (tag : option string)
    (kwargs : Ov.t) : M unit :=
  g <- get_ghost self ;;
  if g then raise (Raised RuntimeError "Ghost cannot have ghosts") else
  o <- deref self ;;
  let parent_name := name o in
  let name :=
    match tag with
    | Some t =>
        if truthy_str t then
          match parent_name with
          | Some p => if truthy_str p then Some (p ++ "_" ++ t)%string
                      else tag
          | None => tag
          end
        else parent_name
    | None => parent_name
    end in
  fwhm <- get_fwhm self ;;
  dead <- get_dead self ;;
  lmax <- get_lmax self ;;
  mmax <- get_mmax self ;;
  ghost <- Beam_new (ghost_opts o name fwhm dead lmax mmax kwargs) ;;
  c <- get_ghost_count self ;;
  set_ghost_idx ghost c ;;
  c <- get_ghost_count self ;;
  set_ghost_count self (c + 1) ;;
  gs <- get_ghosts self ;;
  update self (store___ghosts (Some (gs ++ [ghost]))).

(** The argument of [reuse_blm]: a [Beam] or some other object. *)
Inductive pyobj :=
| IsBeam (l : loc)
| NotBeam.

Definition reuse_blm (self : loc) (partner : pyobj) : M unit :=
  match partner with
  | NotBeam => raise (Raised TypeError "partner must be Beam object")
  | IsBeam partner =>
      pg <- get_ghost partner ;;
      sg <- (if pg then get_ghost self else ret false) ;;
      (if sg then i <- get_ghost_idx partner ;; set_ghost_idx self i
       else ret tt) ;;
      r <- get_blm partner ;;
      set_blm self r ;;
      p <- deref partner ;;
      update self (store_btype (btype p)) ;;
      l <- get_lmax partner ;;
      set_lmax self (Some l) ;;
      m <- get_mmax partner ;;
      set_mmax self (Some m) ;;
      p <- deref partner ;;
      update self (store_amplitude (amplitude p))
  end.

(** [any(self.ghosts)]: a [Beam] instance is always true. *)
Definition any_beam (gs : list loc) : bool := existsb (fun _ => true) gs.

Definition delete_blm (self : loc) (del_ghosts_blm : bool) : M unit :=
  try_except (del_blm self) AttributeError (ret tt) ;;
  gs <- get_ghosts self ;;
  if any_beam gs && del_ghosts_blm then
    for_each gs
      (fun ghost => try_except (del_blm ghost) AttributeError (ret tt))
  else ret tt.

Definition get_offsets (self : loc) : M (float * float * float) :=
  o <- deref self ;;
  p <- get_polang_truth self ;;
  ret (az o, el o, p).

(** *** Auxiliary definitions for the statements *)

(** The store after [f] has been applied to the object at [l]. *)
Definition upd (h : heap) (l : loc) (f : Beam -> Beam) : heap :=
  mkHeap (alter f l (beams h)) (blms h).

(** The value the [fwhm] setter stores during [__init__], given the
    [lmax] already stored. *)
Definition init_fwhm (val : option float) (lmax : Z) : result float :=
  match val with
  | Some v => inr (np_abs v)
  | None =>
      if truthy_int lmax then
        match float_of_int lmax with
        | inr fl => inr (np_degrees (f1_4 * 2 * np_pi / fl) * 60)%float
        | inl e => inl e
        end
      else inl (Foreign TypeError)
  end.

(** The instance [__init__] leaves behind when [lmax] was given and the
    [fwhm] setter stored [fwhm]. *)
Definition built (kw : Kw.t) (lmax : Z) (fwhm : float) : Beam :=
  let lmax := Z.max lmax 0 in
  let mmax := match Kw.mmax kw with Some m => Z.min m lmax | None => lmax end in
  let o := store___fwhm (Some fwhm)
             (store___mmax (Some mmax)
                (store___lmax (Some lmax)
                   (store___dead (Some (Kw.dead kw)) (blank kw)))) in
  if Kw.ghost kw then o
  else store___ghost_count (Some 0) (store___ghosts (Some []) o).

(** [keeps I E m]: running [m] from a store that satisfies [I] ends in a
    store that satisfies [I], and an exception it ends with satisfies
    [E]. *)
Definition keeps (I : heap -> Prop) (E : exn -> Prop) {A} (m : M A) : Prop :=
  forall h, I h -> I (snd (m h)) /\ (forall e, fst (m h) = inl e -> E e).

(** [I] survives the store [f] on any object, and the allocation of a
    triplet. *)
Definition stable (I : heap -> Prop) (f : Beam -> Beam) : Prop :=
  forall h l, I h -> I (upd h l f).
Definition stable_alloc (I : heap -> Prop) : Prop :=
  forall h t, I h -> I (mkHeap (beams h) (blms h ++ [t])).

(** The calls a client can make on the beams of a store: the constructor,
    the assignments to the properties and to the plain attributes
    [btype] and [amplitude], and the methods. *)
Inductive method :=
| New (kw : Kw.t)
| SetDead (self : loc) (val : bool)
| SetLmax (self : loc) (val : option Z)
| SetMmax (self : loc) (val : option Z)
| SetFwhm (self : loc) (val : option float)
| SetGhostCount (self : loc) (count : Z)
| SetGhostIdx (self : loc) (val : Z)
| SetBtype (self : loc) (val : string)
| SetAmplitude (self : loc) (val : float)
| GetBlm (self : loc)
| SetBlm (self : loc) (val : loc)
| DelBlm (self : loc)
| GenGaussianBlm (self : loc)
| LoadBlm (self : loc) (filename : option string) (kwargs : blm_opts)
| CreateGhost (self : loc) (tag : option string) (kwargs : Ov.t)
| ReuseBlm (self : loc) (partner : pyobj)
| DeleteBlm (self : loc) (del_ghosts_blm : bool).

Definition run (c : method) : M unit :=
  match c with
  | New kw => _ <- Beam_new kw ;; ret tt
  | SetDead self val => set_dead self val
  | SetLmax self val => set_lmax self val
  | SetMmax self val => set_mmax self val
  | SetFwhm self val => set_fwhm self val
  | SetGhostCount self count => set_ghost_count self count
  | SetGhostIdx self val => set_ghost_idx self val
  | SetBtype self val => update self (store_btype val)
  | SetAmplitude self val => update self (store_amplitude val)
  | GetBlm self => _ <- get_blm self ;; ret tt
  | SetBlm self val => set_blm self val
  | DelBlm self => del_blm self
  | GenGaussianBlm self => gen_gaussian_blm self
  | LoadBlm self filename kwargs => load_blm self filename kwargs
  | CreateGhost self tag kwargs => create_ghost self tag kwargs
  | ReuseBlm self partner => reuse_blm self partner
  | DeleteBlm self del_ghosts_blm => delete_blm self del_ghosts_blm
  end.

Definition is_lmax_assignment (c : method) : bool :=
  match c with SetLmax _ _ => true | _ => false end.

(** [mmax <= lmax] on an instance, and on every instance of a store. *)
Definition mmax_le_lmax (o : Beam) : bool :=
  match __mmax o, __lmax o with
  | Some m, Some l => m <=? l
  | _, _ => false
  end.
Definition all_mmax_le_lmax (h : heap) : Prop :=
  Forall (fun o => mmax_le_lmax o = true) (beams h).

(** The primary [o] owns the ghosts [gs]: its [__ghosts] list holds them,
    and each is an instance built with [ghost=True], which has no
    [__ghosts] attribute. *)
Definition owns (h : heap) (o : Beam) (gs : list loc) : Prop :=
  __ghost o = false /\ __ghosts o = Some gs /\
  forall g, g ∈ gs ->
    exists og, beams h !! g = Some og /\ __ghost og = true /\ __ghosts og = None.

(** An attribute exists. *)
Definition present {A} (x : option A) : bool :=
  match x with Some _ => true | None => false end.

(** An instance on which [__init__] has run: a primary has a ghost list
    and a ghost count, a ghost has neither. *)
Definition initialised (o : Beam) : bool :=
  present (__dead o) && present (__lmax o) && present (__mmax o) &&
  present (__fwhm o) &&
  (if __ghost o then negb (present (__ghosts o)) &&
                     negb (present (__ghost_count o))
   else present (__ghosts o) && present (__ghost_count o) &&
        negb (present (__ghost_idx o))).
Definition is_primary (o : Beam) : bool := initialised o && negb (__ghost o).
Definition is_ghost (o : Beam) : bool := initialised o && __ghost o.

(** The constructor accepts the keywords: [lmax] is not [None], and
    [fwhm] is given or can be derived from [lmax]. *)
Definition init_accepts (kw : Kw.t) : bool :=
  match Kw.lmax kw with
  | None => false
  | Some l =>
      match init_fwhm (Kw.fwhm kw) (Z.max l 0) with
      | inr _ => true
      | inl _ => false
      end
  end.

(** The keywords passed to [create_ghost] on the primary [o] give the
    constructor an [lmax] and an [fwhm] it accepts. *)
Definition spawn_accepted (o : Beam) (kwargs : Ov.t) : bool :=
  match __lmax o, __fwhm o with
  | Some lmax, Some fwhm =>
      init_accepts
        (Kw.with_fwhm (default (Some fwhm) (Ov.fwhm kwargs))
           (Kw.with_lmax (default (Some lmax) (Ov.lmax kwargs)) Kw.default))
  | _, _ => false
  end.

(** Successive calls of [create_ghost] on one primary. *)
Definition spawn_all (self : loc) (calls : list (option string * Ov.t))
  : M unit :=
  for_each calls (fun c => create_ghost self (fst c) (snd c)).



(** The error of line 337. *)
Definition mmax_mismatch : exn :=
  Raised ValueError "mmax does not match between s=0,-2,2".

(** What [reuse_blm] stores on the target once it holds the partner's
    triplet [r]: lines 468-472 with the partner's attributes [btype],
    [lmax], [mmax] and [amplitude]. *)
Definition reused (r : loc) (btype : string) (lmax mmax : Z)
    (amplitude : float) (o : Beam) : Beam :=
  store_amplitude amplitude
    (store___mmax (Some (Z.min mmax (Z.max lmax 0)))
       (store___lmax (Some (Z.max lmax 0))
          (store_btype btype (store___blm (Some r) o)))).

(** Lines 468-472 of [reuse_blm], after the [ghost_idx] of lines
    465-466. *)
Definition reuse_from (self partner : loc) : M unit :=
  r <- get_blm partner ;;
  set_blm self r ;;
  p <- deref partner ;;
  update self (store_btype (btype p)) ;;
  l <- get_lmax partner ;;
  set_lmax self (Some l) ;;
  m <- get_mmax partner ;;
  set_mmax self (Some m) ;;
  p <- deref partner ;;
  update self (store_amplitude (amplitude p)).

(** Every object of the store satisfies [P], which may depend on where
    the object is. *)
Definition everywhere (P : loc -> Beam -> Prop) (h : heap) : Prop :=
  forall l o, beams h !! l = Some o -> P l o.

(** [P] looks at the role of an instance and at its [ghost_idx] only. *)
Definition ghost_blind (P : loc -> Beam -> Prop) : Prop :=
  forall l o o',
    __ghost o' = __ghost o -> __ghost_idx o' = __ghost_idx o ->
    P l o -> P l o'.


(** The state after a sequence of calls, whatever their outcomes. *)
Definition after_all (calls : list method) (h : heap) : heap :=
  foldl (fun h c => snd (run c h)) h calls.

(** A float that is not negative: its sign bit is clear, or it is NaN. *)
Definition sf_nonneg (x : spec_float) : Prop :=
  match x with
  | S754_nan => True
  | S754_zero s | S754_infinity s | S754_finite s _ _ => s = false
  end.
Definition float_nonneg (f : float) : Prop := sf_nonneg (Prim2SF f).

(** [0 <= lmax] and a stored [fwhm] that is not negative, on an instance
    and on every instance of a store. *)
Definition limits_nonneg (o : Beam) : Prop :=
  (forall l, __lmax o = Some l -> 0 <= l) /\
  (forall f, __fwhm o = Some f -> float_nonneg f).
Definition all_limits_nonneg (h : heap) : Prop :=
  Forall limits_nonneg (beams h).

(** [o'] has the attributes of [o] that only [__init__] assigns: the
    pointing, the names, the file names, the options and the role. *)
Definition same_identity (o o' : Beam) : Prop :=
  az o' = az o /\ el o' = el o /\ polang o' = polang o /\
  name o' = name o /\ pol o' = pol o /\
  po_file o' = po_file o /\ eg_file o' = eg_file o /\
  cross_pol o' = cross_pol o /\ sensitive_freq o' = sensitive_freq o /\
  deconv_q o' = deconv_q o /\ normalize o' = normalize o /\
  polang_error o' = polang_error o /\ _idx o' = _idx o /\
  symmetric o' = symmetric o /\ __ghost o' = __ghost o.

(** Every beam of [h] is still at its place in [h'], with the same
    identity, and every triplet of [h] is still at its place in [h'],
    unchanged. *)
Definition extends (h h' : heap) : Prop :=
  (forall l o, beams h !! l = Some o ->
     exists o', beams h' !! l = Some o' /\ same_identity o o') /\
  blms h `prefix_of` blms h'.

(** The name [create_ghost] gives the ghost (lines 410-418): the parent's
    name and the tag joined by an underscore, the tag alone when the
    parent has no name, the parent's name when there is no tag. *)
Definition ghost_name (parent_name tag : option string) : option string :=
  match tag with
  | Some t =>
      if truthy_str t then
        match parent_name with
        | Some p => if truthy_str p then Some (p ++ "_" ++ t)%string
                    else tag
        | None => tag
        end
      else parent_name
  | None => parent_name
  end.

(** The references in the ghost list of [o] denote ghosts of the store. *)
Definition ghost_refs_ok (h : heap) (o : Beam) : Prop :=
  forall gs g, __ghosts o = Some gs -> g ∈ gs ->
    exists og, beams h !! g = Some og /\ __ghost og = true.

(** A store as the class builds it: [__init__] has run on every beam, and
    every ghost list holds ghosts of the store. *)
Definition well_formed (h : heap) : Prop :=
  forall l o, beams h !! l = Some o ->
    initialised o = true /\ ghost_refs_ok h o.

(** [o'] is [o] up to [mmax] and the cached coefficients. *)
Definition same_settings (o o' : Beam) : Prop :=
  same_identity o o' /\
  btype o' = btype o /\ amplitude o' = amplitude o /\
  __dead o' = __dead o /\ __lmax o' = __lmax o /\ __fwhm o' = __fwhm o /\
  __ghosts o' = __ghosts o /\ __ghost_count o' = __ghost_count o /\
  __ghost_idx o' = __ghost_idx o.

(** Every beam of [h] is in [h'] up to [mmax] and the cache, and, when
    [keep_mmax] is set, with the same [mmax]; no beam was added. *)
Definition settings_kept (keep_mmax : bool) (h h' : heap) : Prop :=
  length (beams h') = length (beams h) /\
  forall l o, beams h !! l = Some o ->
    exists o', beams h' !! l = Some o' /\ same_settings o o' /\
               (keep_mmax = true -> __mmax o' = __mmax o).

(** [m] leaves every beam outside [ls] in place and as it was. *)
Definition touches_only (ls : list loc) {A} (m : M A) : Prop :=
  forall h l o, beams h !! l = Some o -> l ∉ ls ->
    beams (snd (m h)) !! l = Some o.

(** The beams a call may write, for the calls that write a fixed set:
    the constructor writes no existing beam, [reuse_blm] the target and
    the partner (whose coefficients it may have to build), the others
    the beam they are called on.  The [dead] setter, [create_ghost] and
    [delete_blm] also reach the ghosts of the beam. *)
Definition writes (c : method) : option (list loc) :=
  match c with
  | New _ => Some []
  | SetDead _ _ | CreateGhost _ _ _ | DeleteBlm _ _ => None
  | SetLmax self _ | SetMmax self _ | SetFwhm self _
  | SetGhostCount self _ | SetGhostIdx self _
  | SetBtype self _ | SetAmplitude self _
  | GetBlm self | SetBlm self _ | DelBlm self
  | GenGaussianBlm self | LoadBlm self _ _ => Some [self]
  | ReuseBlm self (IsBeam partner) => Some [self; partner]
  | ReuseBlm self NotBeam => Some []
  end.

(** Every beam of the store has an [mmax]. *)
Definition has_mmax (h : heap) : Prop :=
  Forall (fun o => present (__mmax o) = true) (beams h).

(** The store holds at least [n] beams, each beam has an [mmax], and the
    beams at the places in [G] have [mmax <= lmax]. *)
Definition limits_at (n : nat) (G : loc -> Prop) (h : heap) : Prop :=
  (n <= length (beams h))%nat /\ has_mmax h /\
  forall l o, beams h !! l = Some o -> G l -> mmax_le_lmax o = true.

(** ** Running the methods on a known store *)

Lemma lookup_upd_eq h l f o :
  beams h !! l = Some o -> beams (upd h l f) !! l = Some (f o).
Proof.
  intros E. unfold upd; cbn [beams].
  rewrite list_lookup_alter_eq, E. reflexivity.
Qed.

Lemma lookup_upd_ne h l f l' :
  l <> l' -> beams (upd h l f) !! l' = beams h !! l'.
Proof. intros E. unfold upd; cbn [beams]. apply list_lookup_alter_ne, E. Qed.

Lemma upd_snoc bs o bl f :
  upd (mkHeap (bs ++ [o]) bl) (length bs) f = mkHeap (bs ++ [f o]) bl.
Proof.
  unfold upd; cbn [beams blms]. f_equal.
  replace (length bs) with (length bs + 0)%nat by lia.
  rewrite alter_app_r. reflexivity.
Qed.

Lemma lookup_snoc (bs : list Beam) o : (bs ++ [o]) !! length bs = Some o.
Proof. apply list_lookup_middle. reflexivity. Qed.

Lemma lookup_old (bs : list Beam) l o g :
  bs !! l = Some o -> (bs ++ [g]) !! l = Some o.
Proof. intros E. apply lookup_app_l_Some, E. Qed.

Lemma deref_run h l o : beams h !! l = Some o -> deref l h = (inr o, h).
Proof. intros E. unfold deref. rewrite E. reflexivity. Qed.

Lemma update_run h l f o :
  beams h !! l = Some o -> update l f h = (inr tt, upd h l f).
Proof.
  intros E. unfold update, bind. rewrite (deref_run _ _ _ E). reflexivity.
Qed.

(** Sequencing after a step whose outcome is known. *)
Lemma bind_ok {A B} (m : M A) (k : A -> M B) h a h' :
  m h = (inr a, h') -> bind m k h = k a h'.
Proof. intros E. unfold bind. rewrite E. reflexivity. Qed.

Lemma bind_err {A B} (m : M A) (k : A -> M B) h e h' :
  m h = (inl e, h') -> bind m k h = (inl e, h').
Proof. intros E. unfold bind. rewrite E. reflexivity. Qed.

Lemma get_ghost_run h l o :
  beams h !! l = Some o -> get_ghost l h = (inr (__ghost o), h).
Proof. intros E. unfold get_ghost. rewrite (bind_ok _ _ _ _ _ (deref_run _ _ _ E)). reflexivity. Qed.

Lemma getattr_run {A} (p : Beam -> option A) h l o v :
  beams h !! l = Some o -> p o = Some v ->
  (o <- deref l ;; attr (p o)) h = (inr v, h).
Proof.
  intros E P. rewrite (bind_ok _ _ _ _ _ (deref_run _ _ _ E)), P. reflexivity.
Qed.

Lemma getattr_absent {A} (p : Beam -> option A) h l o :
  beams h !! l = Some o -> p o = None ->
  (o <- deref l ;; attr (p o)) h = (inl (Foreign AttributeError), h).
Proof.
  intros E P. rewrite (bind_ok _ _ _ _ _ (deref_run _ _ _ E)), P. reflexivity.
Qed.

Lemma set_dead_rec_leaf d h l o v :
  beams h !! l = Some o -> __ghosts o = None ->
  set_dead_rec (S d) l v h = (inr tt, upd h l (store___dead (Some v))).
Proof.
  intros E G. cbn [set_dead_rec].
  rewrite (bind_ok _ _ _ _ _ (update_run _ _ _ _ E)).
  unfold try_except, get_ghosts.
  rewrite (bind_err _ _ _ _ _
             (getattr_absent __ghosts _ _ _
                (lookup_upd_eq _ _ (store___dead (Some v)) _ E) G)).
  reflexivity.
Qed.

Lemma recursion_limit_eq :
  recursion_limit = S (S (Nat.pred (Nat.pred recursion_limit))).
Proof. reflexivity. Qed.

Lemma set_dead_leaf h l o v :
  beams h !! l = Some o -> __ghosts o = None ->
  set_dead l v h = (inr tt, upd h l (store___dead (Some v))).
Proof.
  intros E G. unfold set_dead. rewrite recursion_limit_eq.
  apply (set_dead_rec_leaf _ _ _ _ _ E G).
Qed.

Lemma deref_snoc bs bl o :
  deref (length bs) (mkHeap (bs ++ [o]) bl) = (inr o, mkHeap (bs ++ [o]) bl).
Proof. apply deref_run, lookup_snoc. Qed.

Lemma update_snoc bs bl o f :
  update (length bs) f (mkHeap (bs ++ [o]) bl)
  = (inr tt, mkHeap (bs ++ [f o]) bl).
Proof.
  rewrite (update_run _ _ _ o) by apply lookup_snoc.
  rewrite upd_snoc. reflexivity.
Qed.

Lemma bind_assoc {A B C} (m : M A) (k : A -> M B) (k' : B -> M C) h :
  bind (bind m k) k' h = bind m (fun x => bind (k x) k') h.
Proof. unfold bind. destruct (m h) as [[e|a] h']; reflexivity. Qed.

Lemma getattr_lmax_run h l o v :
  beams h !! l = Some o -> __lmax o = Some v -> get_lmax l h = (inr v, h).
Proof. apply (getattr_run __lmax). Qed.

Lemma getattr_mmax_run h l o v :
  beams h !! l = Some o -> __mmax o = Some v -> get_mmax l h = (inr v, h).
Proof. apply (getattr_run __mmax). Qed.

Lemma getattr_fwhm_run h l o v :
  beams h !! l = Some o -> __fwhm o = Some v -> get_fwhm l h = (inr v, h).
Proof. apply (getattr_run __fwhm). Qed.

Lemma getattr_dead_run h l o v :
  beams h !! l = Some o -> __dead o = Some v -> get_dead l h = (inr v, h).
Proof. apply (getattr_run __dead). Qed.

Lemma getattr_ghosts_run h l o v :
  beams h !! l = Some o -> __ghosts o = Some v -> get_ghosts l h = (inr v, h).
Proof. apply (getattr_run __ghosts). Qed.

Lemma getattr_ghost_count_run h l o v :
  beams h !! l = Some o -> __ghost_count o = Some v ->
  get_ghost_count l h = (inr v, h).
Proof. apply (getattr_run __ghost_count). Qed.

Lemma getattr_ghost_idx_run h l o v :
  beams h !! l = Some o -> __ghost_idx o = Some v ->
  get_ghost_idx l h = (inr v, h).
Proof. apply (getattr_run __ghost_idx). Qed.

Lemma set_lmax_run h l o v :
  beams h !! l = Some o ->
  set_lmax l (Some v) h = (inr tt, upd h l (store___lmax (Some (Z.max v 0)))).
Proof. intros E. apply (update_run _ _ _ _ E). Qed.

Lemma set_mmax_run h l o lm m :
  beams h !! l = Some o -> __lmax o = Some lm ->
  set_mmax l m h
  = (inr tt,
     upd h l (store___mmax
                (Some (match m with Some m => Z.min m lm | None => lm end)))).
Proof.
  intros E L. unfold set_mmax.
  rewrite (bind_ok _ _ _ _ _ (getattr_lmax_run _ _ _ _ E L)).
  apply (update_run _ _ _ _ E).
Qed.

Lemma set_fwhm_run h l o v :
  beams h !! l = Some o ->
  set_fwhm l (Some v) h = (inr tt, upd h l (store___fwhm (Some (np_abs v)))).
Proof. intros E. apply (update_run _ _ _ _ E). Qed.

Lemma set_ghost_count_run h l o c :
  beams h !! l = Some o -> __ghost o = false ->
  set_ghost_count l c h = (inr tt, upd h l (store___ghost_count (Some c))).
Proof.
  intros E G. unfold set_ghost_count.
  rewrite (bind_ok _ _ _ _ _ (get_ghost_run _ _ _ E)), G.
  apply (update_run _ _ _ _ E).
Qed.

Lemma set_ghost_idx_run h l o c :
  beams h !! l = Some o -> __ghost o = true ->
  set_ghost_idx l c h = (inr tt, upd h l (store___ghost_idx (Some c))).
Proof.
  intros E G. unfold set_ghost_idx.
  rewrite (bind_ok _ _ _ _ _ (get_ghost_run _ _ _ E)), G.
  apply (update_run _ _ _ _ E).
Qed.

Lemma set_blm_run h l o r :
  beams h !! l = Some o ->
  set_blm l r h = (inr tt, upd h l (store___blm (Some r))).
Proof. intros E. apply (update_run _ _ _ _ E). Qed.

Lemma set_fwhm_none_run h l o lm :
  beams h !! l = Some o -> __lmax o = Some lm ->
  set_fwhm l None h
  = match init_fwhm None lm with
    | inr f => (inr tt, upd h l (store___fwhm (Some f)))
    | inl e => (inl e, h)
    end.
Proof.
  intros E L. unfold set_fwhm, init_fwhm.
  rewrite (bind_ok _ _ _ _ _ (getattr_lmax_run _ _ _ _ E L)).
  destruct (truthy_int lm); [|reflexivity].
  destruct (float_of_int lm) as [e|fl]; [reflexivity|].
  cbn [lift bind]. apply (update_run _ _ _ _ E).
Qed.

(** Run the first step of a sequence with the lemma [L]; the object at
    hand is found in the hypotheses or at the end of the store. *)
Ltac side :=
  first [ apply lookup_snoc | eassumption | reflexivity
        | eapply lookup_upd_eq; side
        | apply lookup_old; eassumption ].
Tactic Notation "step" uconstr(L) :=
  rewrite ?bind_assoc;
  erewrite bind_ok by (eapply L; side);
  rewrite ?upd_snoc.
Tactic Notation "last_step" uconstr(L) :=
  erewrite L by side; rewrite ?upd_snoc.

Lemma Beam_init_run bs bl kw l f :
  Kw.lmax kw = Some l ->
  init_fwhm (Kw.fwhm kw) (Z.max l 0) = inr f ->
  Beam_init (length bs) kw (mkHeap (bs ++ [blank kw]) bl)
  = (inr tt, mkHeap (bs ++ [built kw l f]) bl).
Proof.
  intros L F. unfold Beam_init.
  step set_dead_leaf.
  rewrite L.
  step set_lmax_run.
  step set_mmax_run.
  assert (S : forall o, __lmax o = Some (Z.max l 0) ->
            set_fwhm (length bs) (Kw.fwhm kw) (mkHeap (bs ++ [o]) bl)
            = (inr tt, mkHeap (bs ++ [store___fwhm (Some f) o]) bl)).
  { intros o Lo. destruct (Kw.fwhm kw) as [v|].
    - injection F as <-. last_step set_fwhm_run. reflexivity.
    - last_step set_fwhm_none_run. rewrite F, upd_snoc. reflexivity. }
  step S.
  step get_ghost_run.
  unfold built. cbn [__ghost blank store___fwhm store___mmax store___lmax store___dead].
  destruct (Kw.ghost kw) eqn:G; cbn [negb]; [reflexivity|].
  step update_run.
  last_step set_ghost_count_run. reflexivity.
Qed.

Lemma Beam_new_run h kw l f :
  Kw.lmax kw = Some l ->
  init_fwhm (Kw.fwhm kw) (Z.max l 0) = inr f ->
  Beam_new kw h
  = (inr (length (beams h)), mkHeap (beams h ++ [built kw l f]) (blms h)).
Proof.
  intros L F. unfold Beam_new.
  rewrite (Beam_init_run _ _ _ _ _ L F). reflexivity.
Qed.

Lemma get_fwhm_absent h l o :
  beams h !! l = Some o -> __fwhm o = None ->
  get_fwhm l h = (inl (Foreign AttributeError), h).
Proof. apply (getattr_absent __fwhm). Qed.

Lemma Beam_new_lmax_None h kw :
  Kw.lmax kw = None -> Beam_new kw h = (inl (Foreign AttributeError), h).
Proof.
  intros L. unfold Beam_new, Beam_init.
  step set_dead_leaf. rewrite L. unfold set_lmax.
  rewrite ?bind_assoc.
  erewrite bind_err by (eapply get_fwhm_absent; side).
  reflexivity.
Qed.

(** ** Stored widths are magnitudes *)

Lemma np_abs_not_negative v : (np_abs v <? 0)%float = false.
Proof.
  unfold np_abs. rewrite FloatAxioms.ltb_spec, FloatAxioms.abs_spec.
  destruct (Prim2SF v) as [s|s| |s m e]; reflexivity.
Qed.

Lemma np_abs_nonneg v :
  is_nan v = false -> (0 <=? np_abs v)%float = true.
Proof.
  intros N. unfold np_abs.
  rewrite FloatAxioms.leb_spec, FloatAxioms.abs_spec.
  unfold is_nan in N. rewrite FloatAxioms.eqb_spec in N.
  destruct (Prim2SF v) as [s|s| |s m e]; try reflexivity. discriminate.
Qed.

(** C10. Assigning a number [v] to [fwhm] never raises and stores
    [|v|], both on an existing beam and in the constructor (called with
    an [lmax]); the stored value is never below zero, and is at least
    zero unless [v] is NaN. *)
Theorem fwhm_setter_stores_magnitude h self o v :
  beams h !! self = Some o ->
  (let h' := upd h self (store___fwhm (Some (np_abs v))) in
   set_fwhm self (Some v) h = (inr tt, h') /\
   get_fwhm self h' = (inr (np_abs v), h')) /\
  (forall kw l,
      Kw.lmax kw = Some l ->
      exists o',
        Beam_new (Kw.with_fwhm (Some v) kw) h
        = (inr (length (beams h)), mkHeap (beams h ++ [o']) (blms h)) /\
        __fwhm o' = Some (np_abs v)) /\
  (np_abs v <? 0)%float = false /\
  (is_nan v = false -> (0 <=? np_abs v)%float = true).
Proof.
  intros E. repeat split.
  - apply (set_fwhm_run _ _ _ _ E).
  - apply (getattr_fwhm_run _ _ (store___fwhm (Some (np_abs v)) o)).
    + apply (lookup_upd_eq _ _ _ _ E).
    + reflexivity.
  - intros kw l L.
    exists (built (Kw.with_fwhm (Some v) kw) l (np_abs v)). split.
    + apply Beam_new_run; [exact L | reflexivity].
    + unfold built. destruct (Kw.ghost _); reflexivity.
  - apply np_abs_not_negative.
  - apply np_abs_nonneg.
Qed.

(** ** The constructor with [lmax=None] *)

(** C1. The constructor called with [lmax=None] and a width [fwhm=v]
    raises [AttributeError]: the [lmax] setter reads [self.fwhm] on line
    94, three lines before [__init__] assigns it, so no beam with the
    derived [lmax] is produced. *)
Theorem init_lmax_None_raises h kw v :
  Beam_new (Kw.with_fwhm (Some v) (Kw.with_lmax None kw)) h
  = (inl (Foreign AttributeError), h).
Proof. apply Beam_new_lmax_None. reflexivity. Qed.

Lemma lift_run {A} (r : result A) a h : r = inr a -> lift r h = (inr a, h).
Proof. intros ->. reflexivity. Qed.

(** Once the beam exists, assigning [None] to [lmax] does derive it. *)
Lemma set_lmax_None_run h l o f n :
  beams h !! l = Some o -> __fwhm o = Some f ->
  int_of_float (2 * np_pi / np_radians (f / 60) * f1_4) = inr n ->
  set_lmax l None h = (inr tt, upd h l (store___lmax (Some n))).
Proof.
  intros E F N. unfold set_lmax.
  step getattr_fwhm_run. step lift_run.
  apply (update_run _ _ _ _ E).
Qed.

(** ** Ghosts do not spawn ghosts *)

(** C8. [create_ghost] on a ghost raises the [RuntimeError] of line 408
    whatever the tag and the keywords, and the store is untouched. *)
Theorem create_ghost_on_ghost_raises h self o tag kwargs :
  beams h !! self = Some o -> __ghost o = true ->
  create_ghost self tag kwargs h
  = (inl (Raised RuntimeError "Ghost cannot have ghosts"), h).
Proof.
  intros E G. unfold create_ghost.
  step get_ghost_run. rewrite G. reflexivity.
Qed.

(** ** Invariants of the store

    Rules to show that a method keeps an invariant [Inv] of the store and
    raises only exceptions in [E], following the structure of its code. *)

Section Keeps.

Variable Inv : heap -> Prop.
Variable E : exn -> Prop.
Hypothesis E_foreign : forall c, E (Foreign c).

Lemma keeps_ret {A} (a : A) : keeps Inv E (ret a).
Proof. intros h H. split; [exact H | discriminate]. Qed.

Lemma keeps_raise {A} e : E e -> keeps Inv E (@raise A e).
Proof. intros He h H. split; [exact H | intros e' [= <-]; exact He]. Qed.

Lemma keeps_call {A} (r : outcome A) : keeps Inv E (call r).
Proof. destruct r; [apply keeps_raise, E_foreign | apply keeps_ret]. Qed.

Lemma keeps_attr {A} (x : option A) : keeps Inv E (attr x).
Proof. destruct x; [apply keeps_ret | apply keeps_raise, E_foreign]. Qed.

Lemma keeps_deref l : keeps Inv E (deref l).
Proof.
  intros h H. unfold deref. destruct (beams h !! l); cbn.
  - split; [exact H | discriminate].
  - split; [exact H | intros e [= <-]; apply E_foreign].
Qed.

Lemma keeps_bind {A B} (m : M A) (k : A -> M B) :
  keeps Inv E m -> (forall a, keeps Inv E (k a)) -> keeps Inv E (bind m k).
Proof.
  intros Hm Hk h H. unfold bind. destruct (Hm h H) as [H1 H2].
  destruct (m h) as [[e|a] h']; cbn in *.
  - split; [exact H1 | intros e' [= <-]; apply H2; reflexivity].
  - apply Hk, H1.
Qed.

Lemma keeps_try {A} (body handler : M A) c :
  keeps Inv E body -> keeps Inv E handler -> keeps Inv E (try_except body c handler).
Proof.
  intros Hb Hh h H. unfold try_except. destruct (Hb h H) as [H1 H2].
  destruct (body h) as [[e|a] h']; cbn in *.
  - destruct (caught_by c e).
    + apply Hh, H1.
    + split; [exact H1 | exact H2].
  - split; [exact H1 | discriminate].
Qed.

Lemma keeps_for_each {A} (l : list A) (body : A -> M unit) :
  (forall x, keeps Inv E (body x)) -> keeps Inv E (for_each l body).
Proof.
  intros Hb. induction l as [|x l IH]; cbn [for_each].
  - apply keeps_ret.
  - apply keeps_bind; [apply Hb | intros _; exact IH].
Qed.

Lemma keeps_update l f : stable Inv f -> keeps Inv E (update l f).
Proof.
  intros Hf. unfold update. apply keeps_bind; [apply keeps_deref|].
  intros _ h H. split; [apply Hf, H | discriminate].
Qed.

Lemma keeps_new_triplet t : stable_alloc Inv -> keeps Inv E (new_triplet t).
Proof. intros Ha h H. split; [apply Ha, H | discriminate]. Qed.

Lemma keeps_lift_int x : keeps Inv E (lift (int_of_float x)).
Proof.
  intros h H. split; [exact H|]. cbn. unfold int_of_float.
  destruct (Prim2SF x); intros ? [= <-]; apply E_foreign.
Qed.

Lemma keeps_lift_float n : keeps Inv E (lift (float_of_int n)).
Proof.
  intros h H. split; [exact H|]. cbn. unfold float_of_int.
  destruct (binary_normalize _ _ _ _ _); intros ? [= <-]; apply E_foreign.
Qed.

End Keeps.

(** Decompose a goal [keeps Inv E m] along the code of [m]. *)
Ltac foreign :=
  first [ assumption
        | match goal with H : forall c, _ (Foreign c) |- _ => apply H end
        | intros; exact Logic.I
        | intros; discriminate ].
Ltac keeps_step :=
  lazymatch goal with
  | |- keeps _ _ (bind _ _) => apply keeps_bind; [|intros ?]
  | |- keeps _ _ (ret _) => apply keeps_ret
  | |- keeps _ _ (raise (Foreign _)) => apply keeps_raise; foreign
  | |- keeps _ _ (raise _) => apply keeps_raise
  | |- keeps _ _ (call _) => apply keeps_call; foreign
  | |- keeps _ _ (attr _) => apply keeps_attr; foreign
  | |- keeps _ _ (deref _) => apply keeps_deref; foreign
  | |- keeps _ _ (lift (int_of_float _)) => apply keeps_lift_int; foreign
  | |- keeps _ _ (lift (float_of_int _)) => apply keeps_lift_float; foreign
  | |- keeps _ _ (try_except _ _ _) => apply keeps_try
  | |- keeps _ _ (for_each _ _) => apply keeps_for_each; intros ?
  | |- keeps _ _ (update _ _) => apply keeps_update; [foreign|]
  | |- keeps _ _ (new_triplet _) => apply keeps_new_triplet
  | |- keeps _ _ (if ?b then _ else _) => destruct b
  | |- keeps _ _ (match ?x with _ => _ end) => destruct x
  end.
Ltac keeps_auto := repeat keeps_step; try assumption.

Ltac kbind :=
  lazymatch goal with
  | |- keeps _ _ (bind _ _) => apply keeps_bind; [|intros ?]
  end.

Section KeepsMethods.

Variable Inv : heap -> Prop.
Variable E : exn -> Prop.
Hypothesis E_foreign : forall c, E (Foreign c).

Lemma keeps_get_ghost l : keeps Inv E (get_ghost l).
Proof. unfold get_ghost. keeps_auto. Qed.

Lemma keeps_get_lmax l : keeps Inv E (get_lmax l).
Proof. unfold get_lmax. keeps_auto. Qed.

Lemma keeps_get_mmax l : keeps Inv E (get_mmax l).
Proof. unfold get_mmax. keeps_auto. Qed.

Lemma keeps_get_fwhm l : keeps Inv E (get_fwhm l).
Proof. unfold get_fwhm. keeps_auto. Qed.

Lemma keeps_get_dead l : keeps Inv E (get_dead l).
Proof. unfold get_dead. keeps_auto. Qed.

Lemma keeps_get_ghosts l : keeps Inv E (get_ghosts l).
Proof. unfold get_ghosts. keeps_auto. Qed.

Lemma keeps_get_ghost_count l : keeps Inv E (get_ghost_count l).
Proof. unfold get_ghost_count. keeps_auto. Qed.

Lemma keeps_get_ghost_idx l : keeps Inv E (get_ghost_idx l).
Proof. unfold get_ghost_idx. keeps_auto. Qed.

Lemma keeps_set_dead_rec d l v :
  stable Inv (store___dead (Some v)) -> keeps Inv E (set_dead_rec d l v).
Proof.
  intros S. revert l. induction d as [|d IH]; intros l; cbn [set_dead_rec].
  - keeps_auto.
  - apply keeps_bind; [keeps_auto|intros _].
    apply keeps_try; [|apply keeps_ret].
    apply keeps_bind; [apply keeps_get_ghosts|intros gs].
    apply keeps_for_each. intros g. apply IH.
Qed.

Lemma keeps_set_dead l v :
  stable Inv (store___dead (Some v)) -> keeps Inv E (set_dead l v).
Proof. apply keeps_set_dead_rec. Qed.

Lemma keeps_set_lmax l v :
  (forall x, stable Inv (store___lmax (Some x))) -> keeps Inv E (set_lmax l v).
Proof.
  intros S. unfold set_lmax. destruct v.
  - keeps_auto. apply S.
  - apply keeps_bind; [apply keeps_get_fwhm|intros f].
    keeps_auto. apply S.
Qed.

Lemma keeps_set_mmax l m :
  (forall x, stable Inv (store___mmax (Some x))) -> keeps Inv E (set_mmax l m).
Proof.
  intros S. unfold set_mmax.
  apply keeps_bind; [apply keeps_get_lmax|intros lm].
  keeps_auto. apply S.
Qed.

Lemma keeps_set_fwhm l v :
  (forall x, stable Inv (store___fwhm (Some x))) -> keeps Inv E (set_fwhm l v).
Proof.
  intros S. unfold set_fwhm. destruct v.
  - keeps_auto. apply S.
  - apply keeps_bind; [apply keeps_get_lmax|intros lm].
    keeps_auto. apply S.
Qed.

Lemma keeps_set_ghost_count l c :
  stable Inv (store___ghost_count (Some c)) ->
  E (Raised ValueError "ghost cannot have ghost_count") ->
  keeps Inv E (set_ghost_count l c).
Proof.
  intros S He. unfold set_ghost_count.
  apply keeps_bind; [apply keeps_get_ghost|intros g].
  keeps_auto.
Qed.

Lemma keeps_set_ghost_idx l c :
  stable Inv (store___ghost_idx (Some c)) ->
  E (Raised ValueError "main beam cannot have ghost_idx") ->
  keeps Inv E (set_ghost_idx l c).
Proof.
  intros S He. unfold set_ghost_idx.
  apply keeps_bind; [apply keeps_get_ghost|intros g].
  keeps_auto.
Qed.

Lemma keeps_set_blm l r :
  stable Inv (store___blm (Some r)) -> keeps Inv E (set_blm l r).
Proof. intros S. unfold set_blm. keeps_auto. Qed.

Lemma keeps_del_blm l :
  stable Inv (store___blm None) -> keeps Inv E (del_blm l).
Proof. intros S. unfold del_blm. keeps_auto. Qed.

(** The coefficient provider and the ghost registry, for an invariant
    that survives the stores they perform. *)
Hypothesis E_raised : forall c msg, E (Raised c msg).
Hypothesis Inv_alloc : stable_alloc Inv.
Hypothesis Inv_blm : forall v, stable Inv (store___blm v).
Hypothesis Inv_btype : forall v, stable Inv (store_btype v).
Hypothesis Inv_amplitude : forall v, stable Inv (store_amplitude v).
Hypothesis Inv_ghost_idx : forall v, stable Inv (store___ghost_idx v).
Hypothesis Inv_ghost_count : forall v, stable Inv (store___ghost_count v).
Hypothesis Inv_ghosts : forall v, stable Inv (store___ghosts v).
Hypothesis Inv_set_mmax : forall l m, keeps Inv E (set_mmax l m).
Hypothesis Inv_set_lmax : forall l v, keeps Inv E (set_lmax l (Some v)).
Hypothesis Inv_new :
  forall h kw l f,
    Inv h -> Kw.lmax kw = Some l ->
    init_fwhm (Kw.fwhm kw) (Z.max l 0) = inr f ->
    Inv (mkHeap (beams h ++ [built kw l f]) (blms h)).

Ltac keeps_methods :=
  repeat first
    [ apply keeps_get_ghost | apply keeps_get_lmax | apply keeps_get_mmax
    | apply keeps_get_fwhm | apply keeps_get_dead | apply keeps_get_ghosts
    | apply keeps_get_ghost_count | apply keeps_get_ghost_idx
    | apply keeps_set_blm | apply keeps_del_blm
    | apply keeps_set_ghost_count | apply keeps_set_ghost_idx
    | apply Inv_set_mmax | apply Inv_set_lmax
    | apply Inv_alloc | apply Inv_blm | apply Inv_btype | apply Inv_amplitude
    | apply Inv_ghost_idx | apply Inv_ghost_count | apply Inv_ghosts
    | apply E_raised | apply E_foreign
    | keeps_step ].

Lemma keeps_gen_gaussian_blm self : keeps Inv E (gen_gaussian_blm self).
Proof. unfold gen_gaussian_blm, scale_amplitude. keeps_methods. Qed.

Lemma keeps_update_mmax self m : keeps Inv E (update_mmax self m).
Proof. unfold update_mmax. keeps_methods. Qed.

Lemma keeps_store_loaded self blm kwargs :
  keeps Inv E (store_loaded self blm kwargs).
Proof. unfold store_loaded, row. keeps_methods. Qed.

Lemma keeps_read_fits blm_file : keeps Inv E (read_fits blm_file).
Proof. unfold read_fits. keeps_methods. Qed.

Lemma keeps_load_fits self blm_file : keeps Inv E (load_fits self blm_file).
Proof.
  unfold load_fits.
  kbind; [apply keeps_read_fits|].
  kbind; [apply keeps_update_mmax | apply keeps_ret].
Qed.

Lemma keeps_load_blm self filename kwargs :
  keeps Inv E (load_blm self filename kwargs).
Proof.
  unfold load_blm.
  kbind; [keeps_methods|].
  kbind; [|apply keeps_store_loaded].
  apply keeps_try; [keeps_methods | apply keeps_load_fits].
Qed.

Lemma keeps_get_blm self : keeps Inv E (get_blm self).
Proof.
  unfold get_blm. keeps_methods;
    first [apply keeps_gen_gaussian_blm | apply keeps_load_blm].
Qed.

Lemma keeps_delete_blm self d : keeps Inv E (delete_blm self d).
Proof. unfold delete_blm. keeps_methods. Qed.

Lemma init_fwhm_error v lm e : init_fwhm v lm = inl e -> exists c, e = Foreign c.
Proof.
  unfold init_fwhm. destruct v; [discriminate|].
  destruct (truthy_int lm); [|intros [= <-]; eauto].
  unfold float_of_int. destruct (binary_normalize _ _ _ _ _);
    intros [= <-]; eauto.
Qed.

Lemma Beam_new_error h kw l e :
  Kw.lmax kw = Some l -> init_fwhm (Kw.fwhm kw) (Z.max l 0) = inl e ->
  Beam_new kw h = (inl e, h).
Proof.
  intros L F. unfold Beam_new, Beam_init.
  step set_dead_leaf. rewrite L.
  step set_lmax_run. step set_mmax_run.
  destruct (Kw.fwhm kw) as [v|]; [discriminate|].
  rewrite ?bind_assoc.
  erewrite bind_err; [reflexivity|].
  erewrite set_fwhm_none_run by side. rewrite F. reflexivity.
Qed.

(** The constructor either appends the instance it built or leaves the
    store as it was. *)
Lemma Beam_new_cases h kw :
  (exists l f,
      Kw.lmax kw = Some l /\ init_fwhm (Kw.fwhm kw) (Z.max l 0) = inr f /\
      Beam_new kw h
      = (inr (length (beams h)),
         mkHeap (beams h ++ [built kw l f]) (blms h))) \/
  (exists c, Beam_new kw h = (inl (Foreign c), h)).
Proof.
  destruct (Kw.lmax kw) as [l|] eqn:L.
  - destruct (init_fwhm (Kw.fwhm kw) (Z.max l 0)) as [e|f] eqn:F.
    + right. destruct (init_fwhm_error _ _ _ F) as [c ->].
      exists c. apply (Beam_new_error _ _ _ _ L F).
    + left. exists l, f. repeat split; try assumption.
      apply (Beam_new_run _ _ _ _ L F).
  - right. exists AttributeError. apply Beam_new_lmax_None, L.
Qed.

Lemma keeps_Beam_new kw : keeps Inv E (Beam_new kw).
Proof.
  intros h H.
  destruct (Beam_new_cases h kw) as [(l & f & L & F & ->)|[c ->]]; cbn.
  - split; [apply Inv_new; assumption | discriminate].
  - split; [exact H | intros e [= <-]; apply E_foreign].
Qed.

Lemma keeps_create_ghost self tag kwargs :
  keeps Inv E (create_ghost self tag kwargs).
Proof.
  unfold create_ghost.
  apply keeps_bind; [apply keeps_get_ghost|intros g].
  destruct g; [apply keeps_raise, E_raised|].
  apply keeps_bind; [apply keeps_deref, E_foreign|intros o].
  repeat (lazymatch goal with
          | |- keeps _ _ (bind _ _) =>
              apply keeps_bind;
              [solve [apply keeps_Beam_new | keeps_methods] | intros ?]
          end).
  keeps_methods.
Qed.

Lemma keeps_reuse_blm self partner : keeps Inv E (reuse_blm self partner).
Proof.
  unfold reuse_blm. destruct partner as [p|]; [|apply keeps_raise, E_raised].
  keeps_methods; apply keeps_get_blm.
Qed.

End KeepsMethods.

(** ** The azimuthal limit stays below the harmonic limit *)

Lemma deref_fail h l :
  beams h !! l = None -> deref l h = (inl (Foreign SystemError), h).
Proof. intros E. unfold deref. rewrite E. reflexivity. Qed.

Lemma mmax_le_lmax_inv o :
  mmax_le_lmax o = true ->
  exists m l, __mmax o = Some m /\ __lmax o = Some l /\ m <= l.
Proof.
  unfold mmax_le_lmax. destruct (__mmax o) as [m|]; [|discriminate].
  destruct (__lmax o) as [l|]; [|discriminate].
  intros H. exists m, l. repeat split. lia.
Qed.

Lemma mmax_le_lmax_built kw l f : mmax_le_lmax (built kw l f) = true.
Proof.
  unfold built, mmax_le_lmax.
  destruct (Kw.ghost kw); cbn; destruct (Kw.mmax kw); lia.
Qed.

Lemma mmax_le_lmax_store_mmax o x lm :
  __lmax o = Some lm -> x <= lm ->
  mmax_le_lmax (store___mmax (Some x) o) = true.
Proof.
  intros Hl Hx. destruct o; cbn in *. subst.
  unfold mmax_le_lmax; cbn. lia.
Qed.

(** The same beam by beam: the beams at the places in [G] keep
    [mmax <= lmax] whatever the state of the others, as long as every
    beam has an [mmax] to read. *)
Lemma limits_at_stable n G f :
  (forall o, mmax_le_lmax (f o) = mmax_le_lmax o) ->
  (forall o, present (__mmax (f o)) = present (__mmax o)) ->
  stable (limits_at n G) f.
Proof.
  intros Hf Hp h l (Len & M & H). split; [|split].
  - unfold upd; cbn [beams]. rewrite length_alter. exact Len.
  - unfold has_mmax, upd; cbn [beams].
    apply Forall_alter; [exact M|]. intros o _ Ho. rewrite Hp. exact Ho.
  - intros l0 o0 L0 G0. destruct (decide (l = l0)) as [<-|Ne].
    + unfold upd in L0; cbn [beams] in L0.
      rewrite list_lookup_alter_eq in L0.
      destruct (beams h !! l) as [o|] eqn:L; [|discriminate L0].
      injection L0 as <-. rewrite Hf. apply (H l o L G0).
    + rewrite lookup_upd_ne in L0 by exact Ne. apply (H l0 o0 L0 G0).
Qed.

Lemma limits_at_alloc n G : stable_alloc (limits_at n G).
Proof. intros h t H. exact H. Qed.

Lemma limits_at_new n G h kw l f :
  limits_at n G h ->
  limits_at n G (mkHeap (beams h ++ [built kw l f]) (blms h)).
Proof.
  intros (Len & M & H). split; [|split].
  - cbn [beams]. rewrite length_app. lia.
  - unfold has_mmax; cbn [beams]. apply Forall_app. split; [exact M|].
    constructor; [|constructor].
    unfold built. destruct (Kw.ghost kw); reflexivity.
  - intros l0 o0 L0 G0. cbn [beams] in L0.
    apply lookup_app_Some in L0 as [L0|[_ L0]]; [apply (H l0 o0 L0 G0)|].
    apply list_lookup_singleton_Some in L0 as [_ <-].
    apply mmax_le_lmax_built.
Qed.

Lemma limits_at_upd_limit n G h self o x lm (f : Beam -> Beam) :
  limits_at n G h -> beams h !! self = Some o ->
  __lmax (f o) = Some lm -> x <= lm ->
  limits_at n G (upd (upd h self f) self (store___mmax (Some x))).
Proof.
  intros (Len & M & H) L Lm Hx. split; [|split].
  - unfold upd; cbn [beams]. rewrite !length_alter. exact Len.
  - unfold has_mmax, upd; cbn [beams]. rewrite list_alter_alter_eq.
    apply Forall_alter; [exact M|]. intros ? _ _. reflexivity.
  - intros l0 o0 L0 G0. destruct (decide (self = l0)) as [<-|Ne].
    + rewrite (lookup_upd_eq _ _ _ (f o)) in L0
        by (apply lookup_upd_eq, L).
      injection L0 as <-.
      apply (mmax_le_lmax_store_mmax _ _ lm Lm Hx).
    + rewrite !lookup_upd_ne in L0 by exact Ne. apply (H l0 o0 L0 G0).
Qed.

Lemma limits_at_set_mmax n G l m :
  keeps (limits_at n G) (fun _ => True) (set_mmax l m).
Proof.
  intros h H. split; [|intros; exact Logic.I].
  destruct (beams h !! l) as [o|] eqn:L.
  - destruct (__lmax o) as [lm|] eqn:Lm.
    + rewrite (set_mmax_run _ _ _ _ _ L Lm). cbn [snd].
      assert (E : upd h l (fun o => o) = h).
      { destruct h as [bs bl]. unfold upd; cbn [beams blms]. f_equal.
        apply list_eq. intros i. destruct (decide (l = i)) as [<-|Ne].
        - rewrite list_lookup_alter_eq. destruct (bs !! l); reflexivity.
        - apply list_lookup_alter_ne, Ne. }
      rewrite <- E at 1.
      apply (limits_at_upd_limit n G h l o _ lm (fun o => o) H L Lm).
      destruct m; lia.
    + unfold set_mmax.
      rewrite (bind_err _ _ _ _ _ (getattr_absent __lmax _ _ _ L Lm)).
      exact H.
  - unfold set_mmax, get_lmax. rewrite ?bind_assoc.
    rewrite (bind_err _ _ _ _ _ (deref_fail _ _ L)). exact H.
Qed.

(** [reuse_blm] reads the partner's [lmax], assigns it, reads the
    partner's [mmax] and assigns it: the target is back within its limit
    when the second assignment is done, and the second read cannot fail
    once the first has succeeded. *)
Lemma limits_at_relimit n G self partner (k : M unit) :
  keeps (limits_at n G) (fun _ => True) k ->
  keeps (limits_at n G) (fun _ => True)
    (l <- get_lmax partner ;;
     set_lmax self (Some l) ;;
     m <- get_mmax partner ;;
     set_mmax self (Some m) ;;
     k).
Proof.
  intros Hk h H. split; [|intros; exact Logic.I].
  pose proof H as (Len & M & Hg).
  destruct (beams h !! partner) as [op|] eqn:Lp.
  2:{ unfold get_lmax. rewrite ?bind_assoc.
      rewrite (bind_err _ _ _ _ _ (deref_fail _ _ Lp)). exact H. }
  destruct (__lmax op) as [l|] eqn:Ll.
  2:{ rewrite (bind_err _ _ _ _ _ (getattr_absent __lmax _ _ _ Lp Ll)).
      exact H. }
  rewrite (bind_ok _ _ _ _ _ (getattr_lmax_run _ _ _ _ Lp Ll)).
  destruct (beams h !! self) as [o|] eqn:L.
  2:{ unfold set_lmax, update. rewrite ?bind_assoc.
      rewrite (bind_err _ _ _ _ _ (deref_fail _ _ L)). exact H. }
  rewrite (bind_ok _ _ _ _ _ (set_lmax_run _ _ _ _ L)).
  assert (exists mp, __mmax op = Some mp) as [mp Hm].
  { eapply Forall_lookup_1 in M; [|exact Lp]. cbn beta in M.
    unfold present in M. destruct (__mmax op) as [mp|]; [eauto | discriminate M]. }
  set (f := store___lmax (Some (Z.max l 0))).
  assert (exists op', beams (upd h self f) !! partner = Some op' /\
                      __mmax op' = Some mp) as (op' & Lp' & Hm').
  { destruct (decide (self = partner)) as [<-|Ne].
    - exists (f o). split; [apply lookup_upd_eq, L|].
      assert (op = o) as <- by congruence. destruct op; exact Hm.
    - exists op. split; [rewrite lookup_upd_ne by exact Ne; exact Lp | exact Hm]. }
  rewrite (bind_ok _ _ _ _ _ (getattr_mmax_run _ _ _ _ Lp' Hm')).
  rewrite (bind_ok _ _ _ _ _
             (set_mmax_run _ _ (f o) (Z.max l 0) (Some mp)
                (lookup_upd_eq _ _ f _ L) eq_refl)).
  apply Hk.
  apply (limits_at_upd_limit n G h self o _ (Z.max l 0) f H L eq_refl). lia.
Qed.

Ltac limits_at_side :=
  first
    [ exact Logic.I
    | apply limits_at_alloc
    | apply limits_at_set_mmax
    | apply limits_at_new; assumption
    | apply limits_at_stable; intros ?; reflexivity ].
Ltac limits_at_keeps L := apply L; intros; limits_at_side.

Lemma limits_at_reuse_blm n G self partner :
  keeps (limits_at n G) (fun _ => True) (reuse_blm self partner).
Proof.
  destruct partner as [p|]; [|apply keeps_raise; exact Logic.I].
  unfold reuse_blm.
  kbind; [limits_at_keeps keeps_get_ghost|].
  kbind; [destruct a; [limits_at_keeps keeps_get_ghost | apply keeps_ret]|].
  kbind.
  { destruct a0; [|apply keeps_ret].
    kbind; [limits_at_keeps keeps_get_ghost_idx
           | limits_at_keeps keeps_set_ghost_idx]. }
  kbind; [limits_at_keeps keeps_get_blm|].
  kbind; [limits_at_keeps keeps_set_blm|].
  kbind; [limits_at_keeps keeps_deref|].
  kbind; [limits_at_keeps keeps_update|].
  apply (limits_at_relimit n G self p).
  kbind; [limits_at_keeps keeps_deref | limits_at_keeps keeps_update].
Qed.

Lemma limits_at_run n G c :
  is_lmax_assignment c = false ->
  keeps (limits_at n G) (fun _ => True) (run c).
Proof.
  intros Hc. destruct c; cbn [run]; try discriminate Hc.
  - kbind; [limits_at_keeps keeps_Beam_new | apply keeps_ret].
  - limits_at_keeps keeps_set_dead.
  - apply limits_at_set_mmax.
  - limits_at_keeps keeps_set_fwhm.
  - limits_at_keeps keeps_set_ghost_count.
  - limits_at_keeps keeps_set_ghost_idx.
  - limits_at_keeps keeps_update.
  - limits_at_keeps keeps_update.
  - kbind; [limits_at_keeps keeps_get_blm | apply keeps_ret].
  - limits_at_keeps keeps_set_blm.
  - limits_at_keeps keeps_del_blm.
  - limits_at_keeps keeps_gen_gaussian_blm.
  - limits_at_keeps keeps_load_blm.
  - limits_at_keeps keeps_create_ghost.
  - apply limits_at_reuse_blm.
  - limits_at_keeps keeps_delete_blm.
Qed.

Lemma limits_at_everywhere h :
  all_mmax_le_lmax h <-> limits_at 0 (fun _ => True) h.
Proof.
  split.
  - intros A. split; [lia|]. split.
    + unfold has_mmax. eapply Forall_impl; [exact A|].
      intros o Ho. cbn beta in Ho.
      destruct (mmax_le_lmax_inv _ Ho) as (m & _ & Hm & _).
      destruct o; cbn in *. subst. reflexivity.
    + intros l o L _. eapply Forall_lookup_1 in A; [exact A | exact L].
  - intros (_ & _ & H). apply Forall_lookup_2. intros l o L.
    apply (H l o L Logic.I).
Qed.

(** What an assignment to [lmax] leaves on the beam. *)
Lemma mmax_le_lmax_store_lmax o m n :
  __mmax o = Some m ->
  __mmax (store___lmax (Some n) o) = Some m /\
  __lmax (store___lmax (Some n) o) = Some n /\
  mmax_le_lmax (store___lmax (Some n) o) = (m <=? n).
Proof.
  intros Hm. destruct o; cbn in *. subst.
  unfold mmax_le_lmax; cbn. repeat split.
Qed.

(** C2, as the code has it.  In a store where every beam has an [mmax],
    as in every store the class builds, every call other than an
    assignment to [lmax] keeps [mmax <= lmax] on each beam that has it,
    whatever the state of the other beams and whatever the outcome of
    the call; a beam the call adds has it; so it is kept on the whole
    store, where every beam still has an [mmax], and the constructor
    returns a beam with [mmax <= lmax].  An assignment [lmax = x] stores [max x 0], and
    [lmax = None] the limit derived from the width; either leaves [mmax]
    and every other beam as they were, so the beam has [mmax <= lmax]
    afterwards exactly when its [mmax] is not above the new [lmax]. *)
Theorem mmax_le_lmax_kept c h :
  has_mmax h ->
  (is_lmax_assignment c = false ->
   (forall l o,
       beams h !! l = Some o -> mmax_le_lmax o = true ->
       exists o', beams (snd (run c h)) !! l = Some o' /\
                  mmax_le_lmax o' = true) /\
   (forall l o',
       beams (snd (run c h)) !! l = Some o' -> beams h !! l = None ->
       mmax_le_lmax o' = true) /\
   (all_mmax_le_lmax h -> all_mmax_le_lmax (snd (run c h))) /\
   has_mmax (snd (run c h))) /\
  (forall kw self h',
      Beam_new kw h = (inr self, h') ->
      exists o, beams h' !! self = Some o /\ mmax_le_lmax o = true) /\
  (forall self o m x,
      beams h !! self = Some o -> __mmax o = Some m ->
      let h' := upd h self (store___lmax (Some (Z.max x 0))) in
      set_lmax self (Some x) h = (inr tt, h') /\
      (forall l, l <> self -> beams h' !! l = beams h !! l) /\
      exists o',
        beams h' !! self = Some o' /\
        __lmax o' = Some (Z.max x 0) /\ __mmax o' = Some m /\
        mmax_le_lmax o' = (m <=? Z.max x 0)) /\
  (forall self o m f n,
      beams h !! self = Some o -> __mmax o = Some m ->
      __fwhm o = Some f ->
      int_of_float (2 * np_pi / np_radians (f / 60) * f1_4) = inr n ->
      let h' := upd h self (store___lmax (Some n)) in
      set_lmax self None h = (inr tt, h') /\
      (forall l, l <> self -> beams h' !! l = beams h !! l) /\
      exists o',
        beams h' !! self = Some o' /\
        __lmax o' = Some n /\ __mmax o' = Some m /\
        mmax_le_lmax o' = (m <=? n)).
Proof.
  intros M.
  split; [|split; [|split]].
  - intros Hc.
    set (G := fun l : nat => forall o, beams h !! l = Some o -> mmax_le_lmax o = true).
    assert (I0 : limits_at (length (beams h)) G h).
    { split; [reflexivity|]. split; [exact M|].
      intros l o L Gl. apply (Gl o L). }
    destruct (limits_at_run (length (beams h)) G c Hc h I0)
      as [(Len & M1 & H1) _].
    split; [|split; [|split; [|exact M1]]].
    + intros l o L Ho.
      assert (exists o', beams (snd (run c h)) !! l = Some o') as [o' L'].
      { apply lookup_lt_is_Some. apply lookup_lt_Some in L. lia. }
      exists o'. split; [exact L'|]. apply (H1 l o' L').
      intros o0 L0. congruence.
    + intros l o' L' N. apply (H1 l o' L'). intros o0 L0. congruence.
    + intros A. unfold all_mmax_le_lmax. apply Forall_lookup_2.
      intros l o' L'. apply (H1 l o' L'). intros o0 L0.
      eapply Forall_lookup_1 in A; [exact A | exact L0].
  - intros kw self h' N.
    destruct (Beam_new_cases h kw) as [(l & f & _ & _ & R)|[e R]];
      rewrite R in N; [|discriminate].
    injection N as <- <-. exists (built kw l f). split.
    + apply lookup_snoc.
    + apply mmax_le_lmax_built.
  - intros self o m x L Hm h'.
    destruct (mmax_le_lmax_store_lmax o m (Z.max x 0) Hm) as (A & B & C).
    split; [apply (set_lmax_run _ _ _ _ L)|].
    split; [intros l Ne; apply lookup_upd_ne; congruence|].
    eexists. split; [apply lookup_upd_eq, L|]. repeat split; assumption.
  - intros self o m f n L Hm F N h'.
    destruct (mmax_le_lmax_store_lmax o m n Hm) as (A & B & C).
    split; [apply (set_lmax_None_run _ _ _ _ _ L F N)|].
    split; [intros l Ne; apply lookup_upd_ne; congruence|].
    eexists. split; [apply lookup_upd_eq, L|]. repeat split; assumption.
Qed.

(** ** The dead flag *)

Lemma store___dead_idem v o :
  store___dead (Some v) (store___dead (Some v) o) = store___dead (Some v) o.
Proof. reflexivity. Qed.

Lemma for_each_set_dead d v gs : forall h,
  (forall g, g ∈ gs -> exists og, beams h !! g = Some og /\ __ghosts og = None) ->
  for_each gs (fun ghost => set_dead_rec (S d) ghost v) h
  = (inr tt, foldl (fun h g => upd h g (store___dead (Some v))) h gs).
Proof.
  induction gs as [|g gs IH]; intros h Hg; [reflexivity|].
  cbn [for_each foldl].
  destruct (Hg g) as (og & Lg & Gg); [left|].
  rewrite (bind_ok _ _ _ _ _ (set_dead_rec_leaf d _ _ _ v Lg Gg)).
  apply IH. intros g' Hg'.
  destruct (Hg g') as (og' & Lg' & Gg'); [right; exact Hg'|].
  destruct (decide (g = g')) as [<-|Ne].
  - exists (store___dead (Some v) og). split; [apply lookup_upd_eq, Lg|].
    assert (og' = og) as -> by congruence. exact Gg'.
  - exists og'. split; [rewrite lookup_upd_ne by exact Ne; exact Lg' | exact Gg'].
Qed.

Lemma lookup_foldl_upd f gs l : forall h,
  (forall o, f (f o) = f o) ->
  beams (foldl (fun h g => upd h g f) h gs) !! l
  = if bool_decide (l ∈ gs) then f <$> beams h !! l else beams h !! l.
Proof.
  intros h Hf. revert h. induction gs as [|g gs IH]; intros h; cbn [foldl].
  - rewrite bool_decide_eq_false_2 by apply not_elem_of_nil. reflexivity.
  - rewrite IH. destruct (decide (g = l)) as [->|Ne].
    + rewrite (bool_decide_eq_true_2 (l ∈ l :: gs)) by left.
      unfold upd; cbn [beams]. rewrite list_lookup_alter_eq.
      destruct (beams h !! l) as [o|]; cbn; [|destruct (bool_decide _); reflexivity].
      rewrite Hf. destruct (bool_decide _); reflexivity.
    + rewrite lookup_upd_ne by exact Ne.
      destruct (decide (l ∈ gs)) as [Hl|Hl].
      * rewrite !bool_decide_eq_true_2; [reflexivity | right; exact Hl | exact Hl].
      * rewrite !bool_decide_eq_false_2; [reflexivity | | exact Hl].
        intros [->|?]%elem_of_cons; [congruence | contradiction].
Qed.

Lemma blms_foldl_upd f gs : forall h,
  blms (foldl (fun h g => upd h g f) h gs) = blms h.
Proof.
  induction gs as [|g gs IH]; intros h; [reflexivity|].
  cbn [foldl]. rewrite IH. reflexivity.
Qed.

Lemma try_ok {A} (body handler : M A) c h a h' :
  body h = (inr a, h') -> try_except body c handler h = (inr a, h').
Proof. intros E. unfold try_except. rewrite E. reflexivity. Qed.

Lemma set_dead_primary h self o gs v :
  beams h !! self = Some o -> owns h o gs ->
  set_dead self v h
  = (inr tt,
     foldl (fun h g => upd h g (store___dead (Some v)))
           (upd h self (store___dead (Some v))) gs).
Proof.
  intros L (_ & G & Hg). unfold set_dead. rewrite recursion_limit_eq.
  cbn [set_dead_rec].
  rewrite (bind_ok _ _ _ _ _ (update_run _ _ _ _ L)).
  apply try_ok.
  rewrite (bind_ok _ _ _ _ _
             (getattr_ghosts_run _ _ _ gs
                (lookup_upd_eq _ _ (store___dead (Some v)) _ L) G)).
  apply for_each_set_dead. intros g Hin.
  destruct (Hg g Hin) as (og & Lg & _ & Gg).
  exists og. split; [|exact Gg].
  rewrite lookup_upd_ne; [exact Lg|].
  intros ->. congruence.
Qed.

(** C3. Assigning [dead = v] on a primary that owns the ghosts [gs] stores
    [v] on the primary and on every ghost of [gs] and changes nothing
    else in the store; on a ghost it stores [v] on that ghost and leaves
    every other object, its siblings and its primary included, as it
    was. *)
Theorem dead_setter_cascade h self o v :
  beams h !! self = Some o ->
  (forall gs,
      owns h o gs ->
      exists h',
        set_dead self v h = (inr tt, h') /\
        blms h' = blms h /\
        (forall l,
            beams h' !! l
            = if bool_decide (l = self \/ l ∈ gs)
              then store___dead (Some v) <$> beams h !! l
              else beams h !! l) /\
        (forall l, l = self \/ l ∈ gs -> get_dead l h' = (inr v, h'))) /\
  (__ghost o = true -> __ghosts o = None ->
   let h' := upd h self (store___dead (Some v)) in
   set_dead self v h = (inr tt, h') /\
   get_dead self h' = (inr v, h') /\
   forall l, l <> self -> beams h' !! l = beams h !! l).
Proof.
  intros L. split.
  - intros gs O. pose proof O as (_ & G & Hg).
    eexists. split; [apply (set_dead_primary _ _ _ _ _ L O)|].
    assert (Hl : forall l,
      beams (foldl (fun h g => upd h g (store___dead (Some v)))
                   (upd h self (store___dead (Some v))) gs) !! l
      = if bool_decide (l = self \/ l ∈ gs)
        then store___dead (Some v) <$> beams h !! l
        else beams h !! l).
    { intros l. rewrite lookup_foldl_upd by apply store___dead_idem.
      destruct (decide (l = self)) as [->|Ne].
      - rewrite (bool_decide_eq_true_2 (self = self \/ _)) by (left; reflexivity).
        rewrite (lookup_upd_eq _ _ _ _ L), L.
        destruct (bool_decide _); reflexivity.
      - rewrite lookup_upd_ne by congruence.
        destruct (decide (l ∈ gs)) as [Hin|Hin].
        + rewrite !bool_decide_eq_true_2; [reflexivity | right; exact Hin | exact Hin].
        + rewrite !bool_decide_eq_false_2; [reflexivity | | exact Hin].
          intros [?|?]; contradiction. }
    split; [|split; [exact Hl|]].
    + rewrite blms_foldl_upd. reflexivity.
    + intros l Hin.
      assert (exists ol, beams h !! l = Some ol) as [ol Ll].
      { destruct Hin as [->|Hin]; [eauto|].
        destruct (Hg l Hin) as (og & Lg & _); eauto. }
      apply (getattr_dead_run _ _ (store___dead (Some v) ol)); [|reflexivity].
      rewrite Hl, bool_decide_eq_true_2 by exact Hin. rewrite Ll. reflexivity.
  - intros _ G h'. split; [apply (set_dead_leaf _ _ _ _ L G)|]. split.
    + apply (getattr_dead_run _ _ (store___dead (Some v) o)); [|reflexivity].
      apply lookup_upd_eq, L.
    + intros l Ne. apply lookup_upd_ne. congruence.
Qed.

(** ** Spawning ghosts *)

Lemma present_inv {A} (x : option A) : present x = true -> exists v, x = Some v.
Proof. destruct x; [eauto | discriminate]. Qed.

Lemma is_primary_inv o :
  is_primary o = true ->
  __ghost o = false /\
  exists d l m f gs c,
    __dead o = Some d /\ __lmax o = Some l /\ __mmax o = Some m /\
    __fwhm o = Some f /\ __ghosts o = Some gs /\ __ghost_count o = Some c.
Proof.
  unfold is_primary, initialised, present.
  destruct (__ghost o); [rewrite andb_false_r; discriminate|].
  destruct (__dead o) as [d|]; [|discriminate].
  destruct (__lmax o) as [l|]; [|discriminate].
  destruct (__mmax o) as [m|]; [|discriminate].
  destruct (__fwhm o) as [f|]; [|discriminate].
  destruct (__ghosts o) as [gs|]; [|discriminate].
  destruct (__ghost_count o) as [c|]; [|discriminate].
  intros _. split; [reflexivity|]. exists d, l, m, f, gs, c. repeat split.
Qed.

(** One call of [create_ghost] on a primary. *)
Lemma create_ghost_run h self o tag kwargs gs c :
  beams h !! self = Some o -> is_primary o = true ->
  __ghosts o = Some gs -> __ghost_count o = Some c ->
  spawn_accepted o kwargs = true ->
  exists h' g,
    create_ghost self tag kwargs h = (inr tt, h') /\
    beams h'
    = alter (store___ghosts (Some (gs ++ [length (beams h)])))
        self
        (alter (store___ghost_count (Some (c + 1))) self (beams h))
      ++ [g] /\
    blms h' = blms h /\
    __ghost g = true /\ __ghost_idx g = Some c /\ is_ghost g = true.
Proof.
  intros L P G C A.
  destruct (is_primary_inv _ P) as (Gh & d & l & m & f & gs' & c' & D & Lm & M & F & G' & C').
  unfold spawn_accepted in A. rewrite Lm, F in A. unfold init_accepts in A.
  cbn in A.
  destruct (default (Some l) (Ov.lmax kwargs)) as [l'|] eqn:L'; [|discriminate].
  destruct (init_fwhm (default (Some f) (Ov.fwhm kwargs)) (Z.max l' 0))
    as [e|f'] eqn:F'; [discriminate|].
  unfold create_ghost.
  step get_ghost_run. rewrite Gh.
  step deref_run.
  step getattr_fwhm_run. step getattr_dead_run.
  step getattr_lmax_run. step getattr_mmax_run.
  set (kw := ghost_opts o _ f d l m kwargs).
  rewrite ?bind_assoc.
  rewrite (bind_ok _ _ _ _ _ (Beam_new_run h kw l' f' L' F')).
  set (g0 := built kw l' f').
  rewrite (bind_ok _ _ _ c _) by (apply (getattr_ghost_count_run _ _ o); [apply lookup_old, L | exact C]).
  rewrite (bind_ok _ _ _ tt _)
    by (apply (set_ghost_idx_run _ _ g0); [apply lookup_snoc | reflexivity]).
  rewrite upd_snoc.
  rewrite (bind_ok _ _ _ c _) by (apply (getattr_ghost_count_run _ _ o); [apply lookup_old, L | exact C]).
  rewrite (bind_ok _ _ _ tt _)
    by (apply (set_ghost_count_run _ _ o); [apply lookup_old, L | exact Gh]).
  rewrite (bind_ok _ _ _ gs _)
    by (apply (getattr_ghosts_run _ _ (store___ghost_count (Some (c + 1)) o));
        [apply lookup_upd_eq, lookup_old, L | exact G]).
  rewrite (update_run _ _ _ (store___ghost_count (Some (c + 1)) o))
    by (apply lookup_upd_eq, lookup_old, L).
  eexists _, (store___ghost_idx (Some c) g0).
  split; [reflexivity|].
  assert (Hlt : (self < length (beams h))%nat) by (apply lookup_lt_is_Some; eauto).
  split; [|repeat split].
  unfold upd; cbn [beams].
  rewrite !alter_app_l by (rewrite ?length_alter; exact Hlt).
  reflexivity.
Qed.

Lemma is_primary_registry o gs c :
  is_primary o = true ->
  is_primary (store___ghosts (Some gs) (store___ghost_count (Some c) o)) = true.
Proof.
  destruct o as [? ? ? ? ? ? ? ? ? ? ? ? ? ? ? ? gh dd lm mm fw ghs gc gi bl].
  unfold is_primary, initialised, present; cbn.
  destruct gh, dd, lm, mm, fw, ghs, gc, gi; intros P;
    try discriminate P; reflexivity.
Qed.

(** C4. Any number of successive [create_ghost] calls on a primary, with
    keywords the constructor accepts: the call number [i] (from 0)
    allocates a new ghost whose [ghost_idx] is the count before that call,
    [c + i]; the new ghosts are appended to [ghosts] in order; the count
    grows by one per call; no other beam changes. *)
Theorem create_ghost_registers calls : forall h self o gs c,
  beams h !! self = Some o -> is_primary o = true ->
  __ghosts o = Some gs -> __ghost_count o = Some c ->
  Forall (fun call => spawn_accepted o (snd call) = true) calls ->
  exists h',
    spawn_all self calls h = (inr tt, h') /\
    length (beams h') = (length (beams h) + length calls)%nat /\
    (exists o',
        beams h' !! self = Some o' /\ is_primary o' = true /\
        __ghosts o' = Some (gs ++ seq (length (beams h)) (length calls)) /\
        __ghost_count o' = Some (c + Z.of_nat (length calls))) /\
    (forall i, (i < length calls)%nat ->
        exists g,
          beams h' !! (length (beams h) + i)%nat = Some g /\
          is_ghost g = true /\ __ghost_idx g = Some (c + Z.of_nat i)) /\
    (forall l, l <> self -> (l < length (beams h))%nat ->
        beams h' !! l = beams h !! l).
Proof.
  induction calls as [|[tag kwargs] calls IH]; intros h self o gs c L P G C A.
  - exists h. cbn. rewrite Nat.add_0_r, app_nil_r, Z.add_0_r.
    repeat split; [eauto | intros; lia].
  - apply Forall_cons in A as [A1 A].
    destruct (create_ghost_run h self o tag kwargs gs c L P G C A1)
      as (h1 & g & R & B & _ & Gg & Ig & Ag).
    set (o1 := store___ghosts (Some (gs ++ [length (beams h)]))
                 (store___ghost_count (Some (c + 1)) o)).
    assert (Hlt : (self < length (beams h))%nat)
      by (apply lookup_lt_is_Some; eauto).
    assert (L1 : beams h1 !! self = Some o1).
    { rewrite B. apply lookup_old.
      rewrite list_lookup_alter_eq, list_lookup_alter_eq, L. reflexivity. }
    assert (Len1 : length (beams h1) = S (length (beams h))).
    { rewrite B, length_app, !length_alter. cbn. lia. }
    destruct (IH h1 self o1 (gs ++ [length (beams h)]) (c + 1) L1
                (is_primary_registry _ _ _ P) eq_refl eq_refl A)
      as (h' & R' & Len' & (o' & Lo' & Po' & Go' & Co') & New & Old).
    exists h'. unfold spawn_all in *. cbn [for_each fst snd].
    rewrite (bind_ok _ _ _ _ _ R). split; [exact R'|].
    split; [rewrite Len', Len1; cbn; lia|].
    split; [|split].
    + exists o'. repeat split; try assumption.
      * rewrite Go', Len1, <- app_assoc. reflexivity.
      * rewrite Co'. f_equal. cbn [length]. lia.
    + intros i Hi. destruct i as [|i].
      * exists g. rewrite Nat.add_0_r, Z.add_0_r.
        split; [|split; assumption].
        rewrite Old by lia. rewrite B.
        apply list_lookup_middle. rewrite !length_alter. reflexivity.
      * destruct (New i) as (g' & Lg' & Ag' & Ig'); [cbn in Hi; lia|].
        exists g'. split; [|split; [exact Ag'|]].
        -- rewrite <- Lg'. f_equal. lia.
        -- rewrite Ig'. f_equal. lia.
    + intros l Ne Hl. rewrite Old by lia. rewrite B.
      rewrite lookup_app_l by (rewrite !length_alter; exact Hl).
      rewrite !list_lookup_alter_ne by congruence. reflexivity.
Qed.

(** Without keywords the constructor always accepts. *)
Lemma spawn_accepted_none o : is_primary o = true -> spawn_accepted o Ov.none = true.
Proof.
  intros P. destruct (is_primary_inv _ P) as (_ & d & l & m & f & gs & c & _ & L & _ & F & _).
  unfold spawn_accepted. rewrite L, F. reflexivity.
Qed.

(** ** Deleting coefficients that are not there *)

Lemma is_ghost_inv o :
  is_ghost o = true ->
  __ghost o = true /\ __ghosts o = None /\ __ghost_count o = None.
Proof.
  unfold is_ghost, initialised, present. destruct (__ghost o).
  - destruct (__ghosts o), (__ghost_count o); rewrite ?andb_false_r;
      try discriminate. auto.
  - rewrite andb_false_r. discriminate.
Qed.

Lemma del_blm_absent h l o :
  beams h !! l = Some o -> __blm o = None ->
  try_except (del_blm l) AttributeError (ret tt) h = (inr tt, h).
Proof.
  intros L B. unfold try_except, del_blm.
  rewrite (bind_ok _ _ _ _ _ (deref_run _ _ _ L)), B. reflexivity.
Qed.

Lemma del_blm_present h l o r :
  beams h !! l = Some o -> __blm o = Some r ->
  try_except (del_blm l) AttributeError (ret tt) h
  = (inr tt, upd h l (store___blm None)).
Proof.
  intros L B. unfold try_except, del_blm.
  rewrite (bind_ok _ _ _ _ _ (deref_run _ _ _ L)), B. cbn [attr].
  rewrite (bind_ok _ _ h r h) by reflexivity.
  rewrite (update_run _ _ _ _ L). reflexivity.
Qed.

(** C5 on a ghost. [delete_blm] on a ghost without cached coefficients
    raises [AttributeError]: after the guarded [del], line 492 reads
    [self.ghosts], which a ghost does not have. *)
Theorem delete_blm_on_ghost_raises h self o del_ghosts_blm :
  beams h !! self = Some o -> is_ghost o = true -> __blm o = None ->
  delete_blm self del_ghosts_blm h = (inl (Foreign AttributeError), h).
Proof.
  intros L G B. destruct (is_ghost_inv _ G) as (_ & Gs & _).
  unfold delete_blm.
  rewrite (bind_ok _ _ _ _ _ (del_blm_absent _ _ _ L B)).
  unfold get_ghosts. rewrite ?bind_assoc.
  rewrite (bind_ok _ _ _ _ _ (deref_run _ _ _ L)), Gs. reflexivity.
Qed.

(** On a primary the same call returns and leaves the primary as it was;
    with [del_ghosts_blm] it clears the caches of the ghosts. *)
Lemma for_each_del_blm gs : forall h,
  (forall g, g ∈ gs -> is_Some (beams h !! g)) ->
  exists h',
    for_each gs (fun ghost => try_except (del_blm ghost) AttributeError (ret tt)) h
    = (inr tt, h') /\
    forall l, beams h' !! l
              = if bool_decide (l ∈ gs) then store___blm None <$> beams h !! l
                else beams h !! l.
Proof.
  induction gs as [|g gs IH]; intros h Hg.
  - exists h. split; [reflexivity|]. intros l.
    rewrite bool_decide_eq_false_2 by apply not_elem_of_nil. reflexivity.
  - destruct (Hg g) as [og Lg]; [left|]. cbn [for_each].
    assert (exists h1,
      try_except (del_blm g) AttributeError (ret tt) h = (inr tt, h1) /\
      forall l, beams h1 !! l
                = if decide (g = l) then store___blm None <$> beams h !! l
                  else beams h !! l) as (h1 & R1 & L1).
    { destruct (__blm og) as [r|] eqn:B.
      - eexists. split; [apply (del_blm_present _ _ _ _ Lg B)|].
        intros l. unfold upd; cbn [beams]. destruct (decide (g = l)) as [<-|Ne].
        + apply list_lookup_alter_eq.
        + apply list_lookup_alter_ne, Ne.
      - exists h. split; [apply (del_blm_absent _ _ _ Lg B)|].
        intros l. destruct (decide (g = l)) as [<-|Ne]; [|reflexivity].
        rewrite Lg. cbn. f_equal. destruct og; cbn in *. subst. reflexivity. }
    destruct (IH h1) as (h' & R' & L').
    { intros g' Hg'. rewrite L1. destruct (Hg g') as [og' Lg']; [right; exact Hg'|].
      rewrite Lg'. destruct (decide _); eauto. }
    exists h'. rewrite (bind_ok _ _ _ _ _ R1). split; [exact R'|].
    intros l. rewrite L', L1.
    destruct (decide (g = l)) as [<-|Ne].
    + rewrite (bool_decide_eq_true_2 (g ∈ g :: gs)) by left.
      destruct (beams h !! g); cbn; destruct (bool_decide _); reflexivity.
    + destruct (decide (l ∈ gs)) as [Hl|Hl].
      * rewrite !bool_decide_eq_true_2; [reflexivity | right; exact Hl | exact Hl].
      * rewrite !bool_decide_eq_false_2; [reflexivity | | exact Hl].
        intros [->|?]%elem_of_cons; [congruence | contradiction].
Qed.

Lemma delete_blm_on_primary h self o gs del_ghosts_blm :
  beams h !! self = Some o -> owns h o gs -> __blm o = None ->
  exists h',
    delete_blm self del_ghosts_blm h = (inr tt, h') /\
    beams h' !! self = Some o.
Proof.
  intros L (_ & G & Hg) B. unfold delete_blm.
  rewrite (bind_ok _ _ _ _ _ (del_blm_absent _ _ _ L B)).
  rewrite (bind_ok _ _ _ _ _ (getattr_ghosts_run _ _ _ _ L G)).
  destruct (any_beam gs && del_ghosts_blm); [|eauto].
  destruct (for_each_del_blm gs h) as (h' & R & L').
  { intros g Hin. destruct (Hg g Hin) as (og & Lg & _). eauto. }
  exists h'. split; [exact R|]. rewrite L', L.
  rewrite bool_decide_eq_false_2; [reflexivity|].
  intros Hin. destruct (Hg self Hin) as (og & Lg & _ & Gg). congruence.
Qed.

(** ** Loading a healpy file *)

Lemma blm_path_fits_eq filename : blm_path_fits filename = blm_path filename.
Proof.
  unfold blm_path_fits, blm_path. destruct (splitext filename) as [pname ext].
  destruct (truthy_str ext) eqn:T; [rewrite T|]; reflexivity.
Qed.

Lemma bind_inv {A B} (m : M A) (k : A -> M B) h b h' :
  bind m k h = (inr b, h') ->
  exists a h1, m h = (inr a, h1) /\ k a h1 = (inr b, h').
Proof.
  unfold bind. destruct (m h) as [[e|a] h1]; [discriminate|]. eauto.
Qed.

Lemma call_run {A} (r : outcome A) a h : r = inr a -> call r h = (inr a, h).
Proof. intros ->. reflexivity. Qed.

Lemma call_inv {A} (r : outcome A) a h h' :
  call r h = (inr a, h') -> r = inr a /\ h' = h.
Proof. destruct r; cbn; [discriminate|]. intros [= -> ->]. auto. Qed.







Lemma bind_exn_at {A B} (m : M A) (k : A -> M B) (E : exn -> Prop) h :
  (forall e, fst (m h) = inl e -> E e) ->
  (forall a, keeps (fun _ => True) E (k a)) ->
  forall e, fst (bind m k h) = inl e -> E e.
Proof.
  intros Hm Hk e. unfold bind. destruct (m h) as [[e'|a] h1]; cbn in *.
  - intros [= <-]. apply Hm. reflexivity.
  - apply (Hk a h1 Logic.I).
Qed.

(** Reading a file with three channels stops at line 337 exactly when the
    three limits differ. *)
Lemma read_fits_three blm_file h a1 m1 z b1 a2 m2 a3 m3 :
  fits_len blm_file = inr 4 ->
  read_alm blm_file 1 = inr (a1, m1) ->
  np_zeros (Alm_getsize (Alm_getlmax (np_size a1) m1)) = inr z ->
  np_set_prefix z (np_size a1) a1 = inr b1 ->
  read_alm blm_file 2 = inr (a2, m2) ->
  read_alm blm_file 3 = inr (a3, m3) ->
  read_fits blm_file h
  = if bool_decide (m1 = m2) && bool_decide (m2 = m3) then
      (blmm2 <- call (np_set_prefix (np_zeros_like b1) (np_size a2) a2) ;;
       blmp2 <- call (np_set_prefix (np_zeros_like b1) (np_size a3) a3) ;;
       ret (Rank2 [b1; blmm2; blmp2], m1)) h
    else (inl mmax_mismatch, h).
Proof.
  intros F R1 HZ P R2 R3. unfold read_fits.
  rewrite (bind_ok _ _ _ _ _ (call_run _ _ h F)).
  rewrite (bind_ok _ _ _ _ _ (call_run _ _ h R1)).
  rewrite (bind_ok _ _ _ _ _ (call_run _ _ h HZ)).
  rewrite (bind_ok _ _ _ _ _ (call_run _ _ h P)).
  change (4 - 1 =? 3) with true. cbv iota.
  rewrite (bind_ok _ _ _ _ _ (call_run _ _ h R2)).
  rewrite (bind_ok _ _ _ _ _ (call_run _ _ h R3)).
  destruct (bool_decide (m1 = m2) && bool_decide (m2 = m3)); reflexivity.
Qed.

(** C9. [load_blm] on a healpy file with three channels, the first of
    which was read and expanded: the call ends with the error of line 337
    if and only if the three azimuthal limits are not all equal, and then
    the store, the [blm] cache included, is as before the call. *)
Theorem load_blm_mmax_mismatch
    h self filename kwargs a1 m1 z b1 a2 m2 a3 m3 :
  let blm_file := blm_path filename in
  np_load blm_file = inl IOError ->
  fits_len blm_file = inr 4 ->
  read_alm blm_file 1 = inr (a1, m1) ->
  np_zeros (Alm_getsize (Alm_getlmax (np_size a1) m1)) = inr z ->
  np_set_prefix z (np_size a1) a1 = inr b1 ->
  read_alm blm_file 2 = inr (a2, m2) ->
  read_alm blm_file 3 = inr (a3, m3) ->
  let r := load_blm self (Some filename) kwargs h in
  (fst r = inl mmax_mismatch <-> ~ (m1 = m2 /\ m2 = m3)) /\
  (~ (m1 = m2 /\ m2 = m3) -> snd r = h).
Proof.
  intros blm_file NL F R1 HZ P R2 R3 r.
  assert (Hr : r = bind (load_fits self blm_file)
                        (fun blm => store_loaded self blm kwargs) h).
  { unfold r, load_blm. cbn [bind ret]. unfold try_except at 1.
    fold blm_file. rewrite NL. cbn [call raise caught_by class_of class_eqb].
    rewrite blm_path_fits_eq. reflexivity. }
  pose proof (read_fits_three blm_file h _ _ _ _ _ _ _ _ F R1 HZ P R2 R3) as RF.
  destruct (bool_decide (m1 = m2) && bool_decide (m2 = m3)) eqn:D.
  - (* the limits agree *)
    apply andb_prop in D as [D1 D2].
    apply bool_decide_eq_true in D1, D2.
    assert (Q : forall e, fst r = inl e -> e <> mmax_mismatch).
    { rewrite Hr.
      apply (bind_exn_at _ _ (fun e => e <> mmax_mismatch)).
      - unfold load_fits.
        apply (bind_exn_at _ _ (fun e => e <> mmax_mismatch)).
        + rewrite RF. intros e0.
          assert (K : keeps (fun _ => True) (fun e => e <> mmax_mismatch)
                        (blmm2 <- call (np_set_prefix (np_zeros_like b1) (np_size a2) a2) ;;
                         blmp2 <- call (np_set_prefix (np_zeros_like b1) (np_size a3) a3) ;;
                         ret (Rank2 [b1; blmm2; blmp2], m1)))
            by keeps_auto.
          apply (K h Logic.I).
        + intros rr. kbind; [|apply keeps_ret].
          apply keeps_update_mmax; [discriminate|].
          intros l m. apply keeps_set_mmax; [discriminate|].
          intros x h0 l0 _. exact Logic.I.
      - intros blm. apply keeps_store_loaded; try discriminate.
        + intros h0 t _. exact Logic.I.
        + intros v h0 l0 _. exact Logic.I. }
    split; [|tauto]. split; [|tauto].
    intros Q'. exfalso. apply (Q _ Q'). reflexivity.
  - (* they differ *)
    assert (N : ~ (m1 = m2 /\ m2 = m3)).
    { intros [E1 E2]. apply andb_false_iff in D as [D|D];
        apply bool_decide_eq_false in D; contradiction. }
    assert (Rr : r = (inl mmax_mismatch, h)).
    { rewrite Hr. unfold load_fits. rewrite bind_assoc.
      rewrite (bind_err _ _ _ _ _ RF). reflexivity. }
    rewrite Rr. cbn [fst snd]. tauto.
Qed.


(** ** Limits are never negative *)

Lemma binary_round_aux_nonneg m e l :
  sf_nonneg (binary_round_aux prec emax false m e l).
Proof.
  unfold binary_round_aux.
  destruct (shr_fexp prec emax m e l) as [r1 e1].
  destruct (shr_fexp prec emax _ e1 loc_Exact) as [r2 e2].
  destruct (shr_m r2); cbn; [reflexivity | | exact Logic.I].
  destruct (e2 <=? emax - prec); reflexivity.
Qed.

Lemma binary_round_nonneg m e : sf_nonneg (binary_round prec emax false m e).
Proof.
  unfold binary_round. destruct (shl_align _ _ _).
  apply binary_round_aux_nonneg.
Qed.

Lemma binary_normalize_nonneg z e :
  0 <= z -> sf_nonneg (binary_normalize prec emax z e false).
Proof.
  destruct z; cbn; [reflexivity | intros _; apply binary_round_nonneg | lia].
Qed.

Lemma SFmul_nonneg x y :
  sf_nonneg x -> sf_nonneg y -> sf_nonneg (SFmul prec emax x y).
Proof.
  destruct x, y; cbn; intros; subst; cbn; try exact Logic.I; try reflexivity.
  apply binary_round_aux_nonneg.
Qed.

Lemma SFdiv_nonneg x y :
  sf_nonneg x -> sf_nonneg y -> sf_nonneg (SFdiv prec emax x y).
Proof.
  destruct x, y; cbn; intros; subst; cbn; try exact Logic.I; try reflexivity.
  destruct (SFdiv_core_binary _ _ _ _ _ _) as [[mz ez] lz].
  apply binary_round_aux_nonneg.
Qed.

Lemma mul_nonneg x y :
  float_nonneg x -> float_nonneg y -> float_nonneg (x * y)%float.
Proof. unfold float_nonneg. rewrite FloatAxioms.mul_spec. apply SFmul_nonneg. Qed.

Lemma div_nonneg x y :
  float_nonneg x -> float_nonneg y -> float_nonneg (x / y)%float.
Proof. unfold float_nonneg. rewrite FloatAxioms.div_spec. apply SFdiv_nonneg. Qed.

Lemma np_abs_float_nonneg x : float_nonneg (np_abs x).
Proof.
  unfold float_nonneg, np_abs. rewrite FloatAxioms.abs_spec.
  destruct (Prim2SF x); cbn; auto.
Qed.

Lemma of_uint63_nonneg n : float_nonneg (of_uint63 n).
Proof.
  unfold float_nonneg. rewrite FloatAxioms.of_uint63_spec.
  apply binary_normalize_nonneg. apply Uint63.to_Z_bounded.
Qed.

Lemma ldexp_nonneg f e : float_nonneg f -> float_nonneg (Z.ldexp f e).
Proof.
  unfold float_nonneg, Z.ldexp. rewrite FloatAxioms.ldshiftexp_spec.
  destruct (Prim2SF f); cbn; auto. intros ->. apply binary_round_nonneg.
Qed.

Lemma SF2Prim_nonneg x : sf_nonneg x -> float_nonneg (SF2Prim x).
Proof.
  destruct x as [s|s| |s m e]; cbn; intros H; subst; try reflexivity.
  apply ldexp_nonneg, of_uint63_nonneg.
Qed.

Lemma int_of_float_nonneg x n :
  float_nonneg x -> int_of_float x = inr n -> 0 <= n.
Proof.
  unfold float_nonneg, int_of_float.
  destruct (Prim2SF x) as [s|s| |s m e]; cbn; try discriminate.
  - intros _ [= <-]. lia.
  - intros -> [= <-]. apply Z.shiftl_nonneg. lia.
Qed.

Lemma float_of_int_nonneg l f :
  0 <= l -> float_of_int l = inr f -> float_nonneg f.
Proof.
  intros Hl. unfold float_of_int.
  pose proof (binary_normalize_nonneg l 0 Hl) as N.
  destruct (binary_normalize prec emax l 0 false) as [s|s| |s m e] eqn:B;
    try discriminate; intros [= <-]; exact (SF2Prim_nonneg _ N).
Qed.

Lemma derived_lmax_nonneg f n :
  float_nonneg f ->
  int_of_float (2 * np_pi / np_radians (f / 60) * f1_4) = inr n -> 0 <= n.
Proof.
  intros Hf. apply int_of_float_nonneg.
  unfold np_radians.
  repeat first [apply mul_nonneg | apply div_nonneg | exact Hf | reflexivity].
Qed.

Lemma init_fwhm_nonneg v l f :
  0 <= l -> init_fwhm v l = inr f -> float_nonneg f.
Proof.
  intros Hl. unfold init_fwhm. destruct v as [v|].
  - intros [= <-]. apply np_abs_float_nonneg.
  - destruct (truthy_int l); [|discriminate].
    destruct (float_of_int l) as [e|fl] eqn:F; [discriminate|].
    intros [= <-]. unfold np_degrees.
    pose proof (float_of_int_nonneg _ _ Hl F).
    repeat first [apply mul_nonneg | apply div_nonneg | assumption | reflexivity].
Qed.

Lemma limits_nonneg_stable f :
  (forall o, __lmax (f o) = __lmax o) ->
  (forall o, __fwhm (f o) = __fwhm o) ->
  stable all_limits_nonneg f.
Proof.
  intros Hl Hf h l H. unfold all_limits_nonneg, upd; cbn [beams].
  apply Forall_alter; [exact H|]. intros o _ [A B]. split.
  - intros x E. apply A. rewrite <- (Hl o). exact E.
  - intros x E. apply B. rewrite <- (Hf o). exact E.
Qed.

Lemma limits_nonneg_alloc : stable_alloc all_limits_nonneg.
Proof. intros h t H. exact H. Qed.

Lemma limits_nonneg_store_lmax x :
  0 <= x -> stable all_limits_nonneg (store___lmax (Some x)).
Proof.
  intros Hx h l H. unfold all_limits_nonneg, upd; cbn [beams].
  apply Forall_alter; [exact H|]. intros o _ [A B]. split.
  - intros y [= <-]. exact Hx.
  - exact B.
Qed.

Lemma limits_nonneg_store_fwhm x :
  float_nonneg x -> stable all_limits_nonneg (store___fwhm (Some x)).
Proof.
  intros Hx h l H. unfold all_limits_nonneg, upd; cbn [beams].
  apply Forall_alter; [exact H|]. intros o _ [A B]. split.
  - exact A.
  - intros y [= <-]. exact Hx.
Qed.

Lemma limits_nonneg_set_lmax l v :
  keeps all_limits_nonneg (fun _ => True) (set_lmax l v).
Proof.
  intros h H. split; [|intros; exact Logic.I].
  destruct (beams h !! l) as [o|] eqn:L.
  - destruct v as [v|].
    + rewrite (set_lmax_run _ _ _ _ L). cbn [snd].
      apply limits_nonneg_store_lmax; [lia | exact H].
    + destruct (__fwhm o) as [f|] eqn:F.
      * assert (Hf : float_nonneg f).
        { eapply Forall_lookup_1 in H; [|exact L]. apply H, F. }
        destruct (int_of_float (2 * np_pi / np_radians (f / 60) * f1_4))
          as [e|n] eqn:N.
        -- unfold set_lmax.
           rewrite (bind_ok _ _ _ _ _ (getattr_fwhm_run _ _ _ _ L F)).
           rewrite (bind_err _ _ h e h) by (unfold lift; rewrite N; reflexivity).
           exact H.
        -- rewrite (set_lmax_None_run _ _ _ _ _ L F N). cbn [snd].
           apply limits_nonneg_store_lmax; [|exact H].
           apply (derived_lmax_nonneg _ _ Hf N).
      * unfold set_lmax.
        rewrite (bind_err _ _ _ _ _ (get_fwhm_absent _ _ _ L F)). exact H.
  - destruct v as [v|]; unfold set_lmax, update, get_fwhm; rewrite ?bind_assoc;
      rewrite (bind_err _ _ _ _ _ (deref_fail _ _ L)); exact H.
Qed.

Lemma limits_nonneg_set_fwhm l v :
  keeps all_limits_nonneg (fun _ => True) (set_fwhm l v).
Proof.
  intros h H. split; [|intros; exact Logic.I].
  destruct (beams h !! l) as [o|] eqn:L.
  - destruct v as [v|].
    + rewrite (set_fwhm_run _ _ _ _ L). cbn [snd].
      apply limits_nonneg_store_fwhm; [apply np_abs_float_nonneg | exact H].
    + destruct (__lmax o) as [lm|] eqn:Lm.
      * rewrite (set_fwhm_none_run _ _ _ _ L Lm).
        destruct (init_fwhm None lm) as [e|f] eqn:F; [exact H|]. cbn [snd].
        apply limits_nonneg_store_fwhm; [|exact H].
        apply (init_fwhm_nonneg None lm); [|exact F].
        eapply Forall_lookup_1 in H; [|exact L]. apply H, Lm.
      * unfold set_fwhm.
        rewrite (bind_err _ _ _ _ _ (getattr_absent __lmax _ _ _ L Lm)).
        exact H.
  - destruct v as [v|]; unfold set_fwhm, update, get_lmax; rewrite ?bind_assoc;
      rewrite (bind_err _ _ _ _ _ (deref_fail _ _ L)); exact H.
Qed.

Lemma limits_nonneg_new h kw l f :
  all_limits_nonneg h ->
  init_fwhm (Kw.fwhm kw) (Z.max l 0) = inr f ->
  all_limits_nonneg (mkHeap (beams h ++ [built kw l f]) (blms h)).
Proof.
  intros H F. unfold all_limits_nonneg; cbn [beams].
  apply Forall_app. split; [exact H|]. constructor; [|constructor].
  assert (Hf : float_nonneg f)
    by (apply (init_fwhm_nonneg (Kw.fwhm kw) (Z.max l 0) f); [lia | exact F]).
  unfold built. destruct (Kw.ghost kw); split; cbn.
  all: intros x [= <-]; first [lia | exact Hf].
Qed.

Ltac nonneg_side :=
  first
    [ exact Logic.I
    | apply limits_nonneg_alloc
    | apply limits_nonneg_set_lmax
    | apply limits_nonneg_set_fwhm
    | apply limits_nonneg_new; assumption
    | apply limits_nonneg_stable; intros ?; reflexivity ].
Ltac nonneg_keeps L := apply L; intros; nonneg_side.

Lemma limits_nonneg_set_mmax l m :
  keeps all_limits_nonneg (fun _ => True) (set_mmax l m).
Proof. nonneg_keeps keeps_set_mmax. Qed.

Lemma limits_nonneg_run c :
  keeps all_limits_nonneg (fun _ => True) (run c).
Proof.
  pose proof limits_nonneg_set_mmax as Km.
  destruct c; cbn [run].
  - kbind; [nonneg_keeps keeps_Beam_new | apply keeps_ret].
  - nonneg_keeps keeps_set_dead.
  - apply limits_nonneg_set_lmax.
  - apply Km.
  - apply limits_nonneg_set_fwhm.
  - nonneg_keeps keeps_set_ghost_count.
  - nonneg_keeps keeps_set_ghost_idx.
  - nonneg_keeps keeps_update.
  - nonneg_keeps keeps_update.
  - kbind; [apply keeps_get_blm; intros; first [apply Km | nonneg_side]
           | apply keeps_ret].
  - nonneg_keeps keeps_set_blm.
  - nonneg_keeps keeps_del_blm.
  - nonneg_keeps keeps_gen_gaussian_blm.
  - apply keeps_load_blm; intros; first [apply Km | nonneg_side].
  - nonneg_keeps keeps_create_ghost.
  - apply keeps_reuse_blm; intros; first [apply Km | nonneg_side].
  - nonneg_keeps keeps_delete_blm.
Qed.

Lemma limits_nonneg_after calls : forall h,
  all_limits_nonneg h -> all_limits_nonneg (after_all calls h).
Proof.
  induction calls as [|c calls IH]; intros h H; [exact H|].
  cbn [after_all foldl]. apply IH. apply (limits_nonneg_run c h H).
Qed.

(** X1. Every call of the class, the assignments to [lmax] and [fwhm]
    included, keeps [0 <= lmax] and a non-negative (or NaN) [fwhm] on
    every beam of the store, whatever the outcome of the call; so both
    hold after any sequence of calls that starts without beams. *)
Theorem lmax_fwhm_never_negative calls h :
  all_limits_nonneg h ->
  all_limits_nonneg (after_all calls h) /\
  all_limits_nonneg (after_all calls (mkHeap [] [])).
Proof.
  intros H. split; apply limits_nonneg_after; [exact H | constructor].
Qed.

(** ** Sharing coefficients *)

Lemma reuse_tail_other h self p r s2 p2 l m :
  self <> p ->
  beams h !! self = Some s2 -> beams h !! p = Some p2 ->
  __lmax p2 = Some l -> __mmax p2 = Some m ->
  (set_blm self r ;;
   po <- deref p ;;
   update self (store_btype (btype po)) ;;
   l <- get_lmax p ;;
   set_lmax self (Some l) ;;
   m <- get_mmax p ;;
   set_mmax self (Some m) ;;
   po <- deref p ;;
   update self (store_amplitude (amplitude po))) h
  = (inr tt, upd h self (reused r (btype p2) l m (amplitude p2))).
Proof.
  intros Ne Ls Lp Hl Hm.
  assert (P : forall h0 f, beams h0 !! p = Some p2 ->
                           beams (upd h0 self f) !! p = Some p2).
  { intros h0 f H0. rewrite lookup_upd_ne by exact Ne. exact H0. }
  rewrite (bind_ok _ _ _ _ _ (set_blm_run _ _ _ r Ls)).
  rewrite (bind_ok _ _ _ p2 _) by (apply deref_run; auto).
  rewrite (bind_ok _ _ _ tt _) by (eapply update_run, lookup_upd_eq, Ls).
  rewrite (bind_ok _ _ _ l _) by (eapply getattr_lmax_run; [auto|exact Hl]).
  rewrite (bind_ok _ _ _ tt _)
    by (eapply set_lmax_run, lookup_upd_eq, lookup_upd_eq, Ls).
  rewrite (bind_ok _ _ _ m _) by (eapply getattr_mmax_run; [auto 6|exact Hm]).
  rewrite (bind_ok _ _ _ tt _)
    by (eapply set_mmax_run;
        [eapply lookup_upd_eq, lookup_upd_eq, lookup_upd_eq, Ls | reflexivity]).
  rewrite (bind_ok _ _ _ p2 _) by (apply deref_run; auto 7).
  erewrite update_run
    by (eapply lookup_upd_eq, lookup_upd_eq, lookup_upd_eq, lookup_upd_eq, Ls).
  f_equal. unfold upd; cbn [beams blms]. f_equal.
  rewrite !list_alter_alter_eq. reflexivity.
Qed.

Lemma reuse_tail_self h self r s2 l m :
  beams h !! self = Some s2 ->
  __lmax s2 = Some l -> __mmax s2 = Some m ->
  (set_blm self r ;;
   po <- deref self ;;
   update self (store_btype (btype po)) ;;
   l <- get_lmax self ;;
   set_lmax self (Some l) ;;
   m <- get_mmax self ;;
   set_mmax self (Some m) ;;
   po <- deref self ;;
   update self (store_amplitude (amplitude po))) h
  = (inr tt, upd h self (reused r (btype s2) l m (amplitude s2))).
Proof.
  intros Ls Hl Hm.
  rewrite (bind_ok _ _ _ _ _ (set_blm_run _ _ _ r Ls)).
  rewrite (bind_ok _ _ _ (store___blm (Some r) s2) _)
    by (eapply deref_run, lookup_upd_eq, Ls).
  rewrite (bind_ok _ _ _ tt _) by (eapply update_run, lookup_upd_eq, Ls).
  rewrite (bind_ok _ _ _ l _)
    by (eapply getattr_lmax_run;
        [eapply lookup_upd_eq, lookup_upd_eq, Ls | exact Hl]).
  rewrite (bind_ok _ _ _ tt _)
    by (eapply set_lmax_run, lookup_upd_eq, lookup_upd_eq, Ls).
  rewrite (bind_ok _ _ _ m _)
    by (eapply getattr_mmax_run;
        [eapply lookup_upd_eq, lookup_upd_eq, lookup_upd_eq, Ls | exact Hm]).
  rewrite (bind_ok _ _ _ tt _)
    by (eapply set_mmax_run;
        [eapply lookup_upd_eq, lookup_upd_eq, lookup_upd_eq, Ls | reflexivity]).
  erewrite bind_ok
    by (eapply deref_run, lookup_upd_eq, lookup_upd_eq, lookup_upd_eq,
          lookup_upd_eq, Ls).
  erewrite update_run
    by (eapply lookup_upd_eq, lookup_upd_eq, lookup_upd_eq, lookup_upd_eq, Ls).
  f_equal. unfold upd; cbn [beams blms]. f_equal.
  rewrite !list_alter_alter_eq. reflexivity.
Qed.

Lemma deref_inv l h o h' :
  deref l h = (inr o, h') -> h' = h /\ beams h !! l = Some o.
Proof.
  unfold deref. destruct (beams h !! l); [|discriminate].
  intros [= -> ->]. auto.
Qed.

Lemma update_inv l f h u h' :
  update l f h = (inr u, h') -> h' = upd h l f /\ is_Some (beams h !! l).
Proof.
  unfold update. intros (o & h1 & [-> L]%deref_inv & [= _ <-])%bind_inv.
  split; [reflexivity | eauto].
Qed.

Lemma getattr_inv {A} (proj : Beam -> option A) l h v h' :
  (o <- deref l ;; attr (proj o)) h = (inr v, h') ->
  h' = h /\ exists o, beams h !! l = Some o /\ proj o = Some v.
Proof.
  intros (o & h1 & [-> L]%deref_inv & R)%bind_inv.
  destruct (proj o) as [v'|] eqn:P; [|discriminate].
  injection R as <- <-. eauto.
Qed.

(** When the tail of [reuse_blm] returns, the partner had an [lmax] and
    an [mmax], and the target now holds the partner's values. *)
Lemma reuse_tail_inv h self p r s2 p2 h' :
  beams h !! self = Some s2 -> beams h !! p = Some p2 ->
  (set_blm self r ;;
   po <- deref p ;;
   update self (store_btype (btype po)) ;;
   l <- get_lmax p ;;
   set_lmax self (Some l) ;;
   m <- get_mmax p ;;
   set_mmax self (Some m) ;;
   po <- deref p ;;
   update self (store_amplitude (amplitude po))) h = (inr tt, h') ->
  exists l m,
    __lmax p2 = Some l /\ __mmax p2 = Some m /\
    h' = upd h self (reused r (btype p2) l m (amplitude p2)).
Proof.
  intros Ls Lp R.
  assert (exists l m, __lmax p2 = Some l /\ __mmax p2 = Some m) as (l & m & Hl & Hm).
  { apply bind_inv in R as (? & h3 & [-> _]%update_inv & R).
    apply bind_inv in R as (po & ? & [-> _]%deref_inv & R).
    apply bind_inv in R as (? & h4 & [-> _]%update_inv & R).
    apply bind_inv in R as (l & ? & [-> (o4 & L4 & Hl)]%getattr_inv & R).
    apply bind_inv in R as (? & h5 & [-> _]%update_inv & R).
    apply bind_inv in R as (m & ? & [-> (o5 & L5 & Hm)]%getattr_inv & _).
    exists l, m. destruct (decide (self = p)) as [<-|Ne].
    - assert (s2 = p2) as <- by congruence.
      erewrite lookup_upd_eq in L4 by (eapply lookup_upd_eq, Ls).
      erewrite lookup_upd_eq in L5
        by (eapply lookup_upd_eq, lookup_upd_eq, Ls).
      injection L4 as <-. injection L5 as <-. auto.
    - repeat rewrite lookup_upd_ne in L4 by exact Ne.
      repeat rewrite lookup_upd_ne in L5 by exact Ne.
      assert (o4 = p2) as -> by congruence.
      assert (o5 = p2) as -> by congruence. auto. }
  exists l, m. split; [exact Hl|]. split; [exact Hm|].
  destruct (decide (self = p)) as [<-|Ne].
  - assert (s2 = p2) as <- by congruence.
    rewrite (reuse_tail_self _ _ _ _ _ _ Ls Hl Hm) in R. congruence.
  - rewrite (reuse_tail_other _ _ _ _ _ _ _ _ Ne Ls Lp Hl Hm) in R. congruence.
Qed.

Lemma reuse_blm_unfold self p :
  reuse_blm self (IsBeam p)
  = (pg <- get_ghost p ;;
     sg <- (if pg then get_ghost self else ret false) ;;
     (if sg then i <- get_ghost_idx p ;; set_ghost_idx self i else ret tt) ;;
     reuse_from self p).
Proof. reflexivity. Qed.

Lemma everywhere_stable P f :
  ghost_blind P ->
  (forall o, __ghost (f o) = __ghost o) ->
  (forall o, __ghost_idx (f o) = __ghost_idx o) ->
  stable (everywhere P) f.
Proof.
  intros B G I h l H l' o'. unfold upd; cbn [beams].
  destruct (decide (l = l')) as [<-|Ne].
  - rewrite list_lookup_alter_eq.
    destruct (beams h !! l) as [o|] eqn:L; [|discriminate].
    intros [= <-]. apply (B l o); [apply G | apply I | apply (H l o L)].
  - rewrite list_lookup_alter_ne by exact Ne. apply H.
Qed.

Lemma everywhere_alloc P : stable_alloc (everywhere P).
Proof. intros h t H. exact H. Qed.

Ltac blind_side B :=
  first
    [ exact Logic.I
    | apply everywhere_alloc
    | apply everywhere_stable; [exact B | reflexivity | reflexivity] ].

Lemma keeps_reuse_from P self p :
  ghost_blind P ->
  keeps (everywhere P) (fun _ => True) (reuse_from self p).
Proof.
  intros B. unfold reuse_from.
  assert (Km : forall l m, keeps (everywhere P) (fun _ => True) (set_mmax l m))
    by (intros; apply keeps_set_mmax; intros; blind_side B).
  kbind; [apply keeps_get_blm; intros; first [apply Km | blind_side B]|].
  kbind; [apply keeps_set_blm; intros; blind_side B|].
  kbind; [apply keeps_deref; intros; blind_side B|].
  kbind; [apply keeps_update; intros; blind_side B|].
  kbind; [apply keeps_get_lmax; intros; blind_side B|].
  kbind; [apply keeps_set_lmax; intros; blind_side B|].
  kbind; [apply keeps_get_mmax; intros; blind_side B|].
  kbind; [apply Km|].
  kbind; [apply keeps_deref; intros; blind_side B|].
  apply keeps_update; intros; blind_side B.
Qed.

Lemma get_blm_post p h r h' :
  get_blm p h = (inr r, h') ->
  exists o, beams h' !! p = Some o /\ __blm o = Some r.
Proof.
  unfold get_blm. intros (o & ? & [-> L]%deref_inv & R)%bind_inv.
  destruct (__blm o) as [r'|] eqn:B.
  - injection R as <- <-. eauto.
  - repeat match type of R with
           | (if ?b then _ else _) _ = _ => destruct b
           end;
      try discriminate R;
      apply bind_inv in R as (? & h1 & _ & R);
      apply getattr_inv in R as [-> R]; exact R.
Qed.

Lemma get_ghost_inv l h g h' :
  get_ghost l h = (inr g, h') ->
  h' = h /\ exists o, beams h !! l = Some o /\ __ghost o = g.
Proof.
  unfold get_ghost. intros (o & ? & [-> L]%deref_inv & [= <- <-])%bind_inv.
  eauto.
Qed.

Lemma set_ghost_idx_inv l i h u h' :
  set_ghost_idx l i h = (inr u, h') ->
  h' = upd h l (store___ghost_idx (Some i)) /\
  exists o, beams h !! l = Some o /\ __ghost o = true.
Proof.
  unfold set_ghost_idx.
  intros (g & ? & [-> (o & L & G)]%get_ghost_inv & R)%bind_inv.
  destruct g; [|discriminate].
  apply update_inv in R as [-> _]. eauto.
Qed.

(** What [reuse_from] leaves behind when it returns. *)
Lemma reuse_from_inv h self p h' :
  reuse_from self p h = (inr tt, h') ->
  exists os op r lp mp,
    beams h' !! self = Some os /\ beams h' !! p = Some op /\
    __blm os = Some r /\ __blm op = Some r /\
    btype os = btype op /\ amplitude os = amplitude op /\
    __lmax op = Some lp /\ __mmax op = Some mp /\
    __lmax os = Some (Z.max lp 0) /\
    __mmax os = Some (Z.min mp (Z.max lp 0)).
Proof.
  unfold reuse_from. intros (r & h2 & G & R)%bind_inv.
  destruct (get_blm_post _ _ _ _ G) as (p2 & Lp & Bp).
  assert (exists s2, beams h2 !! self = Some s2) as [s2 Ls].
  { pose proof R as R0.
    apply bind_inv in R0 as (? & ? & [_ [s2 Ls]]%update_inv & _). eauto. }
  destruct (reuse_tail_inv _ _ _ _ _ _ _ Ls Lp R) as (l & m & Hl & Hm & ->).
  set (F := reused r (btype p2) l m (amplitude p2)).
  destruct (decide (self = p)) as [<-|Ne].
  - assert (s2 = p2) as <- by congruence.
    exists (F s2), (F s2), r, (Z.max l 0), (Z.min m (Z.max l 0)).
    rewrite (lookup_upd_eq _ _ F _ Ls).
    repeat split; cbn; f_equal; lia.
  - exists (F s2), p2, r, l, m.
    rewrite (lookup_upd_eq _ _ F _ Ls), lookup_upd_ne by exact Ne.
    repeat split; assumption.
Qed.

(** What [reuse_blm] leaves behind when it returns, on any store. *)
Lemma reuse_blm_result h self p h' :
  reuse_blm self (IsBeam p) h = (inr tt, h') ->
  exists os op r lp mp,
    beams h' !! self = Some os /\ beams h' !! p = Some op /\
    __blm os = Some r /\ __blm op = Some r /\
    btype os = btype op /\ amplitude os = amplitude op /\
    __lmax op = Some lp /\ __mmax op = Some mp /\
    __lmax os = Some (Z.max lp 0) /\
    __mmax os = Some (Z.min mp (Z.max lp 0)) /\
    (0 <= lp -> __lmax os = __lmax op) /\
    (0 <= lp -> mp <= lp -> __mmax os = __mmax op) /\
    (__ghost os = true -> __ghost op = true ->
     exists i, __ghost_idx os = Some i /\ __ghost_idx op = Some i).
Proof.
  rewrite reuse_blm_unfold.
  intros (pg & ? & [-> (op0 & Lp0 & Gp0)]%get_ghost_inv & R)%bind_inv.
  apply bind_inv in R as (sg & h0 & S & R).
  apply bind_inv in R as ([] & h1 & X & R).
  destruct (reuse_from_inv _ _ _ _ R)
    as (os & op & r & lp & mp & Ls & Lp & Bs & Bp & Bt & Am & Hl & Hm & Hls & Hms).
  exists os, op, r, lp, mp.
  repeat (split; [assumption|]).
  split; [|split].
  - intros H0. rewrite Hls, Hl. f_equal. lia.
  - intros H0 H1. rewrite Hms, Hm. f_equal. lia.
  - assert (K : forall P, ghost_blind P -> everywhere P h1 -> everywhere P h').
    { intros P B H1. destruct (keeps_reuse_from P self p B h1 H1) as [H' _].
      rewrite R in H'. exact H'. }
    intros Gs Gp. destruct pg.
    + apply get_ghost_inv in S as [-> (os0 & Ls0 & Gs0)]. destruct sg.
      * (* both were ghosts: the index was copied *)
        apply bind_inv in X as (i & ? & [-> (op0' & Lp0' & Ip0)]%getattr_inv & X).
        apply set_ghost_idx_inv in X as [-> _].
        exists i.
        assert (H' : everywhere
                       (fun l o => l = self \/ l = p -> __ghost_idx o = Some i) h').
        { apply K.
          - intros l o o' _ E. rewrite E. auto.
          - intros l o. unfold upd; cbn [beams].
            destruct (decide (self = l)) as [<-|Ne].
            + rewrite list_lookup_alter_eq, Ls0. intros [= <-] _. reflexivity.
            + rewrite list_lookup_alter_ne by exact Ne.
              intros L [-> | ->]; [contradiction|]. congruence. }
        split; [apply (H' self os Ls) | apply (H' p op Lp)]; auto.
      * (* the target was not a ghost *)
        injection X as <-.
        assert (H' : everywhere (fun l o => l = self -> __ghost o = false) h').
        { apply K.
          - intros l o o' E _. rewrite E. auto.
          - intros l o L ->. congruence. }
        rewrite (H' self os Ls eq_refl) in Gs. discriminate.
    + (* the partner was not a ghost *)
      injection S as <- <-. injection X as <-.
      assert (H' : everywhere (fun l o => l = p -> __ghost o = false) h').
      { apply K.
        - intros l o o' E _. rewrite E. auto.
        - intros l o L ->. congruence. }
      rewrite (H' p op Lp eq_refl) in Gp. discriminate.
Qed.

(** C7, as the code has it. After [reuse_blm(partner)] has returned, the
    target's [blm] is the reference the partner holds and its [btype]
    and [amplitude] are the partner's.  Its [lmax] is the partner's
    raised to zero if negative, hence the partner's on every store in
    which no [lmax] is negative, and so on every store built from
    nothing.  Its [mmax] is the smaller of the partner's [mmax] and that
    [lmax]: the partner's when the partner has [mmax <= lmax], the
    partner's [lmax] otherwise.  If both are ghosts they have the same
    [ghost_idx]. *)
Theorem reuse_blm_shares h self p h' :
  reuse_blm self (IsBeam p) h = (inr tt, h') ->
  exists os op r lp mp,
    beams h' !! self = Some os /\ beams h' !! p = Some op /\
    __blm os = Some r /\ __blm op = Some r /\
    btype os = btype op /\ amplitude os = amplitude op /\
    __lmax op = Some lp /\ __mmax op = Some mp /\
    __lmax os = Some (Z.max lp 0) /\
    __mmax os = Some (Z.min mp (Z.max lp 0)) /\
    (0 <= lp -> __lmax os = __lmax op) /\
    (0 <= lp -> mp <= lp -> __mmax os = __mmax op) /\
    (__ghost os = true -> __ghost op = true ->
     exists i, __ghost_idx os = Some i /\ __ghost_idx op = Some i) /\
    (all_limits_nonneg h ->
     __lmax os = __lmax op /\ (mp <= lp -> __mmax os = __mmax op)) /\
    (forall calls, h = after_all calls (mkHeap [] []) ->
     __lmax os = __lmax op /\ (mp <= lp -> __mmax os = __mmax op)).
Proof.
  intros R.
  destruct (reuse_blm_result _ _ _ _ R)
    as (os & op & r & lp & mp & Ls & Lp & Bs & Bp & Bt & Am & Hl & Hm
        & Hls & Hms & E1 & E2 & Gi).
  exists os, op, r, lp, mp.
  assert (N : all_limits_nonneg h -> 0 <= lp).
  { intros A.
    destruct (limits_nonneg_run (ReuseBlm self (IsBeam p)) h A) as [A' _].
    cbn [run] in A'. rewrite R in A'. cbn [snd] in A'.
    eapply Forall_lookup_1 in A'; [|exact Lp]. apply A', Hl. }
  assert (Q : all_limits_nonneg h ->
              __lmax os = __lmax op /\ (mp <= lp -> __mmax os = __mmax op)).
  { intros A. split; [apply E1, N, A|].
    intros Hle. apply E2; [apply N, A | exact Hle]. }
  repeat (split; [assumption|]).
  intros calls ->. apply Q, limits_nonneg_after. constructor.
Qed.

(** ** Checking the invariant by computation *)

Lemma all_mmax_le_lmax_forallb h :
  all_mmax_le_lmax h <-> forallb mmax_le_lmax (beams h) = true.
Proof.
  unfold all_mmax_le_lmax. rewrite forallb_forall, Forall_forall.
  split; intros H o Ho; apply H; apply list_elem_of_In; exact Ho.
Qed.
(** ** What no call changes *)

Lemma same_identity_refl o : same_identity o o.
Proof. repeat split. Qed.

Lemma same_identity_trans o1 o2 o3 :
  same_identity o1 o2 -> same_identity o2 o3 -> same_identity o1 o3.
Proof.
  unfold same_identity. intros H1 H2.
  destruct o1, o2, o3; cbn in *.
  repeat (match goal with H : _ /\ _ |- _ => destruct H end).
  repeat split; congruence.
Qed.

Lemma extends_refl h : extends h h.
Proof.
  split; [|reflexivity].
  intros l o L. exists o. split; [exact L | apply same_identity_refl].
Qed.

Lemma extends_stable h0 f :
  (forall o, same_identity o (f o)) -> stable (extends h0) f.
Proof.
  intros Hf h l [B T]. split; [|exact T].
  intros l0 o L0. destruct (B _ _ L0) as (o' & L' & S).
  destruct (decide (l = l0)) as [->|Ne].
  - exists (f o'). split; [apply lookup_upd_eq, L'|].
    eapply same_identity_trans; [exact S | apply Hf].
  - exists o'. split; [rewrite lookup_upd_ne by exact Ne; exact L' | exact S].
Qed.

Lemma extends_alloc h0 : stable_alloc (extends h0).
Proof.
  intros h t [B T]. split; [exact B|]. cbn [blms].
  etransitivity; [exact T | apply prefix_app_r; reflexivity].
Qed.

Lemma extends_new h0 h (o : Beam) :
  extends h0 h -> extends h0 (mkHeap (beams h ++ [o]) (blms h)).
Proof.
  intros [B T]. split; [|exact T].
  intros l o0 L0. destruct (B _ _ L0) as (o' & L' & S).
  exists o'. split; [|exact S]. cbn [beams].
  apply lookup_app_l_Some, L'.
Qed.

Ltac extends_side :=
  first
    [ exact Logic.I
    | apply extends_alloc
    | apply extends_new; assumption
    | apply extends_stable; intros ?; repeat split ].
Ltac extends_keeps L := apply L; intros; extends_side.

Lemma extends_set_mmax h0 l m :
  keeps (extends h0) (fun _ => True) (set_mmax l m).
Proof. extends_keeps keeps_set_mmax. Qed.

Lemma extends_set_lmax h0 l v :
  keeps (extends h0) (fun _ => True) (set_lmax l v).
Proof. extends_keeps keeps_set_lmax. Qed.

Lemma extends_keeps_run h0 c :
  keeps (extends h0) (fun _ => True) (run c).
Proof.
  pose proof (extends_set_mmax h0) as Km.
  pose proof (extends_set_lmax h0) as Kl.
  destruct c; cbn [run].
  - kbind; [extends_keeps keeps_Beam_new | apply keeps_ret].
  - extends_keeps keeps_set_dead.
  - apply Kl.
  - apply Km.
  - extends_keeps keeps_set_fwhm.
  - extends_keeps keeps_set_ghost_count.
  - extends_keeps keeps_set_ghost_idx.
  - extends_keeps keeps_update.
  - extends_keeps keeps_update.
  - kbind; [apply keeps_get_blm; intros; first [apply Km | extends_side]
           | apply keeps_ret].
  - extends_keeps keeps_set_blm.
  - extends_keeps keeps_del_blm.
  - extends_keeps keeps_gen_gaussian_blm.
  - apply keeps_load_blm; intros; first [apply Km | extends_side].
  - apply keeps_create_ghost; intros; first [apply Km | apply Kl | extends_side].
  - apply keeps_reuse_blm; intros; first [apply Km | apply Kl | extends_side].
  - extends_keeps keeps_delete_blm.
Qed.

Lemma extends_run c h : extends h (snd (run c h)).
Proof. apply (extends_keeps_run h c h), extends_refl. Qed.

Lemma extends_after calls : forall h, extends h (after_all calls h).
Proof.
  induction calls as [|c calls IH]; intros h; [apply extends_refl|].
  cbn [after_all foldl]. fold (after_all calls (snd (run c h))).
  pose proof (extends_run c h) as [B1 T1].
  pose proof (IH (snd (run c h))) as [B2 T2].
  split; [|etransitivity; eassumption].
  intros l o L. destruct (B1 _ _ L) as (o1 & L1 & S1).
  destruct (B2 _ _ L1) as (o2 & L2 & S2).
  exists o2. split; [exact L2 | eapply same_identity_trans; eassumption].
Qed.

(** X2. No sequence of calls removes or moves a beam, and none changes the
    attributes that [__init__] stores verbatim ([az], [el], [polang],
    [name], [pol], [po_file], [eg_file], [cross_pol], [sensitive_freq],
    [deconv_q], [normalize], [polang_error], [idx], [symmetric]) or the
    role ([ghost]) of an existing beam, whatever the outcomes of the
    calls. *)
Theorem identity_never_changes calls h l o :
  beams h !! l = Some o ->
  exists o', beams (after_all calls h) !! l = Some o' /\ same_identity o o'.
Proof. intros L. apply (extends_after calls h), L. Qed.

(** ** One call of [create_ghost], in full *)

Lemma create_ghost_primary h self o tag kwargs d l m f gs c :
  beams h !! self = Some o -> __ghost o = false ->
  __dead o = Some d -> __lmax o = Some l -> __mmax o = Some m ->
  __fwhm o = Some f -> __ghosts o = Some gs -> __ghost_count o = Some c ->
  let kw := ghost_opts o (ghost_name (name o) tag) f d l m kwargs in
  create_ghost self tag kwargs h
  = match Kw.lmax kw with
    | None => (inl (Foreign AttributeError), h)
    | Some l' =>
        match init_fwhm (Kw.fwhm kw) (Z.max l' 0) with
        | inl e => (inl e, h)
        | inr f' =>
            (inr tt,
             mkHeap
               (alter (fun o => store___ghosts (Some (gs ++ [length (beams h)]))
                                  (store___ghost_count (Some (c + 1)) o))
                      self (beams h)
                ++ [store___ghost_idx (Some c) (built kw l' f')])
               (blms h))
        end
    end.
Proof.
  intros L Gh D Lm M F G C kw.
  unfold create_ghost.
  step get_ghost_run. rewrite Gh.
  step deref_run.
  step getattr_fwhm_run. step getattr_dead_run.
  step getattr_lmax_run. step getattr_mmax_run.
  fold (ghost_name (name o) tag). fold kw.
  rewrite ?bind_assoc.
  destruct (Kw.lmax kw) as [l'|] eqn:L'.
  - destruct (init_fwhm (Kw.fwhm kw) (Z.max l' 0)) as [e|f'] eqn:F'.
    + rewrite (bind_err _ _ _ _ _ (Beam_new_error h kw l' e L' F')).
      reflexivity.
    + rewrite (bind_ok _ _ _ _ _ (Beam_new_run h kw l' f' L' F')).
      set (g0 := built kw l' f').
      assert (G0 : __ghost g0 = true) by reflexivity.
      rewrite (bind_ok _ _ _ c _)
        by (apply (getattr_ghost_count_run _ _ o); [apply lookup_old, L | exact C]).
      rewrite (bind_ok _ _ _ tt _)
        by (apply (set_ghost_idx_run _ _ g0); [apply lookup_snoc | exact G0]).
      rewrite upd_snoc.
      rewrite (bind_ok _ _ _ c _)
        by (apply (getattr_ghost_count_run _ _ o); [apply lookup_old, L | exact C]).
      rewrite (bind_ok _ _ _ tt _)
        by (apply (set_ghost_count_run _ _ o); [apply lookup_old, L | exact Gh]).
      rewrite (bind_ok _ _ _ gs _)
        by (apply (getattr_ghosts_run _ _ (store___ghost_count (Some (c + 1)) o));
            [apply lookup_upd_eq, lookup_old, L | exact G]).
      rewrite (update_run _ _ _ (store___ghost_count (Some (c + 1)) o))
        by (apply lookup_upd_eq, lookup_old, L).
      assert (Hlt : (self < length (beams h))%nat)
        by (apply lookup_lt_is_Some; eauto).
      f_equal. unfold upd; cbn [beams blms]. f_equal.
      rewrite !alter_app_l by (rewrite ?length_alter; exact Hlt).
      rewrite list_alter_alter_eq. reflexivity.
  - rewrite (bind_err _ _ _ _ _ (Beam_new_lmax_None h kw L')). reflexivity.
Qed.

(** ** Stores the class builds *)

Lemma ghost_refs_ok_upd h l f o x :
  beams h !! l = Some o -> __ghost (f o) = __ghost o ->
  ghost_refs_ok h x -> ghost_refs_ok (upd h l f) x.
Proof.
  intros L G R gs g Gs In. destruct (R gs g Gs In) as (og & Lg & Gg).
  destruct (decide (l = g)) as [->|Ne].
  - assert (og = o) as -> by congruence.
    exists (f o). split; [apply lookup_upd_eq, L | congruence].
  - exists og. split; [rewrite lookup_upd_ne by exact Ne; exact Lg | exact Gg].
Qed.

Lemma well_formed_upd h l f o :
  well_formed h -> beams h !! l = Some o ->
  initialised (f o) = true -> __ghost (f o) = __ghost o ->
  ghost_refs_ok h (f o) -> well_formed (upd h l f).
Proof.
  intros W L I G R l0 o0 L0.
  destruct (decide (l = l0)) as [<-|Ne].
  - rewrite (lookup_upd_eq _ _ f _ L) in L0. injection L0 as <-.
    split; [exact I|]. apply (ghost_refs_ok_upd _ _ _ o); assumption.
  - rewrite lookup_upd_ne in L0 by exact Ne.
    destruct (W _ _ L0) as [I0 R0].
    split; [exact I0|]. apply (ghost_refs_ok_upd _ _ _ o); assumption.
Qed.

Lemma well_formed_stable f :
  (forall o, initialised o = true -> initialised (f o) = true) ->
  (forall o, __ghost (f o) = __ghost o) ->
  (forall o, __ghosts (f o) = __ghosts o) ->
  stable well_formed f.
Proof.
  intros Hi Hg Hgs h l W.
  destruct (beams h !! l) as [o|] eqn:L.
  - destruct (W _ _ L) as [I R].
    apply (well_formed_upd h l f o W L); [apply Hi, I | apply Hg|].
    intros gs g Gs. apply R. rewrite <- (Hgs o). exact Gs.
  - intros l0 o0 L0. unfold upd in L0; cbn [beams] in L0.
    destruct (decide (l = l0)) as [<-|Ne].
    + rewrite list_lookup_alter_eq, L in L0. discriminate L0.
    + rewrite list_lookup_alter_ne in L0 by exact Ne.
      destruct (W _ _ L0) as [I0 R0]. split; [exact I0|].
      intros gs g Gs In. destruct (R0 gs g Gs In) as (og & Lg & Gg).
      exists og. split; [|exact Gg]. unfold upd; cbn [beams].
      rewrite list_lookup_alter_ne; [exact Lg|].
      intros <-. congruence.
Qed.

Lemma well_formed_alloc : stable_alloc well_formed.
Proof. intros h t W. exact W. Qed.

Lemma initialised_built kw l f : initialised (built kw l f) = true.
Proof. unfold built. destruct (Kw.ghost kw) eqn:G; cbn; rewrite G; reflexivity. Qed.

Lemma well_formed_new h kw l f :
  well_formed h ->
  well_formed (mkHeap (beams h ++ [built kw l f]) (blms h)).
Proof.
  intros W l0 o0 L0. cbn [beams] in L0.
  apply lookup_app_Some in L0 as [L0|[Ge L0]].
  - destruct (W _ _ L0) as [I0 R0]. split; [exact I0|].
    intros gs g Gs In. destruct (R0 gs g Gs In) as (og & Lg & Gg).
    exists og. split; [apply lookup_app_l_Some, Lg | exact Gg].
  - apply list_lookup_singleton_Some in L0 as [_ <-].
    split; [apply initialised_built|].
    intros gs g Gs In. unfold built in Gs.
    destruct (Kw.ghost kw); cbn in Gs; [discriminate Gs|].
    injection Gs as <-. apply elem_of_nil in In. destruct In.
Qed.

Lemma initialised_ghost_count o c :
  initialised o = true -> __ghost o = false ->
  initialised (store___ghost_count (Some c) o) = true.
Proof.
  destruct o as [? ? ? ? ? ? ? ? ? ? ? ? ? ? ? ? gh dd lm mm fw ghs gc gi bl].
  unfold initialised, present; cbn. intros I ->.
  destruct dd, lm, mm, fw, ghs, gc, gi; try discriminate I; reflexivity.
Qed.

Lemma initialised_ghost_idx o i :
  initialised o = true -> __ghost o = true ->
  initialised (store___ghost_idx (Some i) o) = true.
Proof.
  destruct o as [? ? ? ? ? ? ? ? ? ? ? ? ? ? ? ? gh dd lm mm fw ghs gc gi bl].
  unfold initialised, present; cbn. intros I ->. exact I.
Qed.

Lemma well_formed_set_ghost_count l c :
  keeps well_formed (fun _ => True) (set_ghost_count l c).
Proof.
  intros h W. split; [|intros; exact Logic.I].
  destruct (beams h !! l) as [o|] eqn:L.
  - destruct (__ghost o) eqn:G.
    + unfold set_ghost_count.
      rewrite (bind_ok _ _ _ _ _ (get_ghost_run _ _ _ L)), G. exact W.
    + rewrite (set_ghost_count_run _ _ _ _ L G). cbn [snd].
      destruct (W _ _ L) as [I R].
      apply (well_formed_upd h l _ o W L);
        [apply initialised_ghost_count; assumption | destruct o; reflexivity|].
      intros gs g Gs. apply R. destruct o; exact Gs.
  - unfold set_ghost_count, get_ghost. rewrite ?bind_assoc.
    rewrite (bind_err _ _ _ _ _ (deref_fail _ _ L)). exact W.
Qed.

Lemma well_formed_set_ghost_idx l i :
  keeps well_formed (fun _ => True) (set_ghost_idx l i).
Proof.
  intros h W. split; [|intros; exact Logic.I].
  destruct (beams h !! l) as [o|] eqn:L.
  - destruct (__ghost o) eqn:G.
    + rewrite (set_ghost_idx_run _ _ _ _ L G). cbn [snd].
      destruct (W _ _ L) as [I R].
      apply (well_formed_upd h l _ o W L);
        [apply initialised_ghost_idx; assumption | destruct o; reflexivity|].
      intros gs g Gs. apply R. destruct o; exact Gs.
    + unfold set_ghost_idx.
      rewrite (bind_ok _ _ _ _ _ (get_ghost_run _ _ _ L)), G. exact W.
  - unfold set_ghost_idx, get_ghost. rewrite ?bind_assoc.
    rewrite (bind_err _ _ _ _ _ (deref_fail _ _ L)). exact W.
Qed.

Lemma initialised_cases o :
  initialised o = true -> is_primary o = true \/ is_ghost o = true.
Proof.
  unfold is_primary, is_ghost. intros ->.
  destruct (__ghost o); [right | left]; reflexivity.
Qed.

Ltac wf_benign :=
  apply well_formed_stable;
  [ intros o; destruct o as [? ? ? ? ? ? ? ? ? ? ? ? ? ? ? ? gh dd lm mm fw ghs gc gi bl];
    unfold initialised, present; cbn;
    destruct gh, dd, lm, mm, fw, ghs, gc, gi; intros I;
    try discriminate I; reflexivity
  | intros ?; reflexivity
  | intros ?; reflexivity ].
Ltac wf_side :=
  first
    [ exact Logic.I
    | apply well_formed_alloc
    | apply well_formed_new; assumption
    | wf_benign ].
Ltac wf_keeps L := apply L; intros; wf_side.

Lemma well_formed_set_mmax l m :
  keeps well_formed (fun _ => True) (set_mmax l m).
Proof. wf_keeps keeps_set_mmax. Qed.

Lemma well_formed_set_lmax l v :
  keeps well_formed (fun _ => True) (set_lmax l v).
Proof. wf_keeps keeps_set_lmax. Qed.

Lemma well_formed_get_blm l :
  keeps well_formed (fun _ => True) (get_blm l).
Proof.
  apply keeps_get_blm; intros;
    first [apply well_formed_set_mmax | wf_side].
Qed.

Lemma well_formed_create_ghost self tag kwargs :
  keeps well_formed (fun _ => True) (create_ghost self tag kwargs).
Proof.
  intros h W. split; [|intros; exact Logic.I].
  destruct (beams h !! self) as [o|] eqn:L.
  - destruct (W _ _ L) as [I R].
    destruct (initialised_cases _ I) as [P|G].
    + destruct (is_primary_inv _ P)
        as (Gh & d & l & m & f & gs & c & D & Lm & M & F & Gs & C).
      rewrite (create_ghost_primary _ _ _ tag kwargs _ _ _ _ _ _
                 L Gh D Lm M F Gs C).
      set (kw := ghost_opts _ _ _ _ _ _ _).
      destruct (Kw.lmax kw) as [l'|]; [|exact W].
      destruct (init_fwhm _ _) as [e|f']; [exact W|]. cbn [snd].
      set (reg := fun o => store___ghosts _ (store___ghost_count _ o)).
      assert (Hlt : (self < length (beams h))%nat)
        by (apply lookup_lt_is_Some; eauto).
      assert (Hreg : forall l0 o0,
                 alter reg self (beams h) !! l0 = Some o0 ->
                 exists o1, beams h !! l0 = Some o1 /\
                            __ghost o0 = __ghost o1 /\
                            (l0 = self /\ o1 = o /\ o0 = reg o \/
                             l0 <> self /\ o0 = o1)).
      { intros l0 o0 L0. destruct (decide (self = l0)) as [<-|Ne].
        - rewrite list_lookup_alter_eq, L in L0. injection L0 as <-.
          exists o. split; [exact L|]. split; [reflexivity|]. left. auto.
        - rewrite list_lookup_alter_ne in L0 by exact Ne.
          exists o0. split; [exact L0|]. split; [reflexivity|]. right. auto. }
      assert (Hold : forall g og,
                 beams h !! g = Some og -> __ghost og = true ->
                 exists og',
                   (alter reg self (beams h)
                      ++ [store___ghost_idx (Some c) (built kw l' f')]) !! g
                   = Some og' /\ __ghost og' = true).
      { intros g og Lg Gg. destruct (decide (self = g)) as [<-|Ne].
        - congruence.
        - exists og. split; [|exact Gg]. apply lookup_app_l_Some.
          rewrite list_lookup_alter_ne by exact Ne. exact Lg. }
      intros l0 o0 L0. cbn [beams] in L0.
      apply lookup_app_Some in L0 as [L0|[Ge L0]].
      * destruct (Hreg _ _ L0) as (o1 & L1 & G1 & [(-> & -> & ->)|(Ne & ->)]).
        -- split.
           { pose proof (is_primary_registry o (gs ++ [length (beams h)])
                           (c + 1) P) as P'.
             unfold is_primary in P'. apply andb_true_iff in P' as [P' _].
             exact P'. }
           intros gs' g Gs' In. unfold reg in Gs'. cbn in Gs'.
           injection Gs' as <-. cbn [beams].
           apply elem_of_app in In as [In|In].
           ++ destruct (R gs g Gs In) as (og & Lg & Gg).
              apply (Hold _ _ Lg Gg).
           ++ apply list_elem_of_singleton in In as ->.
              exists (store___ghost_idx (Some c) (built kw l' f')).
              split; [|reflexivity].
              replace (length (beams h)) with (length (alter reg self (beams h)))
                by apply length_alter.
              apply lookup_snoc.
        -- destruct (W _ _ L1) as [I1 R1]. split; [exact I1|].
           intros gs' g Gs' In. destruct (R1 gs' g Gs' In) as (og & Lg & Gg).
           cbn [beams]. apply (Hold _ _ Lg Gg).
      * apply list_lookup_singleton_Some in L0 as [_ <-]. split.
        -- apply initialised_ghost_idx; [apply initialised_built | reflexivity].
        -- intros gs' g Gs'. discriminate Gs'.
    + apply is_ghost_inv in G as (Gh & _ & _).
      unfold create_ghost. step get_ghost_run. rewrite Gh. exact W.
  - unfold create_ghost, get_ghost. rewrite ?bind_assoc.
    rewrite (bind_err _ _ _ _ _ (deref_fail _ _ L)). exact W.
Qed.

Lemma well_formed_reuse_blm self partner :
  keeps well_formed (fun _ => True) (reuse_blm self partner).
Proof.
  destruct partner as [p|]; [|apply keeps_raise; exact Logic.I].
  unfold reuse_blm.
  kbind; [wf_keeps keeps_get_ghost|].
  kbind; [destruct a; [wf_keeps keeps_get_ghost | apply keeps_ret]|].
  kbind.
  { destruct a0; [|apply keeps_ret].
    kbind; [wf_keeps keeps_get_ghost_idx | apply well_formed_set_ghost_idx]. }
  kbind; [apply well_formed_get_blm|].
  kbind; [wf_keeps keeps_set_blm|].
  kbind; [wf_keeps keeps_deref|].
  kbind; [wf_keeps keeps_update|].
  kbind; [wf_keeps keeps_get_lmax|].
  kbind; [apply well_formed_set_lmax|].
  kbind; [wf_keeps keeps_get_mmax|].
  kbind; [apply well_formed_set_mmax|].
  kbind; [wf_keeps keeps_deref | wf_keeps keeps_update].
Qed.

Lemma well_formed_run c : keeps well_formed (fun _ => True) (run c).
Proof.
  pose proof well_formed_set_mmax as Km.
  destruct c; cbn [run].
  - kbind; [wf_keeps keeps_Beam_new | apply keeps_ret].
  - wf_keeps keeps_set_dead.
  - apply well_formed_set_lmax.
  - apply Km.
  - wf_keeps keeps_set_fwhm.
  - apply well_formed_set_ghost_count.
  - apply well_formed_set_ghost_idx.
  - wf_keeps keeps_update.
  - wf_keeps keeps_update.
  - kbind; [apply well_formed_get_blm | apply keeps_ret].
  - wf_keeps keeps_set_blm.
  - wf_keeps keeps_del_blm.
  - wf_keeps keeps_gen_gaussian_blm.
  - apply keeps_load_blm; intros; first [apply Km | wf_side].
  - apply well_formed_create_ghost.
  - apply well_formed_reuse_blm.
  - wf_keeps keeps_delete_blm.
Qed.

Lemma well_formed_after calls : forall h,
  well_formed h -> well_formed (after_all calls h).
Proof.
  induction calls as [|c calls IH]; intros h W; [exact W|].
  cbn [after_all foldl]. apply IH. apply (well_formed_run c h W).
Qed.

Lemma well_formed_empty : well_formed (mkHeap [] []).
Proof. intros l o L. discriminate L. Qed.

(** A primary of a well-formed store owns its ghost list. *)
Lemma well_formed_owns h l o :
  well_formed h -> beams h !! l = Some o -> is_primary o = true ->
  exists gs, owns h o gs.
Proof.
  intros W L P. destruct (W _ _ L) as [_ R].
  destruct (is_primary_inv _ P)
    as (Gh & d & lm & m & f & gs & c & _ & _ & _ & _ & Gs & _).
  exists gs. split; [exact Gh|]. split; [exact Gs|].
  intros g In. destruct (R gs g Gs In) as (og & Lg & Gg).
  exists og. split; [exact Lg|]. split; [exact Gg|].
  destruct (W _ _ Lg) as [Ig _].
  destruct (initialised_cases _ Ig) as [Pg|Gg'].
  - apply is_primary_inv in Pg as [Pg _]. congruence.
  - apply is_ghost_inv in Gg' as (_ & N & _). exact N.
Qed.

(** X4. Every call keeps the store well formed, whatever its outcome; so
    after any sequence of calls that starts without beams, every beam has
    [dead], [lmax], [mmax] and [fwhm], a primary has a ghost list and a
    ghost count and no [ghost_idx], a ghost has neither list nor count,
    and every entry of a ghost list is a ghost of the store. *)
Theorem store_stays_well_formed calls h :
  well_formed h ->
  well_formed (after_all calls h) /\
  well_formed (after_all calls (mkHeap [] [])).
Proof.
  intros W. split; apply well_formed_after; [exact W | apply well_formed_empty].
Qed.

Lemma initialised_inv o :
  initialised o = true ->
  exists d l m f,
    __dead o = Some d /\ __lmax o = Some l /\ __mmax o = Some m /\
    __fwhm o = Some f.
Proof.
  destruct o as [? ? ? ? ? ? ? ? ? ? ? ? ? ? ? ? gh dd lm mm fw ghs gc gi bl].
  unfold initialised, present; cbn.
  destruct dd, lm, mm, fw; try discriminate. intros _.
  do 4 eexists. repeat split.
Qed.

(** Every beam of a well-formed store has an [mmax]. *)
Lemma well_formed_has_mmax h : well_formed h -> has_mmax h.
Proof.
  intros W. apply Forall_lookup_2. intros l o L.
  destruct (W _ _ L) as [I _].
  destruct (initialised_inv _ I) as (_ & _ & m & _ & _ & _ & M & _).
  destruct o; cbn in *. subst. reflexivity.
Qed.

Lemma is_primary_no_idx o : is_primary o = true -> __ghost_idx o = None.
Proof.
  destruct o as [? ? ? ? ? ? ? ? ? ? ? ? ? ? ? ? gh dd lm mm fw ghs gc gi bl].
  unfold is_primary, initialised, present; cbn.
  destruct gh, dd, lm, mm, fw, ghs, gc, gi; try discriminate; reflexivity.
Qed.

(** X5. In a well-formed store the property reads of a beam never fail:
    [dead], [lmax], [mmax] and [fwhm] return the stored value and leave
    the store as it is; [ghosts] and [ghost_count] do so on a primary and
    raise [AttributeError] on a ghost; [ghost_idx] raises
    [AttributeError] on a primary. *)
Theorem property_reads h self o :
  well_formed h -> beams h !! self = Some o ->
  (exists d l m f,
      get_dead self h = (inr d, h) /\ get_lmax self h = (inr l, h) /\
      get_mmax self h = (inr m, h) /\ get_fwhm self h = (inr f, h)) /\
  (__ghost o = false ->
   (exists gs c, get_ghosts self h = (inr gs, h) /\
                 get_ghost_count self h = (inr c, h)) /\
   get_ghost_idx self h = (inl (Foreign AttributeError), h)) /\
  (__ghost o = true ->
   get_ghosts self h = (inl (Foreign AttributeError), h) /\
   get_ghost_count self h = (inl (Foreign AttributeError), h)).
Proof.
  intros W L. destruct (W _ _ L) as [I _].
  destruct (initialised_inv _ I) as (d & l & m & f & D & Lm & M & F).
  split; [|split].
  - exists d, l, m, f. repeat split;
      [ eapply getattr_dead_run | eapply getattr_lmax_run
      | eapply getattr_mmax_run | eapply getattr_fwhm_run ]; eassumption.
  - intros Gh. assert (P : is_primary o = true).
    { unfold is_primary. rewrite I, Gh. reflexivity. }
    destruct (is_primary_inv _ P)
      as (_ & _ & _ & _ & _ & gs & c & _ & _ & _ & _ & Gs & C).
    split.
    + exists gs, c. split;
        [eapply getattr_ghosts_run | eapply getattr_ghost_count_run]; eassumption.
    + apply (getattr_absent __ghost_idx _ _ _ L), is_primary_no_idx, P.
  - intros Gh. assert (G : is_ghost o = true).
    { unfold is_ghost. rewrite I, Gh. reflexivity. }
    destruct (is_ghost_inv _ G) as (_ & Gs & C).
    split.
    + apply (getattr_absent __ghosts _ _ _ L), Gs.
    + apply (getattr_absent __ghost_count _ _ _ L), C.
Qed.

(** ** The setters and [delete_blm] on a well-formed store *)

Lemma length_foldl_upd f gs : forall h,
  length (beams (foldl (fun h g => upd h g f) h gs)) = length (beams h).
Proof.
  induction gs as [|g gs IH]; intros h; cbn [foldl]; [reflexivity|].
  rewrite IH. unfold upd; cbn [beams]. apply length_alter.
Qed.

(** X6. In a well-formed store the [dead] setter never raises, on a primary
    or on a ghost: the nested assignments stop at the ghosts, which have
    no ghost list, so the recursion limit is not reached.  The call
    allocates nothing and the beam then reads back the value. *)
Theorem dead_setter_returns h self o v :
  well_formed h -> beams h !! self = Some o ->
  exists h',
    set_dead self v h = (inr tt, h') /\
    get_dead self h' = (inr v, h') /\
    length (beams h') = length (beams h) /\
    blms h' = blms h.
Proof.
  intros W L. destruct (W _ _ L) as [I _].
  destruct (initialised_cases _ I) as [P|G].
  - destruct (well_formed_owns _ _ _ W L P) as [gs O].
    eexists. split; [apply (set_dead_primary _ _ _ _ _ L O)|].
    set (f := store___dead (Some v)).
    assert (Hl : exists o',
               beams (foldl (fun h g => upd h g f) (upd h self f) gs) !! self
               = Some o' /\ __dead o' = Some v).
    { rewrite lookup_foldl_upd by apply store___dead_idem.
      rewrite (lookup_upd_eq _ _ _ _ L).
      destruct (bool_decide _); eexists; (split; [reflexivity|]); reflexivity. }
    destruct Hl as (o' & L' & D'). split; [|split].
    + apply (getattr_dead_run _ _ _ _ L' D').
    + rewrite length_foldl_upd. unfold upd; cbn [beams]. apply length_alter.
    + rewrite blms_foldl_upd. reflexivity.
  - apply is_ghost_inv in G as (_ & Gs & _).
    eexists. split; [apply (set_dead_leaf _ _ _ _ L Gs)|]. split; [|split].
    + apply (getattr_dead_run _ _ (store___dead (Some v) o)); [|reflexivity].
      apply lookup_upd_eq, L.
    + unfold upd; cbn [beams]. apply length_alter.
    + reflexivity.
Qed.

Lemma del_blm_guarded_run h g og :
  beams h !! g = Some og ->
  exists h1,
    try_except (del_blm g) AttributeError (ret tt) h = (inr tt, h1) /\
    blms h1 = blms h /\
    forall l, beams h1 !! l
              = if decide (g = l) then store___blm None <$> beams h !! l
                else beams h !! l.
Proof.
  intros Lg. destruct (__blm og) as [r|] eqn:B.
  - eexists. split; [apply (del_blm_present _ _ _ _ Lg B)|].
    split; [reflexivity|].
    intros l. unfold upd; cbn [beams]. destruct (decide (g = l)) as [<-|Ne].
    + apply list_lookup_alter_eq.
    + apply list_lookup_alter_ne, Ne.
  - exists h. split; [apply (del_blm_absent _ _ _ Lg B)|].
    split; [reflexivity|].
    intros l. destruct (decide (g = l)) as [<-|Ne]; [|reflexivity].
    rewrite Lg. cbn. f_equal. destruct og; cbn in *. subst. reflexivity.
Qed.

Lemma for_each_del_blm_blms gs : forall h,
  blms (snd (for_each gs
               (fun ghost => try_except (del_blm ghost) AttributeError (ret tt))
               h)) = blms h.
Proof.
  intros h.
  assert (K : keeps (fun h' => blms h' = blms h) (fun _ => True)
                (for_each gs (fun ghost =>
                   try_except (del_blm ghost) AttributeError (ret tt)))).
  { apply keeps_for_each. intros g.
    apply keeps_try; [|apply keeps_ret].
    apply keeps_del_blm; [intros; exact Logic.I|].
    intros h' l E. exact E. }
  apply (K h). reflexivity.
Qed.

(** X7. [delete_blm] on a primary of a well-formed store returns, whether or
    not coefficients are cached: afterwards the primary has no [blm],
    with [del_ghosts_blm] none of its ghosts has one, and nothing else in
    the store has changed; without [del_ghosts_blm] the ghosts keep what
    they have. *)
Theorem delete_blm_on_primary_clears h self o d :
  well_formed h -> beams h !! self = Some o -> __ghost o = false ->
  exists h' gs,
    __ghosts o = Some gs /\
    delete_blm self d h = (inr tt, h') /\
    blms h' = blms h /\
    forall l,
      beams h' !! l
      = if bool_decide (l = self \/ (d = true /\ l ∈ gs))
        then store___blm None <$> beams h !! l
        else beams h !! l.
Proof.
  intros W L Gh. destruct (W _ _ L) as [I R].
  assert (P : is_primary o = true).
  { unfold is_primary. rewrite I, Gh. reflexivity. }
  destruct (well_formed_owns _ _ _ W L P) as (gs & _ & Gs & Hg).
  destruct (del_blm_guarded_run _ _ _ L) as (h1 & R1 & B1 & L1).
  assert (Hself : forall l, l ∈ gs -> l <> self).
  { intros l In ->. destruct (Hg self In) as (og & Lg & Gg & _). congruence. }
  assert (Gs1 : exists o1, beams h1 !! self = Some o1 /\ __ghosts o1 = Some gs).
  { exists (store___blm None o). split; [|exact Gs].
    rewrite L1, L. destruct (decide (self = self)); [reflexivity | congruence]. }
  destruct Gs1 as (o1 & Lo1 & Gs1).
  unfold delete_blm.
  rewrite (bind_ok _ _ _ _ _ R1).
  rewrite (bind_ok _ _ _ _ _ (getattr_ghosts_run _ _ _ _ Lo1 Gs1)).
  destruct (any_beam gs && d) eqn:Fl.
  - apply andb_true_iff in Fl as [_ ->].
    destruct (for_each_del_blm gs h1) as (h' & R' & L').
    { intros g In. rewrite L1. destruct (Hg g In) as (og & Lg & _).
      rewrite Lg. destruct (decide _); eauto. }
    exists h', gs. split; [exact Gs|]. split; [exact R'|]. split.
    + pose proof (for_each_del_blm_blms gs h1) as Bq.
      rewrite R' in Bq. cbn [snd] in Bq. congruence.
    + intros l. rewrite L', L1.
      destruct (decide (self = l)) as [<-|Ne].
      * rewrite (bool_decide_eq_true_2 (self = self \/ _)) by (left; reflexivity).
        destruct (beams h !! self); cbn; destruct (bool_decide _); reflexivity.
      * destruct (decide (l ∈ gs)) as [In|In].
        -- rewrite !bool_decide_eq_true_2; [reflexivity | right; auto | exact In].
        -- rewrite !bool_decide_eq_false_2; [reflexivity | | exact In].
           intros [?|[_ ?]]; [congruence | contradiction].
  - exists h1, gs. split; [exact Gs|]. split; [reflexivity|].
    split; [exact B1|]. intros l. rewrite L1.
    assert (Q : d = true -> l ∈ gs -> False).
    { intros -> In. rewrite andb_true_r in Fl.
      destruct gs; [apply elem_of_nil in In; exact In | discriminate Fl]. }
    destruct (decide (self = l)) as [<-|Ne].
    + rewrite bool_decide_eq_true_2 by (left; reflexivity). reflexivity.
    + rewrite bool_decide_eq_false_2; [reflexivity|].
      intros [?|[? ?]]; [congruence | eauto].
Qed.

(** ** What a ghost gets from its parent *)

Lemma np_abs_of_nonneg f : float_nonneg f -> np_abs f = f.
Proof.
  unfold float_nonneg, np_abs. intros H. apply Prim2SF_inj.
  rewrite FloatAxioms.abs_spec.
  destruct (Prim2SF f); cbn in *; subst; reflexivity.
Qed.

(** X8. [create_ghost] without keywords on a primary of a well-formed store
    returns and appends a ghost.  The ghost is named after the parent and
    the tag, and has the parent's [az], [el], [polang], [pol], [btype],
    [amplitude], [po_file], [eg_file], [cross_pol], [deconv_q],
    [normalize], [polang_error] and [dead]; its [lmax], [mmax] and
    [fwhm] are the parent's passed through the setters.  It does not get
    the parent's [idx], [symmetric] or [sensitive_freq], which take the
    defaults of [__init__], nor the parent's cached coefficients. *)
Theorem create_ghost_inherits h self o tag :
  well_formed h -> beams h !! self = Some o -> __ghost o = false ->
  exists h' g l m f,
    __lmax o = Some l /\ __mmax o = Some m /\ __fwhm o = Some f /\
    create_ghost self tag Ov.none h = (inr tt, h') /\
    beams h' !! length (beams h) = Some g /\
    length (beams h') = S (length (beams h)) /\
    name g = ghost_name (name o) tag /\ __ghost g = true /\
    (az g = az o /\ el g = el o /\ polang g = polang o /\ pol g = pol o /\
     btype g = btype o /\ amplitude g = amplitude o /\
     po_file g = po_file o /\ eg_file g = eg_file o /\
     cross_pol g = cross_pol o /\ deconv_q g = deconv_q o /\
     normalize g = normalize o /\ polang_error g = polang_error o /\
     __dead g = __dead o) /\
    (__lmax g = Some (Z.max l 0) /\
     __mmax g = Some (Z.min m (Z.max l 0)) /\
     __fwhm g = Some (np_abs f)) /\
    (limits_nonneg o -> __lmax g = __lmax o /\ __fwhm g = __fwhm o) /\
    (0 <= l -> m <= l -> __mmax g = __mmax o) /\
    (_idx g = None /\ symmetric g = false /\
     sensitive_freq g = Kw.sensitive_freq Kw.default) /\
    (__blm g = None /\ __ghosts g = None /\ __ghost_count g = None).
Proof.
  intros W L Gh. destruct (W _ _ L) as [I _].
  assert (P : is_primary o = true).
  { unfold is_primary. rewrite I, Gh. reflexivity. }
  destruct (is_primary_inv _ P)
    as (_ & d & l & m & f & gs & c & D & Lm & M & F & Gs & C).
  pose proof (create_ghost_primary _ _ _ tag Ov.none _ _ _ _ _ _
                L Gh D Lm M F Gs C) as R.
  cbn in R.
  eexists _, _, l, m, f.
  split; [exact Lm|]. split; [exact M|]. split; [exact F|].
  split; [exact R|].
  assert (Len : length (alter (fun o0 : Beam =>
                  store___ghosts (Some (gs ++ [length (beams h)]))
                    (store___ghost_count (Some (c + 1)) o0)) self (beams h))
                = length (beams h)) by apply length_alter.
  split.
  { cbn [beams]. rewrite <- Len at 1. apply lookup_snoc. }
  split.
  { cbn [beams]. rewrite length_app, Len. cbn. lia. }
  split; [reflexivity|]. split; [reflexivity|].
  split; [repeat split; symmetry; assumption || reflexivity|].
  split; [repeat split|].
  split.
  { intros [Hl Hf]. rewrite Lm, F. cbn.
    rewrite Z.max_l by (apply Hl, Lm).
    rewrite np_abs_of_nonneg by (apply Hf, F). split; reflexivity. }
  split.
  { intros Hl Hm. rewrite M. cbn. f_equal. lia. }
  split; repeat split.
Qed.

(** X9. When the constructor rejects the keywords passed to [create_ghost]
    ([lmax=None], or [fwhm=None] with an [lmax] that gives no width),
    the call raises the constructor's exception and the store is as
    before: no ghost is added and the parent's [ghost_count] and ghost
    list are unchanged. *)
Theorem create_ghost_rejected h self o tag kwargs :
  well_formed h -> beams h !! self = Some o -> __ghost o = false ->
  spawn_accepted o kwargs = false ->
  exists c, create_ghost self tag kwargs h = (inl (Foreign c), h).
Proof.
  intros W L Gh A. destruct (W _ _ L) as [I _].
  assert (P : is_primary o = true).
  { unfold is_primary. rewrite I, Gh. reflexivity. }
  destruct (is_primary_inv _ P)
    as (_ & d & l & m & f & gs & c & D & Lm & M & F & Gs & C).
  rewrite (create_ghost_primary _ _ _ tag kwargs _ _ _ _ _ _
             L Gh D Lm M F Gs C).
  unfold spawn_accepted in A. rewrite Lm, F in A. unfold init_accepts in A.
  cbn in A. cbn [Kw.lmax Kw.fwhm ghost_opts].
  destruct (default (Some l) (Ov.lmax kwargs)) as [l'|]; [|eauto].
  destruct (init_fwhm (default (Some f) (Ov.fwhm kwargs)) (Z.max l' 0))
    as [e|f'] eqn:F'; [|discriminate A].
  destruct (init_fwhm_error _ _ _ F') as [c' ->]. eauto.
Qed.

(** ** What the constructor returns *)

Lemma init_accepts_inv kw :
  init_accepts kw = true ->
  exists l f, Kw.lmax kw = Some l /\ init_fwhm (Kw.fwhm kw) (Z.max l 0) = inr f.
Proof.
  unfold init_accepts. destruct (Kw.lmax kw) as [l|]; [|discriminate].
  destruct (init_fwhm _ _) as [e|f] eqn:F; [discriminate|]. eauto.
Qed.

(** X10. The constructor, in full.  [Beam(...)] returns exactly when [lmax] is
    a number and a width is given or can be derived from it.  It then
    returns a new object at the end of the store and changes no other:
    the object has the plain attributes as passed, [dead] as passed,
    [lmax] raised to zero if negative, [mmax] cut at that [lmax] ([lmax]
    itself for [mmax=None]), the magnitude of [fwhm] or the width derived
    from [lmax], no cached coefficients and no [ghost_idx]; a primary has
    an empty ghost list and [ghost_count = 0], a ghost has neither.
    Otherwise the call raises an interpreter or library exception and the
    store is as before. *)
Theorem init_result h kw :
  match Beam_new kw h with
  | (inr self, h') =>
      init_accepts kw = true /\
      self = length (beams h) /\ blms h' = blms h /\
      exists o l f,
        beams h' = beams h ++ [o] /\
        Kw.lmax kw = Some l /\
        init_fwhm (Kw.fwhm kw) (Z.max l 0) = inr f /\
        same_identity (blank kw) o /\
        btype o = Kw.btype kw /\ amplitude o = Kw.amplitude kw /\
        __dead o = Some (Kw.dead kw) /\
        __lmax o = Some (Z.max l 0) /\
        __mmax o = Some (match Kw.mmax kw with
                         | Some m => Z.min m (Z.max l 0)
                         | None => Z.max l 0
                         end) /\
        __fwhm o = Some f /\
        (forall v, Kw.fwhm kw = Some v -> f = np_abs v) /\
        __blm o = None /\ __ghost_idx o = None /\
        (if Kw.ghost kw then __ghosts o = None /\ __ghost_count o = None
         else __ghosts o = Some [] /\ __ghost_count o = Some 0)
  | (inl e, h') =>
      init_accepts kw = false /\ h' = h /\ exists c, e = Foreign c
  end.
Proof.
  destruct (Beam_new_cases h kw) as [(l & f & L & F & ->)|[c R]].
  - split; [unfold init_accepts; rewrite L, F; reflexivity|].
    split; [reflexivity|]. split; [reflexivity|].
    exists (built kw l f), l, f.
    split; [reflexivity|]. split; [exact L|]. split; [exact F|].
    unfold built. destruct (Kw.ghost kw) eqn:G; cbn; rewrite ?G.
    all: repeat split.
    all: intros v Hv; rewrite Hv in F; cbn in F; congruence.
  - rewrite R. split; [|split; [reflexivity | eauto]].
    destruct (init_accepts kw) eqn:A; [|reflexivity].
    destruct (init_accepts_inv _ A) as (l & f & L & F).
    rewrite (Beam_new_run _ _ _ _ L F) in R. discriminate R.
Qed.

(** X11. A negative [lmax] counts as zero.  With a width, [Beam(lmax=l,
    fwhm=v)] for [l <= 0] builds a beam with [lmax = 0] and an [mmax]
    that is not positive; without a width the same call raises
    [TypeError] (line 189 takes the magnitude of [None]) and builds
    nothing, and so does the assignment [fwhm = None] on a beam whose
    [lmax] is zero. *)
Theorem init_lmax_not_positive h kw l :
  Kw.lmax kw = Some l -> l <= 0 ->
  (Kw.fwhm kw = None -> Beam_new kw h = (inl (Foreign TypeError), h)) /\
  (forall v, Kw.fwhm kw = Some v ->
     exists o m,
       Beam_new kw h
       = (inr (length (beams h)), mkHeap (beams h ++ [o]) (blms h)) /\
       __lmax o = Some 0 /\ __mmax o = Some m /\ m <= 0 /\
       __fwhm o = Some (np_abs v)) /\
  (forall self o, beams h !! self = Some o -> __lmax o = Some 0 ->
     set_fwhm self None h = (inl (Foreign TypeError), h)).
Proof.
  intros L Hl. assert (Z0 : Z.max l 0 = 0) by lia.
  split; [|split].
  - intros F. apply (Beam_new_error _ _ _ _ L).
    rewrite F, Z0. reflexivity.
  - intros v F.
    exists (built kw l (np_abs v)),
           (match Kw.mmax kw with Some m => Z.min m 0 | None => 0 end).
    split; [apply (Beam_new_run _ _ _ _ L); rewrite F; reflexivity|].
    unfold built. rewrite Z0.
    destruct (Kw.ghost kw); cbn; repeat split; destruct (Kw.mmax kw); lia.
  - intros self o Lo Lm.
    rewrite (set_fwhm_none_run _ _ _ _ Lo Lm). reflexivity.
Qed.

(** ** The coefficient cache *)

Lemma get_blm_cached h self o r :
  beams h !! self = Some o -> __blm o = Some r ->
  get_blm self h = (inr r, h).
Proof.
  intros L B. unfold get_blm.
  rewrite (bind_ok _ _ _ _ _ (deref_run _ _ _ L)).
  destruct o; cbn in *. subst. reflexivity.
Qed.

(** X12. Once the [blm] property has returned a triplet, reading it again
    returns the same object and leaves the store as it is, also after
    [btype] has been assigned another value: the cache is not refreshed
    until [blm] is deleted. *)
Theorem blm_getter_caches h self r h' :
  get_blm self h = (inr r, h') ->
  get_blm self h' = (inr r, h') /\
  forall v,
    get_blm self (upd h' self (store_btype v))
    = (inr r, upd h' self (store_btype v)).
Proof.
  intros G. destruct (get_blm_post _ _ _ _ G) as (o & L & B).
  split; [apply (get_blm_cached _ _ _ _ L B)|].
  intros v. apply (get_blm_cached _ _ (store_btype v o)).
  - apply lookup_upd_eq, L.
  - destruct o; exact B.
Qed.

(** X13. Reading [blm] on a beam without cached coefficients fails without
    touching the store when [btype] is none of ['Gaussian'], ['PO'] and
    ['EG'] (the [ValueError] of line 235), and when [btype] is ['PO'] or
    ['EG'] and the file name of that type is [None], as it is by default
    ([os.path.splitext(None)] is a [TypeError]). *)
Theorem blm_getter_errors h self o :
  beams h !! self = Some o -> __blm o = None ->
  (btype o <> "Gaussian"%string -> btype o <> "PO"%string ->
   btype o <> "EG"%string ->
   get_blm self h
   = (inl (Raised ValueError ("btype = " ++ btype o ++ " not recognized")), h)) /\
  (btype o = "PO"%string -> po_file o = None ->
   get_blm self h = (inl (Foreign TypeError), h)) /\
  (btype o = "EG"%string -> eg_file o = None ->
   get_blm self h = (inl (Foreign TypeError), h)).
Proof.
  intros L B. unfold get_blm.
  rewrite (bind_ok _ _ _ _ _ (deref_run _ _ _ L)).
  destruct o as [? ? ? ? ? bt ? pf ef ? ? ? ? ? ? ? ? ? ? ? ? ? ? ? bl].
  cbn in *. subst bl. split; [|split].
  - intros N1 N2 N3.
    rewrite (proj2 (String.eqb_neq _ _) N1), (proj2 (String.eqb_neq _ _) N2),
      (proj2 (String.eqb_neq _ _) N3). reflexivity.
  - intros -> ->. reflexivity.
  - intros -> ->. reflexivity.
Qed.

(** X14. [gen_gaussian_blm] either fails and leaves the store as it is, or
    sets [btype] to ['Gaussian'] whatever it was and caches a newly
    allocated triplet: [get_copol_blm], with [c2_fwhm] the beam's [fwhm],
    of [gauss_blm(fwhm, lmax)] multiplied by [amplitude] unless
    [amplitude] equals 1.  Nothing else changes. *)
Theorem gen_gaussian_blm_result self h :
  (exists e, gen_gaussian_blm self h = (inl e, h)) \/
  (exists o f l g t,
      beams h !! self = Some o /\ __fwhm o = Some f /\ __lmax o = Some l /\
      gauss_blm f l = inr g /\
      get_copol_blm (scale_amplitude (amplitude o) g)
        (mkOpts None None (Some f)) = inr t /\
      gen_gaussian_blm self h
      = (inr tt,
         mkHeap
           (alter (fun o => store___blm (Some (length (blms h)))
                              (store_btype "Gaussian" o))
                  self (beams h))
           (blms h ++ [t]))).
Proof.
  unfold gen_gaussian_blm.
  destruct (beams h !! self) as [o|] eqn:L.
  2:{ left. eexists. unfold get_fwhm. rewrite ?bind_assoc.
      apply bind_err, deref_fail, L. }
  destruct (__fwhm o) as [f|] eqn:F.
  2:{ left. eexists. apply bind_err, (get_fwhm_absent _ _ _ L F). }
  rewrite (bind_ok _ _ _ _ _ (getattr_fwhm_run _ _ _ _ L F)).
  destruct (__lmax o) as [l|] eqn:Lm.
  2:{ left. eexists. apply bind_err, (getattr_absent __lmax _ _ _ L Lm). }
  rewrite (bind_ok _ _ _ _ _ (getattr_lmax_run _ _ _ _ L Lm)).
  destruct (gauss_blm f l) as [c|g] eqn:G.
  { left. eexists. apply bind_err. reflexivity. }
  rewrite (bind_ok _ _ _ g h) by reflexivity.
  rewrite (bind_ok _ _ _ _ _ (deref_run _ _ _ L)).
  rewrite (bind_ok _ _ _ _ _ (getattr_fwhm_run _ _ _ _ L F)).
  destruct (get_copol_blm (scale_amplitude (amplitude o) g)
              (mkOpts None None (Some f))) as [c|t] eqn:T.
  { left. eexists. apply bind_err. reflexivity. }
  rewrite (bind_ok _ _ _ t h) by reflexivity.
  right. exists o, f, l, g, t. repeat (split; [first [assumption | reflexivity]|]).
  rewrite (bind_ok _ _ _ _ _ (update_run _ _ _ _ L)).
  rewrite (bind_ok _ _ _ (length (blms h))
             (mkHeap (beams (upd h self (store_btype "Gaussian")))
                     (blms h ++ [t]))) by reflexivity.
  rewrite (set_blm_run _ _ (store_btype "Gaussian" o))
    by (apply lookup_upd_eq, L).
  unfold upd; cbn [beams blms]. rewrite list_alter_alter_eq. reflexivity.
Qed.

(** ** Loading coefficients from a file *)

(** X15. Unless the file has exactly three rows and the beam has [cross_pol]
    set, [load_blm] uses the first row of what it loaded and nothing
    else: the other rows of a rank-2 file do not matter. *)
Theorem load_blm_copol_uses_first_row h self o a rest kwargs :
  beams h !! self = Some o ->
  cross_pol o = false \/ length rest <> 2%nat ->
  store_loaded self (Rank2 (a :: rest)) kwargs h
  = store_loaded self (Rank1 a) kwargs h.
Proof.
  intros L C. unfold store_loaded.
  rewrite !(bind_ok _ _ _ _ _ (deref_run _ _ _ L)).
  cbn [atleast_2d length].
  replace (Z.of_nat (S (length rest)) =? 3) with (bool_decide (length rest = 2%nat)).
  - destruct C as [C|C].
    + rewrite C, andb_false_r. reflexivity.
    + rewrite (bool_decide_eq_false_2 _ C). reflexivity.
  - destruct (decide (length rest = 2%nat)) as [E|E].
    + rewrite E, bool_decide_eq_true_2 by reflexivity. reflexivity.
    + rewrite bool_decide_eq_false_2 by exact E. symmetry.
      apply Z.eqb_neq. lia.
Qed.

Lemma caught_by_IOError c : c <> IOError -> caught_by IOError (Foreign c) = false.
Proof. destruct c; cbn; congruence. Qed.

(** X16. [load_blm] falls back to the healpy reader only on [IOError]: any
    other exception of [np.load] leaves [load_blm] as it is, and the
    store is as before. *)
Theorem load_blm_other_error h self filename kwargs c :
  np_load (blm_path filename) = inl c -> c <> IOError ->
  load_blm self (Some filename) kwargs h = (inl (Foreign c), h).
Proof.
  intros N C. unfold load_blm.
  rewrite (bind_ok _ _ _ filename h) by reflexivity.
  apply bind_err. unfold try_except. rewrite N. unfold call, raise.
  rewrite (caught_by_IOError _ C). reflexivity.
Qed.

(** X17. For a name without extension, [load_blm] tries [<name>.npy], and when
    that raises [IOError] it hands the same path [<name>.npy] to the
    healpy reader: the extension was filled in before [np.load] ran, so
    [<name>.fits] is never opened.  If the healpy reader cannot open that
    path either, its exception leaves [load_blm] and the store is as
    before. *)
Theorem load_blm_no_extension h self filename pname kwargs :
  splitext filename = (pname, ""%string) ->
  np_load (pname ++ ".npy") = inl IOError ->
  load_blm self (Some filename) kwargs h
  = (blm <- load_fits self (pname ++ ".npy") ;;
     store_loaded self blm kwargs) h /\
  (forall c, fits_len (pname ++ ".npy") = inl c ->
     load_blm self (Some filename) kwargs h = (inl (Foreign c), h)).
Proof.
  intros S N.
  assert (P : blm_path filename = (pname ++ ".npy")%string).
  { unfold blm_path. rewrite S. reflexivity. }
  assert (R : load_blm self (Some filename) kwargs h
              = (blm <- load_fits self (pname ++ ".npy") ;;
                 store_loaded self blm kwargs) h).
  { unfold load_blm.
    rewrite (bind_ok _ _ _ filename h) by reflexivity.
    rewrite blm_path_fits_eq, P.
    assert (T : try_except (call (np_load (pname ++ ".npy"))) IOError
                  (load_fits self (pname ++ ".npy")) h
                = load_fits self (pname ++ ".npy") h)
      by (unfold try_except; rewrite N; reflexivity).
    unfold bind at 1. rewrite T. reflexivity. }
  split; [exact R|].
  intros c F. rewrite R. apply bind_err.
  unfold load_fits, read_fits. rewrite ?bind_assoc.
  apply bind_err. rewrite F. reflexivity.
Qed.

Lemma same_settings_refl o : same_settings o o.
Proof. repeat split. Qed.

Lemma same_settings_trans o1 o2 o3 :
  same_settings o1 o2 -> same_settings o2 o3 -> same_settings o1 o3.
Proof.
  intros [I1 H1] [I2 H2]. split; [eapply same_identity_trans; eassumption|].
  destruct o1, o2, o3; cbn in *.
  repeat (match goal with H : _ /\ _ |- _ => destruct H end).
  repeat split; congruence.
Qed.

Lemma settings_kept_refl k h : settings_kept k h h.
Proof.
  split; [reflexivity|]. intros l o L. exists o.
  split; [exact L|]. split; [apply same_settings_refl | reflexivity].
Qed.

Lemma settings_kept_stable k h0 f :
  (forall o, same_settings o (f o)) ->
  (k = true -> forall o, __mmax (f o) = __mmax o) ->
  stable (settings_kept k h0) f.
Proof.
  intros Hf Hm h l [Len B]. split.
  - unfold upd; cbn [beams]. rewrite length_alter. exact Len.
  - intros l0 o L0. destruct (B _ _ L0) as (o' & L' & S & M).
    destruct (decide (l = l0)) as [->|Ne].
    + exists (f o'). split; [apply lookup_upd_eq, L'|]. split.
      * eapply same_settings_trans; [exact S | apply Hf].
      * intros K. rewrite (Hm K). apply M, K.
    + exists o'. split; [rewrite lookup_upd_ne by exact Ne; exact L'|].
      split; assumption.
Qed.

Lemma settings_kept_alloc k h0 : stable_alloc (settings_kept k h0).
Proof. intros h t H. exact H. Qed.

Ltac settings_side :=
  first
    [ exact Logic.I
    | apply settings_kept_alloc
    | apply settings_kept_stable;
      [intros ?; repeat split | first [discriminate | intros _ ?; reflexivity]] ].

(** X18. [load_blm] writes nothing but [mmax] and the cached coefficients:
    whatever its outcome, it adds no beam and every beam has its other
    attributes as before, [lmax], [fwhm], [btype] and [amplitude]
    included.  When [np.load] reads the file, [mmax] is as before too:
    only the healpy branch touches it. *)
Theorem load_blm_writes_mmax_and_blm h self filename kwargs :
  settings_kept false h (snd (load_blm self filename kwargs h)) /\
  (forall f a, filename = Some f -> np_load (blm_path f) = inr a ->
     settings_kept true h (snd (load_blm self filename kwargs h))).
Proof.
  split.
  - assert (K : keeps (settings_kept false h) (fun _ => True)
                  (load_blm self filename kwargs)).
    { apply keeps_load_blm; intros; try settings_side.
      apply keeps_set_mmax; intros; settings_side. }
    apply (K h), settings_kept_refl.
  - intros f a -> N.
    assert (K : keeps (settings_kept true h) (fun _ => True)
                  (store_loaded self a kwargs))
      by (apply keeps_store_loaded; intros; settings_side).
    assert (R : load_blm self (Some f) kwargs h = store_loaded self a kwargs h).
    { unfold load_blm. rewrite (bind_ok _ _ _ f h) by reflexivity.
      rewrite (bind_ok _ _ _ a h); [reflexivity|].
      unfold try_except. rewrite N. reflexivity. }
    rewrite R. apply (K h), settings_kept_refl.
Qed.

(** ** Which beams a call writes *)

Section Touches.

Variable ls : list loc.

Lemma touches_ret {A} (a : A) : touches_only ls (ret a).
Proof. intros h l o L _. exact L. Qed.

Lemma touches_raise {A} e : touches_only ls (@raise A e).
Proof. intros h l o L _. exact L. Qed.

Lemma touches_call {A} (r : outcome A) : touches_only ls (call r).
Proof. destruct r; [apply touches_raise | apply touches_ret]. Qed.

Lemma touches_attr {A} (x : option A) : touches_only ls (attr x).
Proof. destruct x; [apply touches_ret | apply touches_raise]. Qed.

Lemma touches_lift {A} (r : result A) : touches_only ls (lift r).
Proof. intros h l o L _. exact L. Qed.

Lemma touches_deref l : touches_only ls (deref l).
Proof.
  intros h l0 o L _. unfold deref. destruct (beams h !! l); exact L.
Qed.

Lemma touches_bind {A B} (m : M A) (k : A -> M B) :
  touches_only ls m -> (forall a, touches_only ls (k a)) ->
  touches_only ls (bind m k).
Proof.
  intros Hm Hk h l o L N. unfold bind. specialize (Hm h l o L N).
  destruct (m h) as [[e|a] h1]; cbn in *; [exact Hm|].
  apply (Hk a h1 l o Hm N).
Qed.

Lemma touches_try {A} (body handler : M A) c :
  touches_only ls body -> touches_only ls handler ->
  touches_only ls (try_except body c handler).
Proof.
  intros Hb Hh h l o L N. unfold try_except. specialize (Hb h l o L N).
  destruct (body h) as [[e|a] h1]; cbn in *; [|exact Hb].
  destruct (caught_by c e); [apply (Hh h1 l o Hb N) | exact Hb].
Qed.

Lemma touches_for_each {A} (xs : list A) (body : A -> M unit) :
  (forall x, touches_only ls (body x)) -> touches_only ls (for_each xs body).
Proof.
  intros Hb. induction xs as [|x xs IH]; cbn [for_each].
  - apply touches_ret.
  - apply touches_bind; [apply Hb | intros _; exact IH].
Qed.

Lemma touches_update l f : l ∈ ls -> touches_only ls (update l f).
Proof.
  intros In h l0 o L N. unfold update, bind, deref.
  destruct (beams h !! l); cbn; [|exact L].
  rewrite list_lookup_alter_ne; [exact L|]. intros ->. contradiction.
Qed.

Lemma touches_new_triplet t : touches_only ls (new_triplet t).
Proof. intros h l o L _. exact L. Qed.

Lemma touches_Beam_new kw : touches_only ls (Beam_new kw).
Proof.
  intros h l o L _.
  destruct (Beam_new_cases h kw) as [(l' & f & _ & _ & ->)|[c ->]]; cbn.
  - apply lookup_app_l_Some, L.
  - exact L.
Qed.

End Touches.

Ltac touches_step :=
  lazymatch goal with
  | |- touches_only _ (bind _ _) => apply touches_bind; [|intros ?]
  | |- touches_only _ (ret _) => apply touches_ret
  | |- touches_only _ (raise _) => apply touches_raise
  | |- touches_only _ (call _) => apply touches_call
  | |- touches_only _ (attr _) => apply touches_attr
  | |- touches_only _ (lift _) => apply touches_lift
  | |- touches_only _ (deref _) => apply touches_deref
  | |- touches_only _ (try_except _ _ _) => apply touches_try
  | |- touches_only _ (for_each _ _) => apply touches_for_each; intros ?
  | |- touches_only _ (update _ _) =>
      apply touches_update; repeat first [left | right]
  | |- touches_only _ (new_triplet _) => apply touches_new_triplet
  | |- touches_only _ (Beam_new _) => apply touches_Beam_new
  | |- touches_only _ (if ?b then _ else _) => destruct b
  | |- touches_only _ (match ?x with _ => _ end) => destruct x
  end.
Ltac touches_auto :=
  repeat first
    [ touches_step
    | progress unfold get_ghost, get_ghosts, get_ghost_count, get_ghost_idx,
        get_dead, get_lmax, get_fwhm, get_mmax, set_lmax, set_fwhm, set_mmax,
        set_ghost_count, set_ghost_idx, set_blm, del_blm, scale_amplitude,
        row, update_mmax, read_fits, load_fits, store_loaded,
        gen_gaussian_blm, load_blm, get_blm, reuse_blm ].

Lemma touches_run c ls : writes c = Some ls -> touches_only ls (run c).
Proof.
  destruct c; cbn [writes run]; try discriminate;
    try (intros [= <-]; touches_auto; fail).
  destruct partner as [p|]; intros [= <-]; touches_auto.
Qed.

(** X19. A call other than the [dead] setter, [create_ghost] and [delete_blm]
    writes only the beam it is called on ([reuse_blm] also the partner):
    every other beam of the store is in place and unchanged after the
    call, whatever its outcome.  The constructor changes no existing
    beam. *)
Theorem calls_write_their_target c ls h l o :
  writes c = Some ls -> beams h !! l = Some o -> l ∉ ls ->
  beams (snd (run c h)) !! l = Some o.
Proof. intros Hw. apply (touches_run c ls Hw). Qed.

(** ** Assigning [lmax] and then [mmax] *)

Lemma set_lmax_outcome h self v :
  (exists e, set_lmax self v h = (inl e, h)) \/
  (exists o n,
      beams h !! self = Some o /\
      set_lmax self v h = (inr tt, upd h self (store___lmax (Some n)))).
Proof.
  destruct (beams h !! self) as [o|] eqn:L.
  - destruct v as [v|].
    + right. exists o, (Z.max v 0). split; [reflexivity|].
      apply (set_lmax_run _ _ _ _ L).
    + destruct (__fwhm o) as [f|] eqn:F.
      * destruct (int_of_float (2 * np_pi / np_radians (f / 60) * f1_4))
          as [e|n] eqn:N.
        -- left. exists e. unfold set_lmax.
           rewrite (bind_ok _ _ _ _ _ (getattr_fwhm_run _ _ _ _ L F)).
           apply bind_err. unfold lift. rewrite N. reflexivity.
        -- right. exists o, n. split; [reflexivity|].
           apply (set_lmax_None_run _ _ _ _ _ L F N).
      * left. eexists. unfold set_lmax.
        apply bind_err, (get_fwhm_absent _ _ _ L F).
  - left. eexists.
    destruct v as [v|]; unfold set_lmax, update, get_fwhm; rewrite ?bind_assoc;
      apply bind_err, deref_fail, L.
Qed.

(** X20. An assignment to [lmax] may leave [mmax] above the new [lmax]; any
    assignment to [mmax] on the same beam right after it, [mmax = None]
    included, restores [mmax <= lmax].  So the pair of assignments keeps
    [mmax <= lmax] on every beam of the store, whatever values are
    assigned and whether or not the first assignment raises. *)
Theorem lmax_then_mmax_keeps_limits h self v m :
  all_mmax_le_lmax h ->
  all_mmax_le_lmax (after_all [SetLmax self v; SetMmax self m] h).
Proof.
  intros H. cbn [after_all foldl run].
  destruct (set_lmax_outcome h self v) as [[e ->]|(o & n & L & ->)]; cbn [snd].
  - apply limits_at_everywhere.
    apply (limits_at_set_mmax 0 (fun _ => True) self m h).
    apply limits_at_everywhere, H.
  - set (f := store___lmax (Some n)).
    rewrite (set_mmax_run _ _ (f o) n m (lookup_upd_eq _ _ f _ L) eq_refl).
    cbn [snd]. unfold all_mmax_le_lmax, upd; cbn [beams].
    rewrite list_alter_alter_eq.
    apply Forall_alter; [exact H|]. intros o' L' _.
    apply (mmax_le_lmax_store_mmax _ _ n); [reflexivity|].
    destruct m; lia.
Qed.

(** ** Deriving [lmax] from the width *)

(** X21. The assignment [lmax = None] on a beam with width [fwhm] stores
    [int(2 pi / radians(fwhm / 60) * 1.4)], which is not negative.  When
    the conversion to [int] fails the exception leaves the setter and
    [lmax] is as before: a width of zero gives an infinite quotient and
    an [OverflowError], a NaN width a [ValueError]. *)
Theorem lmax_from_width h self o f :
  beams h !! self = Some o -> __fwhm o = Some f ->
  (forall n,
      int_of_float (2 * np_pi / np_radians (f / 60) * f1_4) = inr n ->
      set_lmax self None h = (inr tt, upd h self (store___lmax (Some n))) /\
      (float_nonneg f -> 0 <= n)) /\
  (forall e,
      int_of_float (2 * np_pi / np_radians (f / 60) * f1_4) = inl e ->
      set_lmax self None h = (inl e, h)) /\
  (f = 0%float -> set_lmax self None h = (inl (Foreign OverflowError), h)) /\
  (f = nan -> set_lmax self None h = (inl (Foreign ValueError), h)).
Proof.
  intros L F.
  assert (E : forall e,
             int_of_float (2 * np_pi / np_radians (f / 60) * f1_4) = inl e ->
             set_lmax self None h = (inl e, h)).
  { intros e N. unfold set_lmax.
    rewrite (bind_ok _ _ _ _ _ (getattr_fwhm_run _ _ _ _ L F)).
    apply bind_err. unfold lift. rewrite N. reflexivity. }
  split; [|split; [exact E|split]].
  - intros n N. split; [apply (set_lmax_None_run _ _ _ _ _ L F N)|].
    intros Hf. apply (derived_lmax_nonneg _ _ Hf N).
  - intros ->. apply E. reflexivity.
  - intros ->. apply E. reflexivity.
Qed.

(** ** [reuse_blm] and [ghost_idx] *)

(** X22. [reuse_blm] copies [ghost_idx] only from a ghost to a ghost: when the
    target or the partner is a primary, the target's [ghost_idx] (or its
    absence) is as before the call, whatever the outcome. *)
Theorem reuse_blm_keeps_ghost_idx h self p os op :
  beams h !! self = Some os -> beams h !! p = Some op ->
  __ghost os && __ghost op = false ->
  exists os',
    beams (snd (reuse_blm self (IsBeam p) h)) !! self = Some os' /\
    __ghost_idx os' = __ghost_idx os.
Proof.
  intros Ls Lp G.
  destruct (extends_run (ReuseBlm self (IsBeam p)) h) as [B _].
  destruct (B _ _ Ls) as (os' & Ls' & _). cbn [run] in Ls'.
  exists os'. split; [exact Ls'|].
  set (P := fun (l : nat) (o : Beam) => l = self -> __ghost_idx o = __ghost_idx os).
  assert (Bl : ghost_blind P).
  { intros l o o' _ I Ho E. rewrite I. apply Ho, E. }
  assert (R : reuse_blm self (IsBeam p) h = reuse_from self p h).
  { rewrite reuse_blm_unfold.
    rewrite (bind_ok _ _ _ _ _ (get_ghost_run _ _ _ Lp)).
    destruct (__ghost op) eqn:Gp.
    - rewrite (bind_ok _ _ _ _ _ (get_ghost_run _ _ _ Ls)).
      rewrite andb_true_r in G. rewrite G. reflexivity.
    - reflexivity. }
  rewrite R in Ls'.
  assert (E0 : everywhere P h).
  { intros l o Lo ->. congruence. }
  destruct (keeps_reuse_from P self p Bl h E0) as [E1 _].
  apply (E1 self os' Ls' eq_refl).
Qed.

(** ** Offsets *)

Lemma get_offsets_run h self o :
  beams h !! self = Some o ->
  get_offsets self h = (inr (az o, el o, (polang o + polang_error o)%float), h).
Proof.
  intros L. unfold get_offsets, get_polang_truth.
  rewrite (bind_ok _ _ _ _ _ (deref_run _ _ _ L)).
  rewrite ?bind_assoc.
  rewrite (bind_ok _ _ _ _ _ (deref_run _ _ _ L)). reflexivity.
Qed.

(** X23. [get_offsets] returns [az], [el] and [polang + polang_error] of
    the beam and leaves the store as it is, and no sequence of calls of
    the class changes what it returns for an existing beam. *)
Theorem get_offsets_stable calls h self o :
  beams h !! self = Some o ->
  get_offsets self h
  = (inr (az o, el o, (polang o + polang_error o)%float), h) /\
  get_offsets self (after_all calls h)
  = (inr (az o, el o, (polang o + polang_error o)%float), after_all calls h).
Proof.
  intros L. split; [apply (get_offsets_run _ _ _ L)|].
  destruct (extends_after calls h) as [B _].
  destruct (B _ _ L) as (o' & L' & S).
  rewrite (get_offsets_run _ _ _ L').
  destruct S as (-> & -> & -> & _ & _ & _ & _ & _ & _ & _ & _ & -> & _).
  reflexivity.
Qed.

(** ** The cache binding *)

(** X24. Assigning [blm] makes the property return the assigned triplet
    without building anything; deleting it then removes the binding and
    nothing else, and a second deletion raises [AttributeError] and
    leaves the store as it is. *)
Theorem blm_set_get_del h self o r :
  beams h !! self = Some o ->
  let h1 := upd h self (store___blm (Some r)) in
  let h2 := upd h self (store___blm None) in
  set_blm self r h = (inr tt, h1) /\
  get_blm self h1 = (inr r, h1) /\
  del_blm self h1 = (inr tt, h2) /\
  del_blm self h2 = (inl (Foreign AttributeError), h2).
Proof.
  intros L h1 h2.
  assert (L1 : beams h1 !! self = Some (store___blm (Some r) o))
    by apply (lookup_upd_eq _ _ _ _ L).
  assert (L2 : beams h2 !! self = Some (store___blm None o))
    by apply (lookup_upd_eq _ _ _ _ L).
  split; [apply (set_blm_run _ _ _ _ L)|].
  split; [apply (get_blm_cached _ _ _ _ L1); reflexivity|].
  split.
  - unfold del_blm.
    rewrite (bind_ok _ _ _ _ _ (deref_run _ _ _ L1)).
    rewrite (bind_ok _ _ _ r h1) by reflexivity.
    rewrite (update_run _ _ _ _ L1). f_equal.
    unfold h1, h2, upd; cbn [beams blms]. f_equal.
    rewrite list_alter_alter_eq. reflexivity.
  - unfold del_blm.
    rewrite (bind_ok _ _ _ _ _ (deref_run _ _ _ L2)).
    apply bind_err. reflexivity.
Qed.

(** ** What a successful load leaves behind *)

Lemma row_inv (blm : list ndarray) i a h h' :
  row blm i h = (inr a, h') -> h' = h.
Proof.
  unfold row. destruct (blm !! i); [|discriminate]. intros [= _ <-]. reflexivity.
Qed.

Lemma store_loaded_inv self blm kwargs h h' :
  store_loaded self blm kwargs h = (inr tt, h') ->
  exists t,
    h' = mkHeap (alter (store___blm (Some (length (blms h)))) self (beams h))
                (blms h ++ [t]) /\
    is_Some (beams h !! self).
Proof.
  unfold store_loaded.
  intros (o & ? & [-> L]%deref_inv & R)%bind_inv.
  assert (Fin : forall t h0,
             (r <- new_triplet t ;; set_blm self r) h = (inr tt, h0) ->
             h0 = mkHeap
                    (alter (store___blm (Some (length (blms h)))) self (beams h))
                    (blms h ++ [t])).
  { intros t h0 (r & hn & N & S)%bind_inv.
    unfold new_triplet in N. injection N as <- <-.
    apply update_inv in S as [-> _]. reflexivity. }
  destruct (_ && _).
  - apply bind_inv in R as (b & ? & [_ ->]%call_inv & R).
    apply bind_inv in R as (o2 & ? & [-> _]%deref_inv & R).
    apply bind_inv in R as (b0 & ? & ->%row_inv & R).
    apply bind_inv in R as (b1 & ? & ->%row_inv & R).
    apply bind_inv in R as (b2 & ? & ->%row_inv & R).
    exists (b0, b1, b2). split; [apply Fin, R | eauto].
  - apply bind_inv in R as (b & ? & ->%row_inv & R).
    apply bind_inv in R as (o2 & ? & [-> _]%deref_inv & R).
    apply bind_inv in R as (t & ? & [_ ->]%call_inv & R).
    exists t. split; [apply Fin, R | eauto].
Qed.

Lemma load_blm_read_blms self filename h :
  blms (snd (try_except (call (np_load (blm_path filename))) IOError
               (load_fits self (blm_path_fits filename)) h)) = blms h.
Proof.
  assert (K : keeps (fun h' => blms h' = blms h) (fun _ => True)
                (try_except (call (np_load (blm_path filename))) IOError
                   (load_fits self (blm_path_fits filename)))).
  { apply keeps_try.
    - apply keeps_call. intros; exact Logic.I.
    - apply keeps_load_fits; intros; try exact Logic.I.
      apply keeps_set_mmax; [intros; exact Logic.I|].
      intros ? ? ? E. exact E. }
  apply (K h). reflexivity.
Qed.

(** X25. When [load_blm] returns, it has allocated exactly one triplet,
    after those of the store, and the beam's [blm] is that new object:
    the triplet the beam held before is neither rewritten nor rebound on
    the beams that share it. *)
Theorem load_blm_binds_fresh_triplet h self filename kwargs h' :
  load_blm self filename kwargs h = (inr tt, h') ->
  exists t o',
    blms h' = blms h ++ [t] /\
    beams h' !! self = Some o' /\
    __blm o' = Some (length (blms h)) /\
    blms h' !! length (blms h) = Some t.
Proof.
  unfold load_blm. intros (f & h0 & F & R)%bind_inv.
  assert (h0 = h) as ->.
  { destruct filename; [injection F as _ <-; reflexivity | discriminate F]. }
  apply bind_inv in R as (blm & h1 & T & S).
  pose proof (load_blm_read_blms self f h) as B. rewrite T in B. cbn [snd] in B.
  apply store_loaded_inv in S as (t & -> & [o1 L1]).
  exists t, (store___blm (Some (length (blms h1))) o1). cbn [blms beams].
  rewrite B. split; [reflexivity|]. split; [|split].
  - rewrite list_lookup_alter_eq, L1. reflexivity.
  - reflexivity.
  - apply list_lookup_middle. reflexivity.
Qed.

End Detector.

(** ** A concrete world

    The witnesses below run the model in a small world: arrays are lists
    of integers, there is no [.npy] file, and three healpy files exist. *)

Module Demo.

Definition ndarray : Type := list Z.

Definition np_size (a : ndarray) : Z := Z.of_nat (length a).
Definition np_zeros (n : Z) : outcome ndarray :=
  if n <? 0 then inl ValueError else inr (repeat 0 (Z.to_nat n)).
Definition np_zeros_like (a : ndarray) : ndarray := repeat 0 (length a).
Definition np_set_prefix (a : ndarray) (n : Z) (r : ndarray)
  : outcome ndarray :=
  if (length r <=? length a)%nat then inr (r ++ drop (length r) a)
  else inl ValueError.
Definition np_imul (a : ndarray) (x : float) : ndarray := a.
Definition np_load (path : string) : outcome (loaded ndarray) := inl IOError.

Definition splitext (filename : string) : string * string :=
  (if String.eqb filename "three.fits" then ("three", ".fits")
   else if String.eqb filename "bad.fits" then ("bad", ".fits")
   else if String.eqb filename "one.fits" then ("one", ".fits")
   else (filename, ""))%string.

(** [three.fits] and [bad.fits] have three channels, with limits 2, 2, 2
    and 2, 1, 2; [one.fits] has one channel with limit 2. *)
Definition fits_len (path : string) : outcome Z :=
  if String.eqb path "three.fits" then inr 4
  else if String.eqb path "bad.fits" then inr 4
  else if String.eqb path "one.fits" then inr 2
  else inl IOError.
Definition read_alm (path : string) (hdu : Z)
  : outcome (ndarray * option Z) :=
  if String.eqb path "three.fits" then
    if (1 <=? hdu) && (hdu <=? 3) then inr ([hdu; 0; 0], Some 2)
    else inl IndexError
  else if String.eqb path "bad.fits" then
    if hdu =? 2 then inr ([2; 0], Some 1)
    else if (1 <=? hdu) && (hdu <=? 3) then inr ([hdu; 0; 0], Some 2)
    else inl IndexError
  else if String.eqb path "one.fits" then
    if hdu =? 1 then inr ([1; 0; 0], Some 2) else inl IndexError
  else inl IOError.
Definition Alm_getlmax (size : Z) (mmax : option Z) : Z := size - 1.
Definition Alm_getsize (lmax : Z) : Z := lmax + 1.

Definition gauss_blm (fwhm : float) (lmax : Z) : outcome ndarray :=
  inr [1; 0; 0].
Definition get_copol_blm (blm : ndarray) (opts : blm_opts)
  : outcome (ndarray * ndarray * ndarray) := inr (blm, blm, blm).
Definition scale_blm (blm : list ndarray) (opts : blm_opts)
  : outcome (list ndarray) := inr blm.

(** [f] in this world, for an [f] that depends on the whole world and for
    one that does not use [gauss_blm]. *)
Abbreviation here f :=
  (f ndarray np_size np_zeros np_zeros_like np_set_prefix np_imul np_load
     splitext fits_len read_alm Alm_getlmax Alm_getsize gauss_blm
     get_copol_blm scale_blm).
Abbreviation loading f :=
  (f ndarray np_size np_zeros np_zeros_like np_set_prefix np_imul np_load
     splitext fits_len read_alm Alm_getlmax Alm_getsize
     get_copol_blm scale_blm).

(** The methods in this world. *)
Definition run : method -> M ndarray unit := here run.
Definition load_blm : nat -> option string -> blm_opts -> M ndarray unit :=
  loading load_blm.
Definition reuse_blm : nat -> pyobj -> M ndarray unit := here reuse_blm.

(** The state after a sequence of calls. *)
Definition after (calls : list method) (h : heap ndarray) : heap ndarray :=
  foldl (fun h c => snd (run c h)) h calls.

Definition empty : heap ndarray := mkHeap ndarray [] [].

(** [b = Beam(fwhm=43.)] *)
Definition kw43 : Kw.t := Kw.with_fwhm (Some 43%float) Kw.default.
Definition h1 : heap ndarray := after [New kw43] empty.

(** [b.create_ghost()], once and twice. *)
Definition h2 : heap ndarray :=
  after [CreateGhost 0 (Some "ghost"%string) Ov.none] h1.
Definition h3 : heap ndarray :=
  after [CreateGhost 0 (Some "ghost"%string) Ov.none] h2.

(** [b.lmax = 5], then [t = Beam()] *)
Definition h_pair : heap ndarray :=
  after [SetLmax 0 (Some 5); New Kw.default] h1.

(** The attributes of the beam at [l]. *)
Definition mmax_of (h : heap ndarray) (l : nat) : option Z :=
  o ← beams ndarray h !! l; __mmax o.
Definition lmax_of (h : heap ndarray) (l : nat) : option Z :=
  o ← beams ndarray h !! l; __lmax o.

Definition no_opts : blm_opts := mkOpts None None None.

End Demo.

(** [Beam(fwhm=43., lmax=None)] raises, while [b = Beam(fwhm=43.)]
    followed by [b.lmax = None] derives 703. *)
Example init_43_lmax_None :
  Beam_new Demo.ndarray (Kw.with_lmax None Demo.kw43) Demo.empty
  = (inl (Foreign AttributeError), Demo.empty).
Proof. reflexivity. Qed.

Example set_lmax_None_43 :
  Demo.lmax_of (Demo.after [SetLmax 0 None] Demo.h1) 0 = Some 703.
Proof. reflexivity. Qed.

(** ** The theorems at concrete inputs *)

(** C2: after [b.lmax = 5] has left [b] with [mmax = 700] above its
    [lmax], [t.mmax = 900] on the other beam keeps [mmax <= lmax] on
    it. *)
Lemma mmax_le_lmax_kept_witness :
  exists o',
    beams Demo.ndarray
      (snd (Demo.run (SetMmax 1 (Some 900)) Demo.h_pair)) !! 1%nat
    = Some o' /\
    mmax_le_lmax o' = true.
Proof.
  refine (proj1 (proj1 (Demo.here mmax_le_lmax_kept
                          (SetMmax 1 (Some 900)) Demo.h_pair _) eq_refl)
            1%nat _ eq_refl eq_refl).
  repeat constructor.
Defined.

(** C2 fails for an assignment to [lmax]: after [b.lmax = 5] the beam
    still has [mmax = 700]. *)
Lemma lmax_assignment_breaks_mmax_le_lmax :
  all_mmax_le_lmax Demo.ndarray Demo.h1 /\
  ~ all_mmax_le_lmax Demo.ndarray
      (snd (Demo.run (SetLmax 0 (Some 5)) Demo.h1)) /\
  Demo.lmax_of (snd (Demo.run (SetLmax 0 (Some 5)) Demo.h1)) 0 = Some 5 /\
  Demo.mmax_of (snd (Demo.run (SetLmax 0 (Some 5)) Demo.h1)) 0 = Some 700.
Proof.
  split; [apply all_mmax_le_lmax_forallb; reflexivity|].
  split; [|split; reflexivity].
  rewrite all_mmax_le_lmax_forallb. vm_compute. discriminate.
Qed.

(** C3: [b.dead = True] on a primary with two ghosts. *)
Lemma dead_setter_cascade_witness :
  exists h',
    set_dead Demo.ndarray 0 true Demo.h3 = (inr tt, h') /\
    get_dead Demo.ndarray 0 h' = (inr true, h') /\
    get_dead Demo.ndarray 1 h' = (inr true, h') /\
    get_dead Demo.ndarray 2 h' = (inr true, h').
Proof.
  destruct (dead_setter_cascade Demo.ndarray Demo.h3 0 _ true eq_refl)
    as [P _].
  destruct (P [1; 2]%nat) as (h' & R & _ & _ & D).
  { split; [reflexivity|]. split; [reflexivity|].
    intros g [->|[->|[]%elem_of_nil]%elem_of_cons]%elem_of_cons;
      eexists; repeat split; reflexivity. }
  exists h'. split; [exact R|].
  repeat split; apply D; [left|right|right]; try reflexivity;
    [left | right; left].
Defined.

(** C4: two calls of [create_ghost] on [b = Beam(fwhm=43.)]. *)
Lemma create_ghost_registers_witness :
  exists h',
    spawn_all Demo.ndarray 0
      [(Some "a"%string, Ov.none); (None, Ov.none)] Demo.h1
    = (inr tt, h') /\
    length (beams Demo.ndarray h') = 3%nat.
Proof.
  destruct (create_ghost_registers Demo.ndarray
              [(Some "a"%string, Ov.none); (None, Ov.none)]
              Demo.h1 0 _ [] 0 eq_refl eq_refl eq_refl eq_refl)
    as (h' & R & Len & _).
  { repeat constructor. }
  exists h'. split; [exact R | exact Len].
Defined.

(** C5: [g.delete_blm()] on the ghost of [h2]. *)
Lemma delete_blm_on_ghost_raises_witness :
  delete_blm Demo.ndarray 1 true Demo.h2
  = (inl (Foreign AttributeError), Demo.h2).
Proof.
  eapply delete_blm_on_ghost_raises; reflexivity.
Defined.


(** C7: [t.reuse_blm(b)] for two fresh primaries. *)
Lemma reuse_blm_shares_witness :
  exists os op r,
    beams Demo.ndarray
      (snd (Demo.reuse_blm 1 (IsBeam 0) (Demo.after [New Kw.default] Demo.h1)))
      !! 1%nat = Some os /\
    beams Demo.ndarray
      (snd (Demo.reuse_blm 1 (IsBeam 0) (Demo.after [New Kw.default] Demo.h1)))
      !! 0%nat = Some op /\
    __blm os = Some r /\ __blm op = Some r.
Proof.
  destruct (Demo.here reuse_blm_shares
              (Demo.after [New Kw.default] Demo.h1) 1 0 _ eq_refl)
    as (os & op & r & lp & mp & Ls & Lp & Bs & Bp & _).
  exists os, op, r. repeat split; assumption.
Defined.

(** C7 fails for [mmax] when the partner has [mmax > lmax]: the partner
    of [h_pair] has [lmax = 5] and [mmax = 700], and the target ends with
    [mmax = 5]. *)
Lemma reuse_blm_clamps_mmax :
  fst (Demo.reuse_blm 1 (IsBeam 0) Demo.h_pair) = inr tt /\
  Demo.mmax_of (snd (Demo.reuse_blm 1 (IsBeam 0) Demo.h_pair)) 0 = Some 700 /\
  Demo.mmax_of (snd (Demo.reuse_blm 1 (IsBeam 0) Demo.h_pair)) 1 = Some 5.
Proof. repeat split; reflexivity. Qed.

(** C8: [g.create_ghost()] on the ghost of [h2]. *)
Lemma create_ghost_on_ghost_raises_witness :
  create_ghost Demo.ndarray 1 (Some "again"%string) Ov.none Demo.h2
  = (inl (Raised RuntimeError "Ghost cannot have ghosts"), Demo.h2).
Proof. eapply create_ghost_on_ghost_raises; reflexivity. Defined.

(** C9: [bad.fits] reports the limits 2, 1, 2. *)
Lemma load_blm_mmax_mismatch_witness :
  fst (Demo.load_blm 0 (Some "bad.fits"%string) Demo.no_opts Demo.h1)
  = inl mmax_mismatch /\
  snd (Demo.load_blm 0 (Some "bad.fits"%string) Demo.no_opts Demo.h1)
  = Demo.h1.
Proof.
  destruct (Demo.loading load_blm_mmax_mismatch
              Demo.h1 0 "bad.fits"%string Demo.no_opts
              _ (Some 2) _ _ _ (Some 1) _ (Some 2)
              eq_refl eq_refl eq_refl eq_refl eq_refl eq_refl eq_refl)
    as [[_ H1] H2].
  assert (N : ~ (Some 2 = Some 1 /\ Some 1 = Some 2)) by (intros [[=] _]).
  split; [apply H1, N | apply H2, N].
Defined.

(** C10: [b.fwhm = -30.] stores 30. *)
Lemma fwhm_setter_stores_magnitude_witness :
  exists h',
    set_fwhm Demo.ndarray 0 (Some (-30)%float) Demo.h1 = (inr tt, h') /\
    get_fwhm Demo.ndarray 0 h' = (inr 30%float, h').
Proof.
  eexists.
  refine (proj1 (fwhm_setter_stores_magnitude
                   Demo.ndarray Demo.h1 0 _ (-30)%float _)).
  reflexivity.
Defined.

(** ** More concrete inputs

    A second world with numpy files: [rows.npy] holds three rows,
    [pair.npy] two, [corrupt.npy] cannot be unpickled, and no other file
    exists. *)

Module Files.

Definition np_load (path : string) : outcome (loaded Demo.ndarray) :=
  if String.eqb path "rows.npy" then inr (Rank2 _ [[1; 0]; [2; 0]; [3; 0]])
  else if String.eqb path "pair.npy" then inr (Rank2 _ [[1; 0]; [2; 0]])
  else if String.eqb path "corrupt.npy" then inl ValueError
  else inl IOError.

Definition splitext (filename : string) : string * string :=
  (if String.eqb filename "rows.npy" then ("rows", ".npy")
   else if String.eqb filename "pair.npy" then ("pair", ".npy")
   else if String.eqb filename "corrupt.npy" then ("corrupt", ".npy")
   else (filename, ""))%string.

Definition fits_len (path : string) : outcome Z := inl IOError.
Definition read_alm (path : string) (hdu : Z)
  : outcome (Demo.ndarray * option Z) := inl IOError.

(** [f] in this world, for an [f] that does not use [gauss_blm]. *)
Abbreviation loading f :=
  (f Demo.ndarray Demo.np_size Demo.np_zeros Demo.np_zeros_like
     Demo.np_set_prefix Demo.np_imul np_load splitext fits_len read_alm
     Demo.Alm_getlmax Demo.Alm_getsize Demo.get_copol_blm Demo.scale_blm).

Definition load_blm : nat -> option string -> blm_opts -> M Demo.ndarray unit :=
  loading load_blm.

End Files.

Module Inputs.

(** The state after a sequence of calls in the first world. *)
Definition after : list method -> heap Demo.ndarray -> heap Demo.ndarray :=
  Demo.here after_all.

(** [b = Beam(fwhm=43.); b.create_ghost(); b.blm; b.ghosts[0].blm] *)
Definition h2_cached : heap Demo.ndarray :=
  after [GetBlm 0; GetBlm 1] Demo.h2.

(** [b = Beam(fwhm=43.); b.btype = 'PO'] *)
Definition h1_po : heap Demo.ndarray :=
  after [SetBtype 0 "PO"%string] Demo.h1.

(** The keywords [lmax=None] of [create_ghost]. *)
Definition ov_lmax_none : Ov.t :=
  Ov.mk None None None None None None None (Some None) None None None None
        None None None None None None None None None.

(** [Beam(lmax=0)] *)
Definition kw_lmax0 : Kw.t := Kw.with_lmax (Some 0) Kw.default.

End Inputs.

(** The stores used below are well formed. *)
Ltac wf_concrete :=
  let l := fresh "l" in
  let o := fresh "o" in
  let L := fresh "L" in
  intros l o L;
  repeat (destruct l as [|l];
          [ vm_compute in L; injection L as <-;
            split; [reflexivity|];
            let gs := fresh "gs" in
            let g := fresh "g" in
            let Gs := fresh "Gs" in
            let In := fresh "In" in
            intros gs g Gs In; vm_compute in Gs;
            first
              [ discriminate Gs
              | injection Gs as <-;
                repeat (apply elem_of_cons in In as [->|In];
                        [eexists; split; reflexivity|]);
                apply elem_of_nil in In; destruct In ]
          | ]);
  vm_compute in L; discriminate L.

Lemma h1_well_formed : well_formed Demo.ndarray Demo.h1.
Proof. wf_concrete. Qed.

Lemma h2_well_formed : well_formed Demo.ndarray Demo.h2.
Proof. wf_concrete. Qed.

Lemma h2_cached_well_formed : well_formed Demo.ndarray Inputs.h2_cached.
Proof. wf_concrete. Qed.

(** ** The further theorems at concrete inputs *)

(** [b.lmax = -3; b.fwhm = -5.] on [b = Beam(fwhm=43.)]. *)
Lemma lmax_fwhm_never_negative_witness :
  all_limits_nonneg Demo.ndarray
    (Inputs.after [SetLmax 0 (Some (-3)); SetFwhm 0 (Some (-5)%float)] Demo.h1).
Proof.
  refine (proj1 (Demo.here lmax_fwhm_never_negative
                   [SetLmax 0 (Some (-3)); SetFwhm 0 (Some (-5)%float)]
                   Demo.h1 _)).
  repeat constructor.
  - intros l E. vm_compute in E. injection E as <-. lia.
  - intros f E. vm_compute in E. injection E as <-. reflexivity.
Defined.

(** The primary of [h1] after [b.lmax = 5; b.create_ghost()]. *)
Lemma identity_never_changes_witness :
  exists o o',
    beams Demo.ndarray Demo.h1 !! 0%nat = Some o /\
    beams Demo.ndarray
      (Inputs.after [SetLmax 0 (Some 5); CreateGhost 0 None Ov.none] Demo.h1)
      !! 0%nat = Some o' /\
    same_identity o o'.
Proof.
  eexists.
  destruct (Demo.here identity_never_changes
              [SetLmax 0 (Some 5); CreateGhost 0 None Ov.none]
              Demo.h1 0%nat _ eq_refl) as (o' & L & S).
  exists o'. split; [reflexivity|]. split; assumption.
Defined.

(** [b.dead = True; b.create_ghost()] on the store [h2]. *)
Lemma store_stays_well_formed_witness :
  well_formed Demo.ndarray
    (Inputs.after [SetDead 0 true; CreateGhost 0 None Ov.none] Demo.h2).
Proof.
  exact (proj1 (Demo.here store_stays_well_formed
                  [SetDead 0 true; CreateGhost 0 None Ov.none]
                  Demo.h2 h2_well_formed)).
Defined.

(** The ghost of [h2] has neither [ghosts] nor [ghost_count]. *)
Lemma property_reads_witness :
  get_ghosts Demo.ndarray 1 Demo.h2 = (inl (Foreign AttributeError), Demo.h2) /\
  get_ghost_count Demo.ndarray 1 Demo.h2
  = (inl (Foreign AttributeError), Demo.h2).
Proof.
  exact (proj2 (proj2 (property_reads Demo.ndarray Demo.h2 1 _
                         h2_well_formed eq_refl)) eq_refl).
Defined.

(** [b.dead = True] on the primary of [h2]. *)
Lemma dead_setter_returns_witness :
  exists h',
    set_dead Demo.ndarray 0 true Demo.h2 = (inr tt, h') /\
    get_dead Demo.ndarray 0 h' = (inr true, h').
Proof.
  destruct (dead_setter_returns Demo.ndarray Demo.h2 0 _ true
              h2_well_formed eq_refl) as (h' & R & D & _).
  exists h'. split; assumption.
Defined.

(** [b.delete_blm()] when the primary and its ghost have coefficients. *)
Lemma delete_blm_on_primary_clears_witness :
  exists h',
    delete_blm Demo.ndarray 0 true Inputs.h2_cached = (inr tt, h') /\
    (__blm <$> beams Demo.ndarray h' !! 0%nat) = Some None /\
    (__blm <$> beams Demo.ndarray h' !! 1%nat) = Some None.
Proof.
  destruct (delete_blm_on_primary_clears Demo.ndarray Inputs.h2_cached 0 _ true
              h2_cached_well_formed eq_refl eq_refl)
    as (h' & gs & Gs & R & _ & L).
  injection Gs as <-.
  exists h'. split; [exact R|]. rewrite !L. split; reflexivity.
Defined.

(** [b.create_ghost(tag='ghost')] on a primary without name. *)
Lemma create_ghost_inherits_witness :
  exists h' g,
    create_ghost Demo.ndarray 0 (Some "ghost"%string) Ov.none Demo.h1
    = (inr tt, h') /\
    beams Demo.ndarray h' !! 1%nat = Some g /\
    name g = Some "ghost"%string /\ __lmax g = Some 700 /\ __blm g = None.
Proof.
  destruct (create_ghost_inherits Demo.ndarray Demo.h1 0 _
              (Some "ghost"%string) h1_well_formed eq_refl eq_refl)
    as (h' & g & l & m & f & Lm & _ & _ & R & Lg & _ & N & _ & _
        & (Hl & _) & _ & _ & _ & (B & _)).
  injection Lm as <-.
  exists h', g. repeat split; assumption.
Defined.

(** [b.create_ghost(lmax=None)] adds nothing. *)
Lemma create_ghost_rejected_witness :
  exists c,
    create_ghost Demo.ndarray 0 (Some "ghost"%string) Inputs.ov_lmax_none
      Demo.h1
    = (inl (Foreign c), Demo.h1).
Proof.
  exact (create_ghost_rejected Demo.ndarray Demo.h1 0 _
           (Some "ghost"%string) Inputs.ov_lmax_none
           h1_well_formed eq_refl eq_refl eq_refl).
Defined.

(** [Beam(lmax=0)] *)
Lemma init_lmax_not_positive_witness :
  Beam_new Demo.ndarray Inputs.kw_lmax0 Demo.empty
  = (inl (Foreign TypeError), Demo.empty).
Proof.
  refine (proj1 (init_lmax_not_positive Demo.ndarray Demo.empty
                   Inputs.kw_lmax0 0 eq_refl _) eq_refl).
  lia.
Defined.

(** [b.blm] twice. *)
Lemma blm_getter_caches_witness :
  exists r h',
    Demo.here get_blm 0%nat Demo.h1 = (inr r, h') /\
    Demo.here get_blm 0%nat h' = (inr r, h').
Proof.
  eexists _, _. split; [reflexivity|].
  exact (proj1 (Demo.here blm_getter_caches Demo.h1 0%nat _ _ eq_refl)).
Defined.

(** [b.btype = 'PO'; b.blm] with the default [po_file]. *)
Lemma blm_getter_errors_witness :
  Demo.here get_blm 0%nat Inputs.h1_po
  = (inl (Foreign TypeError), Inputs.h1_po).
Proof.
  exact (proj1 (proj2 (Demo.here blm_getter_errors Inputs.h1_po 0%nat _
                         eq_refl eq_refl)) eq_refl eq_refl).
Defined.

(** A file of two rows is read as its first row. *)
Lemma load_blm_copol_uses_first_row_witness :
  store_loaded Demo.ndarray Demo.np_imul Demo.get_copol_blm Demo.scale_blm
    0 (Rank2 _ [[1; 0]; [2; 0]]) Demo.no_opts Demo.h1
  = store_loaded Demo.ndarray Demo.np_imul Demo.get_copol_blm Demo.scale_blm
      0 (Rank1 _ [1; 0]) Demo.no_opts Demo.h1.
Proof.
  refine (load_blm_copol_uses_first_row Demo.ndarray Demo.np_imul
            Demo.get_copol_blm Demo.scale_blm Demo.h1 0 _ [1; 0] [[2; 0]]
            Demo.no_opts eq_refl _).
  right. discriminate.
Defined.

(** [corrupt.npy] makes [np.load] raise [ValueError]. *)
Lemma load_blm_other_error_witness :
  Files.load_blm 0 (Some "corrupt.npy"%string) Demo.no_opts Demo.h1
  = (inl (Foreign ValueError), Demo.h1).
Proof.
  refine (Files.loading load_blm_other_error Demo.h1 0%nat
            "corrupt.npy"%string Demo.no_opts ValueError eq_refl _).
  discriminate.
Defined.

(** [b.load_blm('beam')] where neither file exists. *)
Lemma load_blm_no_extension_witness :
  Demo.load_blm 0 (Some "beam"%string) Demo.no_opts Demo.h1
  = (inl (Foreign IOError), Demo.h1).
Proof.
  exact (proj2 (Demo.loading load_blm_no_extension Demo.h1 0%nat
                  "beam"%string "beam"%string Demo.no_opts eq_refl eq_refl)
           IOError eq_refl).
Defined.

(** Loading [one.fits] on the primary of [h2] leaves its ghost alone. *)
Lemma calls_write_their_target_witness :
  beams Demo.ndarray
    (snd (Demo.run (LoadBlm 0 (Some "one.fits"%string) Demo.no_opts) Demo.h2))
    !! 1%nat
  = beams Demo.ndarray Demo.h2 !! 1%nat.
Proof.
  refine (Demo.here calls_write_their_target
            (LoadBlm 0 (Some "one.fits"%string) Demo.no_opts) [0%nat]
            Demo.h2 1%nat _ eq_refl eq_refl _).
  intros [E|E]%elem_of_cons; [discriminate E | apply elem_of_nil in E; exact E].
Defined.

(** [b.lmax = 5; b.mmax = None] *)
Lemma lmax_then_mmax_keeps_limits_witness :
  all_mmax_le_lmax Demo.ndarray
    (Inputs.after [SetLmax 0 (Some 5); SetMmax 0 None] Demo.h1).
Proof.
  refine (Demo.here lmax_then_mmax_keeps_limits Demo.h1 0%nat (Some 5) None _).
  apply all_mmax_le_lmax_forallb. reflexivity.
Defined.

(** [b.lmax = None] on [b = Beam(fwhm=43.)] stores 703. *)
Lemma lmax_from_width_witness :
  set_lmax Demo.ndarray 0 None Demo.h1
  = (inr tt, upd Demo.ndarray Demo.h1 0 (store___lmax (Some 703))).
Proof.
  exact (proj1 (proj1 (lmax_from_width Demo.ndarray Demo.h1 0 _ 43%float
                         eq_refl eq_refl) 703 eq_refl)).
Defined.

(** [g.reuse_blm(b)] for the ghost [g] of the primary [b]. *)
Lemma reuse_blm_keeps_ghost_idx_witness :
  exists os',
    beams Demo.ndarray (snd (Demo.reuse_blm 1 (IsBeam 0) Demo.h2)) !! 1%nat
    = Some os' /\
    __ghost_idx os' = Some 0.
Proof.
  exact (Demo.here reuse_blm_keeps_ghost_idx Demo.h2 1%nat 0%nat _ _
           eq_refl eq_refl eq_refl).
Defined.

(** The offsets of [b] before and after [b.lmax = 5; b.create_ghost()]. *)
Lemma get_offsets_stable_witness :
  fst (get_offsets Demo.ndarray 0
         (Inputs.after [SetLmax 0 (Some 5); CreateGhost 0 None Ov.none]
            Demo.h1))
  = fst (get_offsets Demo.ndarray 0 Demo.h1).
Proof.
  destruct (Demo.here get_offsets_stable
              [SetLmax 0 (Some 5); CreateGhost 0 None Ov.none]
              Demo.h1 0%nat _ eq_refl) as [A B].
  unfold Inputs.after. rewrite A, B. reflexivity.
Defined.

(** [b.blm = t; del b.blm; del b.blm] *)
Lemma blm_set_get_del_witness :
  del_blm Demo.ndarray 0 (upd Demo.ndarray Demo.h1 0 (store___blm None))
  = (inl (Foreign AttributeError),
     upd Demo.ndarray Demo.h1 0 (store___blm None)).
Proof.
  exact (proj2 (proj2 (proj2 (Demo.here blm_set_get_del Demo.h1 0%nat _ 7%nat
                                eq_refl)))).
Defined.

(** [b.load_blm('rows.npy')] *)
Lemma load_blm_binds_fresh_triplet_witness :
  exists t o',
    blms Demo.ndarray
      (snd (Files.load_blm 0 (Some "rows.npy"%string) Demo.no_opts Demo.h1))
    = blms Demo.ndarray Demo.h1 ++ [t] /\
    beams Demo.ndarray
      (snd (Files.load_blm 0 (Some "rows.npy"%string) Demo.no_opts Demo.h1))
      !! 0%nat = Some o' /\
    __blm o' = Some (length (blms Demo.ndarray Demo.h1)) /\
    blms Demo.ndarray
      (snd (Files.load_blm 0 (Some "rows.npy"%string) Demo.no_opts Demo.h1))
      !! length (blms Demo.ndarray Demo.h1) = Some t.
Proof.
  exact (Files.loading load_blm_binds_fresh_triplet Demo.h1 0%nat
           (Some "rows.npy"%string) Demo.no_opts _ eq_refl).
Defined.
